(** * Agent loop and Megamind orchestration pipeline

    A shallow embedding of [agent.py] (the tool-calling loops of
    [OpenRouterAgent] and [GeminiAgent]) and of [megamind_orchestrator.py]
    (the five-stage pipeline of [MegamindOrchestrator]), with the properties
    the specification states about them, followed by further properties of
    the two files and by an embedding of [web_server.py] (workers, progress
    monitor and event stream) and of [main.py] (the command-line loop).

    Python values are modelled as follows.  A [str] is a [string]; a
    dictionary keyed by names is a [gmap string _]; a raised exception is the
    [Raise] case of [res]; the effects of a call (tool executions, progress
    updates, agent runs) are returned as an explicit log next to the value.
    What lies outside the two files (the LLM provider, the tool functions,
    [json.loads], [json.dumps], [str.strip], the prompt templates of the
    configuration) is a variable of the enclosing section. *)

From stdpp Require Import gmap strings list fin_maps pretty sorting.
From Stdlib Require Import ZArith Ascii.

Open Scope string_scope.
Open Scope list_scope.

(** ** Python exceptions and results *)

Inductive exn_class :=
| JSONDecodeError   (* subclass of ValueError *)
| ValueError
| TypeError
| IndexError
| TimeoutError
| Exception.        (* a plain [Exception(...)] *)

#[global] Instance exn_class_eq_dec : EqDecision exn_class.
Proof. solve_decision. Defined.

(** [exn_msg e] is [str(e)]. *)
Record exn := mk_exn { exn_cls : exn_class; exn_msg : string }.

Inductive res (A : Type) :=
| Ret (a : A)
| Raise (e : exn).
Arguments Ret {A} a.
Arguments Raise {A} e.

(** ** JSON values, as [json.loads] builds them *)

#[local] Unset Elimination Schemes.
Inductive JSON :=
| JNull
| JBool (b : bool)
| JInt (z : Z)
| JFloat (literal : string)
| JStr (s : string)
| JArr (items : list JSON)
| JObj (fields : list (string * JSON)).
#[local] Set Elimination Schemes.

(** [len(v)]: defined on strings, lists and dicts; [None] is the [TypeError]
    Python raises on the other values. *)
Definition py_len (v : JSON) : option nat :=
  match v with
  | JStr s => Some (String.length s)
  | JArr items => Some (length items)
  | JObj fields => Some (length fields)
  | _ => None
  end.

(** The name of a value's type, as it appears in Python's messages. *)
Definition type_name (v : JSON) : string :=
  match v with
  | JNull => "NoneType"
  | JBool _ => "bool"
  | JInt _ => "int"
  | JFloat _ => "float"
  | JStr _ => "str"
  | JArr _ => "list"
  | JObj _ => "dict"
  end.

Fixpoint chars (s : string) : list JSON :=
  match s with
  | EmptyString => []
  | String c s' => JStr (String c EmptyString) :: chars s'
  end.

(** Iteration over a value, as [zip] does it: the items of a list, the keys
    of a dict, the characters of a string. *)
Definition py_iter (v : JSON) : list JSON :=
  match v with
  | JStr s => chars s
  | JArr items => items
  | JObj fields => (λ kv, JStr kv.1) <$> fields
  | _ => []
  end.

Definition nl : string := String "010"%char EmptyString.

(** ["\n\n".join(parts)] *)
Definition join_blank (parts : list string) : string :=
  String.concat (nl +:+ nl) parts.

(** Truthiness of an optional string ([None] and [""] are falsy). *)
Definition truthy (c : option string) : bool :=
  match c with
  | Some s => negb (String.eqb s "")
  | None => false
  end.

(** ** Tools and agents (agent.py, [BaseAgent]) *)

Abbreviation kwargs := (list (string * JSON)).

(** [tool.execute], called with keyword arguments: a JSON-compatible result,
    or an exception. *)
Abbreviation ToolFn := (kwargs → res JSON).

(** A tool schema in the OpenRouter format; only the function name is looked
    at by the agents ([t.get('function', {}).get('name')]). *)
Record Schema := mk_schema {
  schema_name : option string;
  schema_description : string;
  schema_parameters : JSON
}.

Record Tool := mk_tool {
  to_openrouter_schema : Schema;
  execute : ToolFn
}.

Inductive provider := OpenRouter | Gemini.

Record Image := mk_image { mime_type : string; data : string }.

Record Agent := mk_agent {
  agent_provider : provider;
  system_prompt : string;
  max_iterations : Z;
  discovered_tools : gmap string Tool;
  tools : list Schema;
  tool_mapping : gmap string ToolFn
}.

(** One executed tool function: the name it was looked up under and the
    keyword arguments it was called with. *)
Abbreviation Invocation := (string * kwargs)%type.

Definition sentinel : string := "mark_task_complete".

(** [BaseAgent.__init__]: the mapping holds the [execute] of every discovered
    tool; both providers derive their schemas from the discovered tools.  A
    Python dict keeps insertion order; the maps here list their entries in an
    order of their own, which no property below depends on. *)
Definition schemas_of (d : gmap string Tool) : list Schema :=
  (λ nt, to_openrouter_schema nt.2) <$> map_to_list d.

Definition new_agent (p : provider) (sys : string) (max_iter : Z)
    (d : gmap string Tool) : Agent :=
  {| agent_provider := p;
     system_prompt := sys;
     max_iterations := max_iter;
     discovered_tools := d;
     tools := schemas_of d;
     tool_mapping := execute <$> d |}.

(** ** OpenRouterAgent *)

Module OpenRouterAgent.

(** A tool call requested by the provider: [tool_call.id],
    [tool_call.function.name], [tool_call.function.arguments] (JSON text). *)
Record ToolCall := mk_call {
  call_id : string;
  call_name : string;
  call_arguments : string
}.

Inductive UserContent :=
| PlainText (user_input : string)
| Parts (image_urls : list string) (text : string).

Inductive Message :=
| SystemMsg (content : string)
| UserMsg (content : UserContent)
| AssistantMsg (content : option string) (tool_calls : list ToolCall)
| ToolMsg (tool_call_id name content : string).

(** [response.choices]: the assistant message of the first choice, when
    there is one. *)
Definition Response := option (option string * list ToolCall)%type.

(** The provider, as [client.chat.completions.create(messages, tools)]. *)
Definition LLM := list Schema → list Message → res Response.

Definition remove_tool (tool_name : string) (a : Agent) : Agent :=
  {| agent_provider := agent_provider a;
     system_prompt := system_prompt a;
     max_iterations := max_iterations a;
     discovered_tools := discovered_tools a;
     tools := filter (λ t, schema_name t ≠ Some tool_name) (tools a);
     tool_mapping := filter (λ nf, nf.1 ≠ tool_name) (tool_mapping a) |}.

Section Run.

Variable json_loads : string → res JSON.
Variable json_dumps : JSON → string.
(** [str(e)] of the [TypeError] raised when the value unpacked into keyword
    arguments is no dict. *)
Variable not_a_mapping : JSON → string.
Variable llm : LLM.

Definition call_llm (a : Agent) (messages : list Message) : res Response :=
  match llm (tools a) messages with
  | Ret r => Ret r
  | Raise e => Raise (mk_exn Exception ("LLM call failed: " +:+ exn_msg e))
  end.

Definition error_payload (msg : string) : JSON := JObj [("error", JStr msg)].

Definition tool_message (tc : ToolCall) (payload : JSON) : Message :=
  ToolMsg (call_id tc) (call_name tc) (json_dumps payload).

Definition failed (tc : ToolCall) (e : exn) : Message :=
  tool_message tc (error_payload ("Tool execution failed: " +:+ exn_msg e)).

(** Returns the functions it executed (at most one) and the tool message. *)
Definition handle_tool_call (a : Agent) (tc : ToolCall)
    : list Invocation * Message :=
  let tool_name := call_name tc in
  match json_loads (call_arguments tc) with
  | Raise e => ([], failed tc e)
  | Ret tool_args =>
      match tool_mapping a !! tool_name with
      | Some f =>
          match tool_args with
          | JObj kw =>
              ([(tool_name, kw)],
               match f kw with
               | Ret tool_result => tool_message tc tool_result
               | Raise e => failed tc e
               end)
          | _ => ([], failed tc (mk_exn TypeError (not_a_mapping tool_args)))
          end
      | None =>
          ([], tool_message tc (error_payload ("Unknown tool: " +:+ tool_name)))
      end
  end.

Definition image_url (img : Image) : string :=
  "data:" +:+ mime_type img +:+ ";base64," +:+ data img.

Definition _build_user_content (user_input : string)
    (images : option (list Image)) : UserContent :=
  match images with
  | None | Some [] => PlainText user_input
  | Some imgs => Parts (image_url <$> imgs) user_input
  end.

(** The state of one [run]: the conversation, the collected assistant
    texts, and two counters of effects (provider calls made, tool
    functions executed). *)
Record RunState := mk_state {
  messages : list Message;
  full_response_content : list string;
  llm_calls : nat;
  invoked : list Invocation
}.

(** The [for tool_call in assistant_message.tool_calls] loop: [true] when
    it returned from [run] at the completion tool. *)
Fixpoint handle_calls (a : Agent) (calls : list ToolCall) (st : RunState)
    : RunState * bool :=
  match calls with
  | [] => (st, false)
  | tc :: rest =>
      let '(inv, tool_result) := handle_tool_call a tc in
      let st' := {| messages := messages st ++ [tool_result];
                    full_response_content := full_response_content st;
                    llm_calls := llm_calls st;
                    invoked := invoked st ++ inv |} in
      if String.eqb (call_name tc) sentinel then (st', true)
      else handle_calls a rest st'
  end.

Definition exhausted : string :=
  "Maximum iterations reached. The agent may be stuck in a loop.".

Definition final_text (st : RunState) : string :=
  match full_response_content st with
  | [] => exhausted
  | _ => join_blank (full_response_content st)
  end.

(** The [while iteration < max_iterations] loop; [left] counts the
    iterations that remain. *)
Fixpoint loop (a : Agent) (left : nat) (st : RunState) : RunState * res string :=
  match left with
  | O => (st, Ret (final_text st))
  | S left' =>
      let st1 := {| messages := messages st;
                    full_response_content := full_response_content st;
                    llm_calls := S (llm_calls st);
                    invoked := invoked st |} in
      match call_llm a (messages st) with
      | Raise e => (st1, Raise e)
      | Ret None => (st1, Raise (mk_exn IndexError "list index out of range"))
      | Ret (Some (content, tool_calls)) =>
          let st2 := {| messages := messages st ++ [AssistantMsg content tool_calls];
                        full_response_content :=
                          full_response_content st
                            ++ (if truthy content then [default "" content] else []);
                        llm_calls := llm_calls st1;
                        invoked := invoked st |} in
          let '(st3, task_completed) := handle_calls a tool_calls st2 in
          if task_completed
          then (st3, Ret (join_blank (full_response_content st3)))
          else loop a left' st3
      end
  end.

Definition initial (a : Agent) (user_input : string)
    (images : option (list Image)) : RunState :=
  {| messages := [SystemMsg (system_prompt a);
                  UserMsg (_build_user_content user_input images)];
     full_response_content := [];
     llm_calls := 0;
     invoked := [] |}.

Definition run_state (a : Agent) (user_input : string)
    (images : option (list Image)) : RunState * res string :=
  loop a (Z.to_nat (max_iterations a)) (initial a user_input images).


(** Whether a call of the completion tool was answered in the
    conversation. *)
Definition completion_called (msgs : list Message) : bool :=
  existsb (λ m, match m with
                | ToolMsg _ name _ => String.eqb name sentinel
                | _ => false
                end) msgs.

Definition run (a : Agent) (user_input : string)
    (images : option (list Image)) : res string :=
  (run_state a user_input images).2.

End Run.

End OpenRouterAgent.

(** ** GeminiAgent *)

Module GeminiAgent.

(** A function call part of the model's reply: [fc.name], [fc.args]. *)
Record FunctionCall := mk_call {
  call_name : string;
  call_args : option kwargs
}.

Inductive Part :=
| TextPart (text : string)
| BytesPart (image_bytes : string) (mime : string)
| FunctionResponsePart (name : string) (response : JSON).

Inductive Content :=
| UserContent (parts : list Part)
| ModelContent (text : option string) (function_calls : list FunctionCall).

(** [response.candidates]: [response.text] and the function calls among the
    parts of the first candidate, when there is one. *)
Definition Response := option (option string * list FunctionCall)%type.

(** The provider, as [client.models.generate_content(contents, config)];
    the configuration carries the system instruction and the tools. *)
Definition LLM := string → list Schema → list Content → res Response.

(** [_build_gemini_tools] reads the name, description and parameters of each
    discovered tool's schema. *)
Definition _build_gemini_tools (d : gmap string Tool) : list Schema :=
  schemas_of d.

Definition remove_tool (tool_name : string) (a : Agent) : Agent :=
  let remaining_tools := filter (λ nt, nt.1 ≠ tool_name) (discovered_tools a) in
  {| agent_provider := agent_provider a;
     system_prompt := system_prompt a;
     max_iterations := max_iterations a;
     discovered_tools := remaining_tools;
     tools := _build_gemini_tools remaining_tools;
     tool_mapping := filter (λ nf, nf.1 ≠ tool_name) (tool_mapping a) |}.

Section Run.

Variable b64decode : string → res string.
Variable llm : LLM.

Definition call_llm (a : Agent) (contents : list Content) : res Response :=
  match llm (system_prompt a) (tools a) contents with
  | Ret r => Ret r
  | Raise e => Raise (mk_exn Exception ("Gemini API call failed: " +:+ exn_msg e))
  end.

Definition error_payload (msg : string) : JSON := JObj [("error", JStr msg)].

(** Returns the functions it executed (at most one) and the result. *)
Definition handle_tool_call (a : Agent) (fc : FunctionCall)
    : list Invocation * JSON :=
  let tool_name := call_name fc in
  let tool_args := default [] (call_args fc) in
  match tool_mapping a !! tool_name with
  | Some f =>
      ([(tool_name, tool_args)],
       match f tool_args with
       | Ret tool_result => tool_result
       | Raise e => error_payload ("Tool execution failed: " +:+ exn_msg e)
       end)
  | None => ([], error_payload ("Unknown tool: " +:+ tool_name))
  end.

Fixpoint image_parts (images : list Image) : res (list Part) :=
  match images with
  | [] => Ret []
  | img :: rest =>
      match b64decode (data img) with
      | Raise e => Raise e
      | Ret image_bytes =>
          match image_parts rest with
          | Raise e => Raise e
          | Ret parts => Ret (BytesPart image_bytes (mime_type img) :: parts)
          end
      end
  end.

Definition _build_content_parts (user_input : string)
    (images : option (list Image)) : res (list Part) :=
  match image_parts (default [] images) with
  | Raise e => Raise e
  | Ret parts => Ret (parts ++ [TextPart user_input])
  end.

Record RunState := mk_state {
  contents : list Content;
  full_response_content : list string;
  llm_calls : nat;
  invoked : list Invocation
}.

(** The [for fc in function_calls] loop: every call of the batch is
    handled; the flag records whether one of them was the completion
    tool. *)
Fixpoint handle_calls (a : Agent) (calls : list FunctionCall)
    (function_response_parts : list Part) (inv : list Invocation)
    (task_completed : bool) : list Part * list Invocation * bool :=
  match calls with
  | [] => (function_response_parts, inv, task_completed)
  | fc :: rest =>
      let '(i, result) := handle_tool_call a fc in
      handle_calls a rest
        (function_response_parts
           ++ [FunctionResponsePart (call_name fc) (JObj [("result", result)])])
        (inv ++ i)
        (task_completed || String.eqb (call_name fc) sentinel)
  end.

Definition exhausted : string := "Maximum iterations reached.".

Definition final_text (st : RunState) : string :=
  match full_response_content st with
  | [] => exhausted
  | _ => join_blank (full_response_content st)
  end.

Fixpoint loop (a : Agent) (left : nat) (st : RunState) : RunState * res string :=
  match left with
  | O => (st, Ret (final_text st))
  | S left' =>
      let st1 := {| contents := contents st;
                    full_response_content := full_response_content st;
                    llm_calls := S (llm_calls st);
                    invoked := invoked st |} in
      match call_llm a (contents st) with
      | Raise e => (st1, Raise e)
      | Ret None => (st1, Ret (final_text st1))      (* break *)
      | Ret (Some (text, function_calls)) =>
          let st2 := {| contents := contents st ++ [ModelContent text function_calls];
                        full_response_content :=
                          full_response_content st
                            ++ (if truthy text then [default "" text] else []);
                        llm_calls := llm_calls st1;
                        invoked := invoked st |} in
          match function_calls with
          | [] => loop a left' st2
          | _ =>
              let '(parts, inv, task_completed) :=
                handle_calls a function_calls [] (invoked st2) false in
              let st3 := {| contents := contents st2 ++ [UserContent parts];
                            full_response_content := full_response_content st2;
                            llm_calls := llm_calls st2;
                            invoked := inv |} in
              if task_completed
              then (st3, Ret (join_blank (full_response_content st3)))
              else loop a left' st3
          end
      end
  end.


Definition names_completion (p : Part) : bool :=
  match p with
  | FunctionResponsePart name _ => String.eqb name sentinel
  | _ => false
  end.

(** Whether a call of the completion tool was answered in the
    conversation. *)
Definition completion_called (cs : list Content) : bool :=
  existsb (λ c, match c with
                | UserContent parts => existsb names_completion parts
                | _ => false
                end) cs.

Definition initial (parts : list Part) : RunState :=
  {| contents := [UserContent parts];
     full_response_content := [];
     llm_calls := 0;
     invoked := [] |}.

Definition run_state (a : Agent) (user_input : string)
    (images : option (list Image)) : res RunState * res string :=
  match _build_content_parts user_input images with
  | Raise e => (Raise e, Raise e)
  | Ret parts =>
      let '(st, r) := loop a (Z.to_nat (max_iterations a)) (initial parts) in
      (Ret st, r)
  end.

Definition run (a : Agent) (user_input : string)
    (images : option (list Image)) : res string :=
  (run_state a user_input images).2.

End Run.

End GeminiAgent.

(** [agent.remove_tool(name)], dispatched on the agent's class. *)
Definition remove_tool (tool_name : string) (a : Agent) : Agent :=
  match agent_provider a with
  | OpenRouter => OpenRouterAgent.remove_tool tool_name a
  | Gemini => GeminiAgent.remove_tool tool_name a
  end.

(** ** MegamindOrchestrator *)

Module MegamindOrchestrator.

(** The status strings the orchestrator writes: ['IN_PROGRESS'], ['COMPLETED']
    and ['FAILED'] for stages; ['QUEUED'], ['PROCESSING'], ['COMPLETED'] and
    ['FAILED'] for agents. *)
Inductive status := QUEUED | IN_PROGRESS | PROCESSING | COMPLETED | FAILED.

#[global] Instance status_eq_dec : EqDecision status.
Proof. solve_decision. Defined.

(** [execution_time]: a measured wall-clock duration on success, the
    constant [0] on error. *)
Inductive duration := Measured | Zero.

Record AgentResult := mk_result {
  agent_id : string;
  result_status : string;
  response : string;
  execution_time : duration
}.

(** What a stage does besides returning: the writes to the two progress
    dictionaries, the agent runs it starts, and the calls of the status
    callback, in the order they happen. *)
Inductive event :=
| StageUpdate (stage : string) (st : status)
| AgentUpdate (agent : string) (st : status) (result : option string)
| AgentRun (agent : string) (a : Agent) (prompt : JSON) (images : option (list Image))
| Callback (label : string).

Definition M (A : Type) : Type := (list event * res A)%type.

#[global] Instance M_ret : MRet M := λ A a, ([], Ret a).
#[global] Instance M_bind : MBind M := λ A B k m,
  match m.2 with
  | Ret a => (m.1 ++ (k a).1, (k a).2)
  | Raise e => (m.1, Raise e)
  end.

Definition emit (evs : list event) : M unit := (evs, Ret tt).

(** The progress store: [stage_progress] and [agent_progress]. *)
Record Progress := mk_progress {
  stage_progress : gmap string status;
  agent_progress : gmap string (status * option string)
}.

Definition apply_event (p : Progress) (ev : event) : Progress :=
  match ev with
  | StageUpdate stage st =>                                  (* update_stage *)
      {| stage_progress := <[stage := st]> (stage_progress p);
         agent_progress := agent_progress p |}
  | AgentUpdate agent st result =>                  (* update_agent_progress *)
      {| stage_progress := stage_progress p;
         agent_progress := <[agent := (st, result)]> (agent_progress p) |}
  | _ => p
  end.

(** [get_progress_status] after the given events of a run, which starts
    from two empty dictionaries. *)
Definition get_progress_status (evs : list event) : Progress :=
  foldl apply_event {| stage_progress := ∅; agent_progress := ∅ |} evs.

(** The worker pool of a fan-out stage, seen from the collecting thread:
    [interleaving] names the worker that takes each next step, and
    [timeout_after] is the number of futures [as_completed] yields before
    [task_timeout] expires ([None]: all of them are yielded in time). *)
Record Pool := mk_pool {
  interleaving : list nat;
  timeout_after : option nat
}.

(** The steps of the threads in the order the schedule picks them; a pick of
    a finished or missing thread is skipped, and when the schedule is used up
    the threads run to their end one after the other. *)
Fixpoint interleave {A} (sched : list nat) (threads : list (list A)) : list A :=
  match sched with
  | [] => concat threads
  | i :: sched' =>
      match threads !! i with
      | Some (x :: rest) => x :: interleave sched' (<[i := rest]> threads)
      | _ => interleave sched' threads
      end
  end.

(** A submitted task: the events its thread produces, then the outcome that
    [future.result()] gives. *)
Definition Task : Type := (list event * res AgentResult)%type.

Definition steps (i : nat) (t : Task) : list (event + nat * res AgentResult) :=
  (inl <$> t.1) ++ [inr (i, t.2)].

Definition left_of {A B} (x : A + B) : option A :=
  match x with inl a => Some a | inr _ => None end.
Definition right_of {A B} (x : A + B) : option B :=
  match x with inl _ => None | inr b => Some b end.

Definition times_out (pool : Pool) (n : nat) : bool :=
  match timeout_after pool with
  | Some k => (k <? n)%nat
  | None => false
  end.

(** Runs the tasks on the pool.  The events of every task take place (leaving
    the [with ThreadPoolExecutor] block waits for all workers); the futures
    come back in completion order, cut at the timeout. *)
Definition run_pool (pool : Pool) (tasks : list Task)
    : list event * list (nat * res AgentResult) :=
  let trace := interleave (interleaving pool) (imap steps tasks) in
  let completed := omap right_of trace in
  (omap left_of trace,
   if times_out pool (length tasks)
   then take (default 0 (timeout_after pool)) completed
   else completed).

(** The [TimeoutError] of [as_completed]. *)
Definition unfinished (pool : Pool) (n : nat) : exn :=
  mk_exn TimeoutError
    (pretty (n - default 0 (timeout_after pool))%nat +:+ " (of " +:+ pretty n
       +:+ ") futures unfinished").

(** ASCII [str.upper]. *)
Definition upper_ascii (c : ascii) : ascii :=
  let n := nat_of_ascii c in
  if ((97 <=? n) && (n <=? 122))%nat then ascii_of_nat (n - 32) else c.

Fixpoint upper (s : string) : string :=
  match s with
  | EmptyString => EmptyString
  | String c s' => String (upper_ascii c) (upper s')
  end.

(** [l.index(x)], for an [x] that occurs in [l]. *)
Fixpoint index (x : string) (l : list string) : nat :=
  match l with
  | [] => 0
  | y :: l' => if String.eqb y x then 0 else S (index x l')
  end.

Record PipelineResult := mk_pipeline {
  questions : JSON;
  research_results : list AgentResult;
  first_draft : string;
  validation_results : list AgentResult;
  final_result : string
}.

(** [STAGES] *)
Definition STAGES (stage : string) : string :=
  if String.eqb stage "question_generation" then "Generating specialized questions"
  else if String.eqb stage "parallel_research" then "Running parallel research agents"
  else if String.eqb stage "first_synthesis" then "Synthesizing first draft"
  else if String.eqb stage "validation" then "Running validation agents"
  else "Creating final answer".

Section Stages.

(** The agent [create_agent(silent=True)] builds from the configuration. *)
Variable create_agent : Agent.
(** [agent.run(prompt)] of the agent started under the given progress
    key: any outcome, for any agent and prompt. *)
Variable agent_run : string → Agent → JSON → option (list Image) → res string.
Variable json_loads : string → res JSON.
Variable strip : string → string.
(** [str(l)] of a list of strings. *)
Variable str_list : list string → string.
(** The prompt templates, applied to their fields by [str.format]. *)
Variable question_prompt : string → string.
Variable synthesis_prompt : string → string.
Variable validation_prompt_1 validation_prompt_2 : string → string → string.
Variable final_synthesis_prompt : string → string → string → string → string.

(** [list(agent.tool_mapping.keys())] *)
Definition tool_names (a : Agent) : list string := (map_to_list (tool_mapping a)).*1.

(** The [remove_tools] loop of [_run_agent]. *)
Definition keep_search_calculator (a : Agent) : Agent :=
  foldl (λ agent tool_name,
           if bool_decide (tool_name ≠ "search" ∧ tool_name ≠ "calculator")
           then remove_tool tool_name agent else agent)
        a (tool_names a).

(** The loop of the synthesis stages, which removes every tool. *)
Definition remove_all_tools (a : Agent) : Agent :=
  foldl (λ agent tool_name, remove_tool tool_name agent) a (tool_names a).

Definition _run_agent (id : string) (prompt : JSON) (remove_tools : bool) : Task :=
  let agent := create_agent in
  let agent := if remove_tools then keep_search_calculator agent else agent in
  let started := [AgentUpdate id PROCESSING None; AgentRun id agent prompt None] in
  match agent_run id agent prompt None with
  | Ret response =>
      (started ++ [AgentUpdate id COMPLETED (Some response)],
       Ret {| agent_id := id; result_status := "success";
              response := response; execution_time := Measured |})
  | Raise e =>
      (started ++ [AgentUpdate id FAILED None],
       Ret {| agent_id := id; result_status := "error";
              response := "Error: " +:+ exn_msg e; execution_time := Zero |})
  end.

Definition fallback (user_input : string) : list string :=
  [ "Research comprehensive information about: " +:+ user_input;
    "Analyze and provide insights about: " +:+ user_input;
    "Find alternative perspectives on: " +:+ user_input;
    "Verify and cross-check facts about: " +:+ user_input ].

(** [except (json.JSONDecodeError, ValueError)] *)
Definition caught (e : exn) : bool :=
  match exn_cls e with
  | JSONDecodeError | ValueError => true
  | _ => false
  end.

(** The body of the [try] of [generate_questions], up to the length
    check. *)
Definition try_questions (agent : Agent) (prompt : string) : res (string * JSON) :=
  match agent_run "question_gen" agent (JStr prompt) None with
  | Raise e => Raise e
  | Ret response =>
      match json_loads (strip response) with
      | Raise e => Raise e
      | Ret questions =>
          match py_len questions with
          | None =>
              Raise (mk_exn TypeError
                       ("object of type '" +:+ type_name questions +:+ "' has no len()"))
          | Some n =>
              if bool_decide (n ≠ 4)
              then Raise (mk_exn ValueError ("Expected 4 questions, got " +:+ pretty n))
              else Ret (response, questions)
          end
      end
  end.

Definition generate_questions (user_input : string) : M JSON :=
  let agent := remove_tool "mark_task_complete" create_agent in
  let prompt := question_prompt user_input in
  let started := [StageUpdate "question_generation" IN_PROGRESS;
                  AgentUpdate "question_gen" PROCESSING None;
                  AgentRun "question_gen" agent (JStr prompt) None] in
  match try_questions agent prompt with
  | Ret (response, questions) =>
      (started ++ [AgentUpdate "question_gen" COMPLETED (Some response);
                   StageUpdate "question_generation" COMPLETED],
       Ret questions)
  | Raise e =>
      if caught e
      then (started ++ [AgentUpdate "question_gen" COMPLETED
                          (Some (str_list (fallback user_input)));
                        StageUpdate "question_generation" COMPLETED],
            Ret (JArr (JStr <$> fallback user_input)))
      else (started, Raise e)
  end.

Definition agent_names : list string :=
  ["research"; "analysis"; "alternatives"; "verification"].

(** The [for future in as_completed(...)] loop body: the result of the
    future, or an error record under the name [fallback_id]. *)
Definition collect (failure : string) (fallback_id : nat → string)
    (completed : nat * res AgentResult) : AgentResult :=
  match completed.2 with
  | Ret result => result
  | Raise e =>
      {| agent_id := fallback_id completed.1; result_status := "error";
         response := failure +:+ exn_msg e; execution_time := Zero |}
  end.

Definition run_parallel_agents (questions : JSON) (images : option (list Image))
    (pool : Pool) : M (list AgentResult) :=
  let queued := (λ name, AgentUpdate name QUEUED None) <$> agent_names in
  let futures := zip agent_names (py_iter questions) in
  let tasks := (λ nq, _run_agent nq.1 nq.2 false) <$> futures in
  let '(evs, completed) := run_pool pool tasks in
  let results :=
    collect "Agent failed: " (λ i, default "" (futures.*1 !! i)) <$> completed in
  let started := StageUpdate "parallel_research" IN_PROGRESS :: queued ++ evs in
  if times_out pool (length tasks)
  then (started, Raise (unfinished pool (length tasks)))
  else (started ++ [StageUpdate "parallel_research" COMPLETED], Ret results).

Definition display_names : list string :=
  ["Research"; "Analysis"; "Alternatives"; "Verification"].

(** One pass of the loop that builds [agent_responses_text]. *)
Definition labelled (result : AgentResult) : string :=
  let id := agent_id result in
  let idx := if bool_decide (id ∈ agent_names) then index id agent_names else 0 in
  let name := default id (display_names !! idx) in
  "=== " +:+ upper name +:+ " AGENT ===" +:+ nl +:+ response result +:+ nl +:+ nl.

Definition agent_responses_text (agent_results : list AgentResult) : string :=
  foldl (λ text result, text +:+ labelled result) "" agent_results.

(** The common end of the two synthesis stages: all tools removed, one
    run, a failure recorded and raised again. *)
Definition synthesize (stage key : string) (prompt : string) : M string :=
  let agent := remove_all_tools create_agent in
  let started := [StageUpdate stage IN_PROGRESS;
                  AgentUpdate key PROCESSING None;
                  AgentRun key agent (JStr prompt) None] in
  match agent_run key agent (JStr prompt) None with
  | Ret response =>
      (started ++ [AgentUpdate key COMPLETED (Some response);
                   StageUpdate stage COMPLETED],
       Ret response)
  | Raise e =>
      (started ++ [AgentUpdate key FAILED None; StageUpdate stage FAILED],
       Raise e)
  end.

Definition first_synthesis (agent_results : list AgentResult) : M string :=
  synthesize "first_synthesis" "synthesis"
    (synthesis_prompt (agent_responses_text agent_results)).

Definition run_validation (original_query draft_answer : string) (pool : Pool)
    : M (list AgentResult) :=
  let queued := [AgentUpdate "validator_1" QUEUED None;
                 AgentUpdate "validator_2" QUEUED None] in
  let prompt_1 := validation_prompt_1 original_query draft_answer in
  let prompt_2 := validation_prompt_2 original_query draft_answer in
  let tasks := [_run_agent "validator_1" (JStr prompt_1) true;
                _run_agent "validator_2" (JStr prompt_2) true] in
  let '(evs, completed) := run_pool pool tasks in
  let results := collect "Validation failed: " (λ _, "validator") <$> completed in
  let started := StageUpdate "validation" IN_PROGRESS :: queued ++ evs in
  if times_out pool (length tasks)
  then (started, Raise (unfinished pool (length tasks)))
  else (started ++ [StageUpdate "validation" COMPLETED], Ret results).

(** [next((r['response'] for r in results if r.get('agent_id') == id), '')] *)
Definition response_of (id : string) (results : list AgentResult) : string :=
  default "" (response <$> head (filter (λ r, agent_id r = id) results)).

Definition final_synthesis (original_query draft_answer : string)
    (validation_results : list AgentResult) : M string :=
  let validation_1 := response_of "validator_1" validation_results in
  let validation_2 := response_of "validator_2" validation_results in
  synthesize "final_synthesis" "final"
    (final_synthesis_prompt original_query draft_answer validation_1 validation_2).

Definition announce (status_callback : bool) (stage : string) : M unit :=
  emit (if status_callback then [Callback (STAGES stage)] else []).

(** [research] and [validation] are the pools of the two fan-out stages. *)
Definition orchestrate (user_input : string) (images : option (list Image))
    (status_callback : bool) (research validation : Pool) : M PipelineResult :=
  announce status_callback "question_generation" ;;
  questions ← generate_questions user_input;
  announce status_callback "parallel_research" ;;
  research_results ← run_parallel_agents questions images research;
  announce status_callback "first_synthesis" ;;
  first_draft ← first_synthesis research_results;
  announce status_callback "validation" ;;
  validation_results ← run_validation user_input first_draft validation;
  announce status_callback "final_synthesis" ;;
  final_result ← final_synthesis user_input first_draft validation_results;
  mret {| questions := questions;
          research_results := research_results;
          first_draft := first_draft;
          validation_results := validation_results;
          final_result := final_result |}.

End Stages.

(** ** Observations on results and event logs *)


(** The header a section of the merged block carries for an agent
    identifier: the canonical name in upper case, [RESEARCH] for any other
    identifier. *)
Definition header_of (id : string) : string :=
  if String.eqb id "analysis" then "ANALYSIS"
  else if String.eqb id "alternatives" then "ALTERNATIVES"
  else if String.eqb id "verification" then "VERIFICATION"
  else "RESEARCH".

(** The agents that were run, and the images their runs were given. *)
Definition agents_run (evs : list event) : list Agent :=
  omap (λ ev, match ev with AgentRun _ a _ _ => Some a | _ => None end) evs.

Definition images_given (evs : list event) : list (option (list Image)) :=
  omap (λ ev, match ev with AgentRun _ _ _ images => Some images | _ => None end) evs.

(** No agent run of the log was given images. *)
Definition runs_without_images (evs : list event) : bool :=
  forallb (λ ev, match ev with
                 | AgentRun _ _ _ (Some _) => false
                 | _ => true
                 end) evs.

(** The position of a status in the chain
    not-started, queued, in-progress, completed or failed. *)
Definition rank (st : status) : nat :=
  match st with
  | QUEUED => 1
  | IN_PROGRESS | PROCESSING => 2
  | COMPLETED | FAILED => 3
  end.

Definition stage_rank (p : Progress) (key : string) : nat :=
  from_option rank 0 (stage_progress p !! key).

Definition agent_rank (p : Progress) (key : string) : nat :=
  from_option (λ entry, rank entry.1) 0 (agent_progress p !! key).

(** The dictionary ([true]: [agent_progress]), key and status an event
    writes. *)
Definition written (ev : event) : option (bool * string * status) :=
  match ev with
  | StageUpdate stage st => Some (false, stage, st)
  | AgentUpdate agent st _ => Some (true, agent, st)
  | _ => None
  end.

(** [forward e e']: if [e] and the later [e'] write the same key, then [e']
    moves it strictly forward in the chain. *)
Definition forward (e e' : event) : bool :=
  match written e, written e' with
  | Some (d, k, st), Some (d', k', st') =>
      if bool_decide (d = d' ∧ k = k') then (rank st <? rank st')%nat else true
  | _, _ => true
  end.

Fixpoint monotonic (evs : list event) : bool :=
  match evs with
  | [] => true
  | e :: rest => forallb (forward e) rest && monotonic rest
  end.

(** Every step of [l1] may be followed by every step of [l2]. *)
Definition cross (l1 l2 : list event) : bool :=
  forallb (λ e, forallb (forward e) l2) l1.

(** The threads may be interleaved in any way: steps of different threads
    may follow each other in either order. *)
Fixpoint apart (threads : list (list event)) : bool :=
  match threads with
  | [] => true
  | t :: rest => forallb (λ t', cross t t' && cross t' t) rest && apart rest
  end.

(** The key an event writes, and whether all keys written by a log are
    among the given ones. *)
Definition key_of (ev : event) : option (bool * string) :=
  match written ev with
  | Some (d, k, _) => Some (d, k)
  | None => None
  end.

Definition within (keys : list (bool * string)) (evs : list event) : bool :=
  forallb (λ ev, match key_of ev with
                 | Some k => bool_decide (k ∈ keys)
                 | None => true
                 end) evs.

Definition disjoint_keys (keys1 keys2 : list (bool * string)) : bool :=
  forallb (λ k, negb (bool_decide (k ∈ keys2))) keys1.

End MegamindOrchestrator.

(** ** A concrete environment

    One tool registry, one [json.loads]/[json.dumps] pair defined on the
    texts used below, and scripted providers: the concrete inputs at which
    the theorems are instantiated and the counterexamples evaluated. *)

Module Sample.

Definition dq : string := String (ascii_of_nat 34) EmptyString.
Definition quoted (s : string) : string := dq +:+ s +:+ dq.

(** ['["q1", "q2", "q3", "q4"]'] and its value. *)
Definition four_questions_text : string :=
  "[" +:+ quoted "q1" +:+ ", " +:+ quoted "q2" +:+ ", " +:+ quoted "q3"
      +:+ ", " +:+ quoted "q4" +:+ "]".
Definition four_questions : JSON := JArr [JStr "q1"; JStr "q2"; JStr "q3"; JStr "q4"].

Definition decode_error : exn :=
  mk_exn JSONDecodeError "Expecting value: line 1 column 1 (char 0)".

(** [json.loads] on the texts ["{}"], ["42"], the four questions above, and
    texts that are no JSON. *)
Definition json_loads (s : string) : res JSON :=
  if String.eqb s "{}" then Ret (JObj [])
  else if String.eqb s "42" then Ret (JInt 42)
  else if String.eqb s four_questions_text then Ret four_questions
  else Raise decode_error.

(** [json.dumps] on values whose strings need no escaping. *)
Fixpoint json_dumps (v : JSON) : string :=
  match v with
  | JNull => "null"
  | JBool true => "true"
  | JBool false => "false"
  | JInt z => pretty z
  | JFloat literal => literal
  | JStr s => quoted s
  | JArr items => "[" +:+ String.concat ", " (map json_dumps items) +:+ "]"
  | JObj fields =>
      "{" +:+ String.concat ", "
                (map (λ kv, match kv with (k, x) => quoted k +:+ ": " +:+ json_dumps x end)
                     fields)
          +:+ "}"
  end.

Definition not_a_mapping (v : JSON) : string :=
  "argument after ** must be a mapping, not " +:+ type_name v.

(** No leading or trailing whitespace occurs in the texts used here. *)
Definition strip (s : string) : string := s.

Definition str_list (l : list string) : string :=
  "[" +:+ String.concat ", " ((λ s, "'" +:+ s +:+ "'") <$> l) +:+ "]".

Definition b64decode (s : string) : res string := Ret s.

Definition schema (name : string) : Schema :=
  {| schema_name := Some name; schema_description := ""; schema_parameters := JObj [] |}.

(** A tool that records nothing and answers with its arguments. *)
Definition tool (name : string) : Tool :=
  {| to_openrouter_schema := schema name; execute := λ kw, Ret (JObj kw) |}.

Definition registry : gmap string Tool :=
  list_to_map [("search", tool "search"); ("calculator", tool "calculator");
               ("read_file", tool "read_file");
               ("mark_task_complete", tool "mark_task_complete")].

Definition openrouter_agent : Agent := new_agent OpenRouter "You are helpful." 10 registry.
Definition gemini_agent : Agent := new_agent Gemini "You are helpful." 10 registry.

(** Providers.  [completes text] answers [text] together with a call of the
    completion tool; [silent] never calls a tool and never writes text;
    [down] fails; [no_candidates] returns a reply without candidates. *)
Definition completes (text : string) : OpenRouterAgent.LLM :=
  λ _ _, Ret (Some (Some text, [OpenRouterAgent.mk_call "call_1" sentinel "{}"])).
Definition silent : OpenRouterAgent.LLM := λ _ _, Ret (Some (None, [])).
Definition down : OpenRouterAgent.LLM :=
  λ _ _, Raise (mk_exn Exception "Connection error.").

Definition completes_then_searches : GeminiAgent.LLM :=
  λ _ _ _, Ret (Some (Some "done",
                      [GeminiAgent.mk_call sentinel None;
                       GeminiAgent.mk_call "search" (Some [("query", JStr "x")])])).

(** [agent.run] for an OpenRouter agent whose provider behaves, for the run
    started under progress key [key], as [behaviour key].  The orchestrator
    passes prompts on as it got them; what the client library does with a
    prompt that is no string is not modelled and stands as a [TypeError]. *)
Definition agent_run (behaviour : string → OpenRouterAgent.LLM)
    (key : string) (a : Agent) (prompt : JSON) (images : option (list Image))
    : res string :=
  match prompt with
  | JStr user_input =>
      OpenRouterAgent.run json_loads json_dumps not_a_mapping (behaviour key)
        a user_input images
  | _ => Raise (mk_exn TypeError "prompt is not a string")
  end.

Definition question_prompt (user_input : string) : string :=
  "Generate 4 questions. Original query: " +:+ user_input.
Definition synthesis_prompt (agent_responses : string) : string :=
  "AGENT RESPONSES: " +:+ agent_responses.
Definition validation_prompt_1 (original_query draft_answer : string) : string :=
  "Accuracy Checker. QUERY: " +:+ original_query +:+ " DRAFT: " +:+ draft_answer.
Definition validation_prompt_2 (original_query draft_answer : string) : string :=
  "Quality Reviewer. QUERY: " +:+ original_query +:+ " DRAFT: " +:+ draft_answer.
Definition final_synthesis_prompt (q d v1 v2 : string) : string :=
  "QUERY: " +:+ q +:+ " DRAFT: " +:+ d +:+ " V1: " +:+ v1 +:+ " V2: " +:+ v2.

(** Every agent completes on its first turn; the question generator answers
    with the four questions. *)
Definition all_complete (key : string) : OpenRouterAgent.LLM :=
  if String.eqb key "question_gen" then completes four_questions_text
  else completes ("answer of " +:+ key).

(** The provider is down for the question generator. *)
Definition question_gen_down (key : string) : OpenRouterAgent.LLM :=
  if String.eqb key "question_gen" then down else all_complete key.

(** The question generator answers in prose. *)
Definition question_gen_prose (key : string) : OpenRouterAgent.LLM :=
  if String.eqb key "question_gen" then completes "Here are four questions."
  else all_complete key.

(** The question generator answers with a bare number. *)
Definition question_gen_number (key : string) : OpenRouterAgent.LLM :=
  if String.eqb key "question_gen" then completes "42" else all_complete key.

Definition in_time : MegamindOrchestrator.Pool :=
  {| MegamindOrchestrator.interleaving := [1; 0; 1; 1; 0]; MegamindOrchestrator.timeout_after := None |}.
Definition late : MegamindOrchestrator.Pool :=
  {| MegamindOrchestrator.interleaving := [0; 0; 0; 0]; MegamindOrchestrator.timeout_after := Some 3 |}.

Section Pipeline.
Variable behaviour : string → OpenRouterAgent.LLM.

Definition generate_questions :=
  MegamindOrchestrator.generate_questions openrouter_agent (agent_run behaviour)
    json_loads strip str_list question_prompt.
Definition run_parallel_agents :=
  MegamindOrchestrator.run_parallel_agents openrouter_agent (agent_run behaviour).
Definition run_validation :=
  MegamindOrchestrator.run_validation openrouter_agent (agent_run behaviour)
    validation_prompt_1 validation_prompt_2.
Definition orchestrate :=
  MegamindOrchestrator.orchestrate openrouter_agent (agent_run behaviour)
    json_loads strip str_list question_prompt synthesis_prompt
    validation_prompt_1 validation_prompt_2 final_synthesis_prompt.
End Pipeline.

End Sample.

(** * Properties of the agent loops *)

Section OpenRouterLoop.

Variable json_loads : string → res JSON.
Variable json_dumps : JSON → string.
Variable not_a_mapping : JSON → string.
Variable llm : OpenRouterAgent.LLM.

Abbreviation handle_tool_call :=
  (OpenRouterAgent.handle_tool_call json_loads json_dumps not_a_mapping).
Abbreviation handle_calls :=
  (OpenRouterAgent.handle_calls json_loads json_dumps not_a_mapping).
Abbreviation loop := (OpenRouterAgent.loop json_loads json_dumps not_a_mapping llm).
Abbreviation run_state :=
  (OpenRouterAgent.run_state json_loads json_dumps not_a_mapping llm).

Lemma openrouter_removed_from_mapping t a :
  tool_mapping (OpenRouterAgent.remove_tool t a) !! t = None.
Proof.
  simpl. apply map_lookup_filter_None. right. intros f _ Hne. by apply Hne.
Qed.

Lemma openrouter_removed_from_tools t a :
  Forall (λ s, schema_name s ≠ Some t) (tools (OpenRouterAgent.remove_tool t a)).
Proof.
  simpl. apply Forall_forall. intros s Hs.
  by apply list_elem_of_filter in Hs as [Hs _].
Qed.

(** Only functions held by the mapping are ever executed. *)
Lemma handle_tool_call_executes a tc :
  Forall (λ inv : Invocation, is_Some (tool_mapping a !! inv.1))
         (handle_tool_call a tc).1.
Proof.
  unfold OpenRouterAgent.handle_tool_call.
  destruct (json_loads _) as [args|e]; simpl; [|constructor].
  destruct (tool_mapping a !! _) as [f|] eqn:Hf; simpl; [|constructor].
  destruct args; simpl; try constructor; eauto.
Qed.

Lemma handle_calls_executes a calls : ∀ st,
  Forall (λ inv : Invocation, is_Some (tool_mapping a !! inv.1))
         (OpenRouterAgent.invoked st) →
  Forall (λ inv : Invocation, is_Some (tool_mapping a !! inv.1))
         (OpenRouterAgent.invoked (handle_calls a calls st).1).
Proof.
  induction calls as [|tc rest IH]; intros st Hst; simpl; [done|].
  pose proof (handle_tool_call_executes a tc) as Htc.
  destruct (handle_tool_call a tc) as [inv msg]; simpl in *.
  destruct (String.eqb _ _); simpl.
  - apply Forall_app; auto.
  - apply IH. simpl. apply Forall_app; auto.
Qed.

Lemma loop_executes a left : ∀ st,
  Forall (λ inv : Invocation, is_Some (tool_mapping a !! inv.1))
         (OpenRouterAgent.invoked st) →
  Forall (λ inv : Invocation, is_Some (tool_mapping a !! inv.1))
         (OpenRouterAgent.invoked (loop a left st).1).
Proof.
  induction left as [|left IH]; intros st Hst; simpl; [done|].
  destruct (OpenRouterAgent.call_llm _ _ _) as [[[content calls]|]|e]; simpl; try done.
  match goal with |- context [handle_calls a calls ?s] =>
    pose proof (handle_calls_executes a calls s Hst) as Hc;
    destruct (handle_calls a calls s) as [st3 done_] end.
  simpl in Hc. destruct done_; simpl; auto.
Qed.

Lemma handle_tool_call_message a tc :
  ∃ payload, (handle_tool_call a tc).2 = OpenRouterAgent.tool_message json_dumps tc payload.
Proof.
  unfold OpenRouterAgent.handle_tool_call, OpenRouterAgent.failed.
  destruct (json_loads _) as [args|e]; simpl; [|eauto].
  destruct (tool_mapping a !! _) as [f|]; simpl; [|eauto].
  destruct args; simpl; eauto. destruct (f fields); eauto.
Qed.







(** The batch loop stops at the completion tool: the calls queued after it
    play no part in the outcome. *)
Lemma handle_calls_stops_at_sentinel a pre tc post : ∀ st,
  OpenRouterAgent.call_name tc = sentinel →
  handle_calls a (pre ++ tc :: post) st = handle_calls a (pre ++ [tc]) st
  ∧ (handle_calls a (pre ++ [tc]) st).2 = true.
Proof.
  intros st Htc. revert st. induction pre as [|c pre IH]; intros st; simpl.
  - destruct (handle_tool_call a tc) as [inv msg]. by rewrite Htc.
  - destruct (handle_tool_call a c) as [inv msg].
    destruct (String.eqb _ _); [done|]. apply IH.
Qed.

End OpenRouterLoop.

Section GeminiLoop.

Variable b64decode : string → res string.
Variable llm : GeminiAgent.LLM.

Abbreviation g_loop := (GeminiAgent.loop llm).
Abbreviation g_run_state := (GeminiAgent.run_state b64decode llm).









End GeminiLoop.

(** ** Tool removal (C9) *)

(** C9, as amended.  After [remove_tool(t)] on an OpenRouter agent, no schema
    offered to the provider is named [t], the name-to-function mapping has no
    entry for [t], no run of that agent executes a function under the name
    [t], whatever the provider requests, and a requested call of [t] executes
    nothing: it is answered by the unknown-tool error payload when its
    arguments parse as JSON, and by the tool-execution-failed payload carrying
    the parse error when they do not. *)
Theorem removed_tool_is_never_executed
    (json_loads : string → res JSON) (json_dumps : JSON → string)
    (not_a_mapping : JSON → string) (llm : OpenRouterAgent.LLM)
    (t : string) (a : Agent) (user_input : string) (images : option (list Image))
    (id arguments : string) :
  let a' := OpenRouterAgent.remove_tool t a in
  let tc := OpenRouterAgent.mk_call id t arguments in
  Forall (λ s, schema_name s ≠ Some t) (tools a')
  ∧ tool_mapping a' !! t = None
  ∧ Forall (λ inv : Invocation, inv.1 ≠ t)
      (OpenRouterAgent.invoked
         (OpenRouterAgent.run_state json_loads json_dumps not_a_mapping llm
            a' user_input images).1)
  ∧ OpenRouterAgent.handle_tool_call json_loads json_dumps not_a_mapping a' tc
    = ([], match json_loads arguments with
           | Ret _ =>
               OpenRouterAgent.tool_message json_dumps tc
                 (OpenRouterAgent.error_payload ("Unknown tool: " +:+ t))
           | Raise e => OpenRouterAgent.failed json_dumps tc e
           end).
Proof.
  intros a' tc.
  pose proof (openrouter_removed_from_mapping t a) as Hnone.
  change (tool_mapping a' !! t = None) in Hnone.
  split; [apply openrouter_removed_from_tools|]. split; [done|]. split.
  - eapply Forall_impl.
    + apply loop_executes. constructor.
    + intros inv Hsome Heq. cbv beta in Hsome. rewrite Heq in Hsome.
      rewrite Hnone in Hsome. by destruct Hsome.
  - unfold OpenRouterAgent.handle_tool_call. cbv zeta.
    change (OpenRouterAgent.call_arguments tc) with arguments.
    change (OpenRouterAgent.call_name tc) with t.
    destruct (json_loads arguments); [|done]. by rewrite Hnone.
Qed.

(** C9 as stated fails on the payload: a call of the removed tool whose
    arguments are no JSON is answered by the tool-execution-failed payload,
    not by the unknown-tool payload. *)
Lemma removed_tool_call_with_bad_arguments :
  let a' := OpenRouterAgent.remove_tool "read_file" Sample.openrouter_agent in
  let tc := OpenRouterAgent.mk_call "call_1" "read_file" "not json" in
  (OpenRouterAgent.handle_tool_call Sample.json_loads Sample.json_dumps
     Sample.not_a_mapping a' tc).2
  ≠ OpenRouterAgent.tool_message Sample.json_dumps tc
      (OpenRouterAgent.error_payload "Unknown tool: read_file").
Proof. vm_compute. discriminate. Qed.

(** ** The completion tool (C5) *)

(** C5 at the failing input: a Gemini reply that requests the completion
    tool and then [search].  The run returns the transcript, but only after
    it has executed [search] as well. *)
Theorem gemini_executes_calls_after_completion :
  ∃ st,
    GeminiAgent.run_state Sample.b64decode Sample.completes_then_searches
      Sample.gemini_agent "hi" None = (Ret st, Ret "done")
    ∧ GeminiAgent.invoked st
      = [("mark_task_complete", []); ("search", [("query", JStr "x")])].
Proof. eexists. split; vm_compute; reflexivity. Qed.

(** The OpenRouter loop does stop there: with the completion tool in a batch,
    the turn returns the joined transcript and the state is the one reached
    by the calls up to and including the completion tool. *)
Lemma openrouter_returns_at_completion
    (json_loads : string → res JSON) (json_dumps : JSON → string)
    (not_a_mapping : JSON → string) (llm : OpenRouterAgent.LLM)
    (a : Agent) (pre post : list OpenRouterAgent.ToolCall)
    (id arguments : string) (st : OpenRouterAgent.RunState) :
  let tc := OpenRouterAgent.mk_call id sentinel arguments in
  OpenRouterAgent.handle_calls json_loads json_dumps not_a_mapping a
    (pre ++ tc :: post) st
  = ((OpenRouterAgent.handle_calls json_loads json_dumps not_a_mapping a
        (pre ++ [tc]) st).1, true).
Proof.
  intros tc.
  destruct (handle_calls_stops_at_sentinel json_loads json_dumps not_a_mapping
              a pre tc post st eq_refl) as [-> H].
  destruct (OpenRouterAgent.handle_calls _ _ _ _ _ _) as [st' b]. simpl in *.
  by subst.
Qed.

(** ** Termination and return value of a run (C6) *)


(** An OpenRouter provider that never writes text and never calls a tool is
    asked [max_iterations] times, and the run returns the indicator. *)
Lemma openrouter_exhausts_at_the_cap :
  let out := OpenRouterAgent.run_state Sample.json_loads Sample.json_dumps
               Sample.not_a_mapping Sample.silent Sample.openrouter_agent "hi" None in
  OpenRouterAgent.llm_calls out.1 = 10
  ∧ out.2 = Ret "Maximum iterations reached. The agent may be stuck in a loop.".
Proof. split; vm_compute; reflexivity. Qed.


(** * Properties of the orchestration pipeline *)

Import MegamindOrchestrator.

(** ** Interleavings *)

Section Interleave.

Context {A : Type}.
Implicit Types (threads : list (list A)) (sched : list nat).

Lemma concat_step_perm threads : ∀ i x rest,
  threads !! i = Some (x :: rest) →
  concat threads ≡ₚ x :: concat (<[i := rest]> threads).
Proof.
  induction threads as [|t threads IH]; intros i x rest H; [done|].
  destruct i as [|i]; simpl in *.
  - by injection H as ->.
  - rewrite (IH _ _ _ H). by rewrite Permutation_middle.
Qed.

(** An interleaving runs every step of every thread, once. *)
Lemma interleave_perm sched : ∀ threads,
  interleave sched threads ≡ₚ concat threads.
Proof.
  induction sched as [|i sched IH]; intros threads; simpl; [done|].
  destruct (threads !! i) as [[|x rest]|] eqn:H; try apply IH.
  rewrite IH. symmetry. by apply concat_step_perm.
Qed.

Lemma interleave_Forall (P : A → Prop) sched threads :
  Forall (Forall P) threads → Forall P (interleave sched threads).
Proof.
  intros H. rewrite interleave_perm. by apply Forall_concat.
Qed.

Lemma interleave_omap {B} (f : A → option B) sched threads :
  omap f (interleave sched threads) ≡ₚ omap f (concat threads).
Proof. by rewrite interleave_perm. Qed.

End Interleave.

(** ** Question generation (C3, C4) *)

Section QuestionGeneration.

Variable create_agent : Agent.
Variable agent_run : string → Agent → JSON → option (list Image) → res string.
Variable json_loads : string → res JSON.
Variable strip : string → string.
Variable str_list : list string → string.
Variable question_prompt : string → string.

(** The run of the question agent: the completion tool removed, the
    formatted prompt, no images. *)
Abbreviation asked user_input :=
  (agent_run "question_gen" (remove_tool "mark_task_complete" create_agent)
     (JStr (question_prompt user_input)) None).




End QuestionGeneration.


(** The fallback at the query "What is 2+2?", for a response in prose. *)
Lemma generate_questions_falls_back_on_prose :
  (Sample.generate_questions Sample.question_gen_prose "What is 2+2?").2
  = Ret (JArr [JStr "Research comprehensive information about: What is 2+2?";
               JStr "Analyze and provide insights about: What is 2+2?";
               JStr "Find alternative perspectives on: What is 2+2?";
               JStr "Verify and cross-check facts about: What is 2+2?"]).
Proof. vm_compute. reflexivity. Qed.


(** A response that parses to a value without a length (here the number 42)
    is not recovered either: the [TypeError] of [len] is not among the caught
    exceptions. *)
Lemma generate_questions_raises_on_a_number :
  (Sample.generate_questions Sample.question_gen_number "What is 2+2?").2
  = Raise (mk_exn TypeError "object of type 'int' has no len()").
Proof. vm_compute. reflexivity. Qed.

(** ** Merging the research results (C7) *)

Lemma append_assoc (s1 s2 s3 : string) : (s1 +:+ s2) +:+ s3 = s1 +:+ (s2 +:+ s3).
Proof.
  induction s1 as [|c s1 IH]; [done|].
  change (String c ((s1 +:+ s2) +:+ s3) = String c (s1 +:+ (s2 +:+ s3))).
  by rewrite IH.
Qed.

Lemma append_empty_r (s : string) : s +:+ "" = s.
Proof.
  induction s as [|c s IH]; [done|].
  change (String c (s +:+ "") = String c s). by rewrite IH.
Qed.

Lemma labelled_header (result : AgentResult) :
  labelled result
  = "=== " +:+ header_of (agent_id result) +:+ " AGENT ===" +:+ nl
      +:+ response result +:+ nl +:+ nl.
Proof.
  unfold labelled, header_of. destruct result as [id st resp t]; simpl.
  destruct (String.eqb_spec id "analysis") as [->|H1]; [done|].
  destruct (String.eqb_spec id "alternatives") as [->|H2]; [done|].
  destruct (String.eqb_spec id "verification") as [->|H3]; [done|].
  destruct (decide (id = "research")) as [->|H0]; [done|].
  rewrite bool_decide_eq_false_2; [done|].
  unfold agent_names. rewrite !elem_of_cons, elem_of_nil. tauto.
Qed.

Lemma merge_from (results : list AgentResult) : ∀ text,
  foldl (λ text result, text +:+ labelled result) text results
  = text +:+ foldr (λ result rest, labelled result +:+ rest) "" results.
Proof.
  induction results as [|r results IH]; intros text; cbn [foldl foldr].
  - by rewrite append_empty_r.
  - rewrite IH. apply append_assoc.
Qed.

(** C7, as amended.  The merged block lists the labelled sections in the
    order of the result list it is given, which is the completion order of
    the parallel tasks: it is the concatenation, in list order, of one
    section per result, and the block of two lists put end to end is the two
    blocks put end to end.  Each section is headed by the canonical name of
    its agent in upper case ([RESEARCH] for an unknown identifier). *)
Theorem merged_block_follows_the_result_list (results more : list AgentResult) :
  agent_responses_text results
  = foldr (λ result rest, labelled result +:+ rest) "" results
  ∧ agent_responses_text (results ++ more)
    = agent_responses_text results +:+ agent_responses_text more
  ∧ Forall (λ result,
              labelled result
              = "=== " +:+ header_of (agent_id result) +:+ " AGENT ===" +:+ nl
                  +:+ response result +:+ nl +:+ nl) results.
Proof.
  unfold agent_responses_text. split; [|split].
  - by rewrite merge_from.
  - rewrite foldl_app, !merge_from. reflexivity.
  - apply Forall_forall. intros r _. apply labelled_header.
Qed.

(** C7 as stated fails: with the analysis agent finishing before the
    research agent, the block starts with the analysis section, and it
    differs from the block of the same results in canonical order. *)
Lemma merged_block_is_in_completion_order :
  let research := mk_result "research" "success" "R" Measured in
  let analysis := mk_result "analysis" "success" "A" Measured in
  agent_responses_text [analysis; research]
  = "=== ANALYSIS AGENT ===" +:+ nl +:+ "A" +:+ nl +:+ nl
    +:+ "=== RESEARCH AGENT ===" +:+ nl +:+ "R" +:+ nl +:+ nl
  ∧ agent_responses_text [analysis; research]
    ≠ agent_responses_text [research; analysis].
Proof. split; [vm_compute; reflexivity | vm_compute; discriminate]. Qed.

(** ** The worker pool *)

Lemma omap_concat {A B} (f : A → option B) (ls : list (list A)) :
  omap f (concat ls) = concat ((λ l : list A, omap f l) <$> ls).
Proof.
  induction ls as [|l ls IH]; simpl; [done|]. by rewrite omap_app, IH.
Qed.

Lemma right_of_steps i (t : Task) : omap right_of (steps i t) = [(i, t.2)].
Proof.
  unfold steps. rewrite omap_app. simpl.
  destruct t as [evs r]; simpl. by induction evs.
Qed.

Lemma left_of_steps i (t : Task) : omap left_of (steps i t) = t.1.
Proof.
  unfold steps. rewrite omap_app. simpl. rewrite app_nil_r.
  destruct t as [evs r]; simpl. induction evs as [|e evs IH]; [done|].
  cbn. f_equal. exact IH.
Qed.

Lemma completed_of_tasks (tasks : list Task) : ∀ g : nat → nat,
  omap right_of (concat (imap (λ i, steps (g i)) tasks))
  = imap (λ i t, (g i, t.2)) tasks.
Proof.
  induction tasks as [|t tasks IH]; intros g; simpl; [done|].
  rewrite omap_app, right_of_steps. simpl. f_equal. apply (IH (g ∘ S)).
Qed.

Lemma events_of_tasks (tasks : list Task) : ∀ g : nat → nat,
  omap left_of (concat (imap (λ i, steps (g i)) tasks)) = concat (fst <$> tasks).
Proof.
  induction tasks as [|t tasks IH]; intros g; simpl; [done|].
  rewrite omap_app, left_of_steps. f_equal. apply (IH (g ∘ S)).
Qed.

(** Without a timeout every future comes back, each once. *)
Lemma run_pool_completed pool (tasks : list Task) :
  times_out pool (length tasks) = false →
  (run_pool pool tasks).2 ≡ₚ imap (λ i t, (i, t.2)) tasks.
Proof.
  intros H. unfold run_pool. simpl. rewrite H, interleave_omap.
  by rewrite (completed_of_tasks tasks id
              : omap right_of (concat (imap steps tasks)) = imap (λ i t, (i, t.2)) tasks).
Qed.

(** The events of the pool are those of its tasks, in some order. *)
Lemma run_pool_events pool (tasks : list Task) :
  (run_pool pool tasks).1 ≡ₚ concat (fst <$> tasks).
Proof.
  unfold run_pool. simpl. rewrite interleave_omap.
  by rewrite (events_of_tasks tasks id
              : omap left_of (concat (imap steps tasks)) = concat (fst <$> tasks)).
Qed.

(** ** Fan-out stages (C1, C2) *)

Lemma lookup_filter_ne {V} (m : gmap string V) (n k : string) :
  filter (λ nf : string * V, nf.1 ≠ n) m !! k = if decide (k = n) then None else m !! k.
Proof.
  destruct (decide (k = n)) as [->|Hne].
  - apply map_lookup_filter_None. right. intros x _ H. by apply H.
  - destruct (m !! k) as [x|] eqn:E.
    + by apply map_lookup_filter_Some.
    + apply map_lookup_filter_None. by left.
Qed.

Lemma remove_tool_mapping t a :
  tool_mapping (remove_tool t a) = filter (λ nf, nf.1 ≠ t) (tool_mapping a).
Proof. unfold remove_tool. by destruct (agent_provider a). Qed.

Lemma fold_remove_lookup (P : string → Prop) `{∀ n, Decision (P n)} names : ∀ a k,
  tool_mapping
    (foldl (λ agent n, if bool_decide (P n) then remove_tool n agent else agent) a names)
    !! k
  = if bool_decide (k ∈ names ∧ P k) then None else tool_mapping a !! k.
Proof.
  induction names as [|n names IH]; intros a k; cbn [foldl].
  - case_bool_decide as Hk; [|done]. destruct Hk as [Hk _].
    by apply elem_of_nil in Hk.
  - rewrite IH.
    repeat case_bool_decide;
      rewrite ?remove_tool_mapping, ?lookup_filter_ne;
      repeat case_decide; subst; try done;
      exfalso; rewrite ?elem_of_cons in *; intuition congruence.
Qed.

(** The [remove_tools] loop leaves exactly the search and calculator
    entries of the mapping. *)
Lemma keep_search_calculator_mapping a :
  tool_mapping (keep_search_calculator a)
  = filter (λ nf, nf.1 = "search" ∨ nf.1 = "calculator") (tool_mapping a).
Proof.
  apply map_eq. intros k. unfold keep_search_calculator.
  rewrite (fold_remove_lookup (λ n, n ≠ "search" ∧ n ≠ "calculator")).
  destruct (tool_mapping a !! k) as [f|] eqn:E.
  - case_bool_decide as Hk; symmetry.
    + apply map_lookup_filter_None. right. intros f' _. simpl. tauto.
    + apply map_lookup_filter_Some. split; [done|]. simpl.
      destruct (decide (k = "search")); [tauto|].
      destruct (decide (k = "calculator")); [tauto|].
      exfalso. apply Hk. split; [|done]. unfold tool_names.
      apply list_elem_of_fmap. exists (k, f). split; [done|].
      by apply elem_of_map_to_list.
  - symmetry. case_bool_decide; apply map_lookup_filter_None; by left.
Qed.

Section FanOut.

Variable create_agent : Agent.
Variable agent_run : string → Agent → JSON → option (list Image) → res string.
Variable validation_prompt_1 validation_prompt_2 : string → string → string.


Lemma agents_run_app (l1 l2 : list event) :
  agents_run (l1 ++ l2) = agents_run l1 ++ agents_run l2.
Proof. apply omap_app. Qed.

Lemma _run_agent_agent id prompt remove_tools :
  agents_run (_run_agent create_agent agent_run id prompt remove_tools).1
  = [if remove_tools then keep_search_calculator create_agent else create_agent].
Proof. unfold _run_agent. by destruct (agent_run _ _ _ _). Qed.


Lemma agents_of_tasks remove_tools (futures : list (string * JSON)) :
  agents_run (concat (fst <$> ((λ nq, _run_agent create_agent agent_run nq.1 nq.2
                                        remove_tools) <$> futures)))
  = replicate (length futures)
      (if remove_tools then keep_search_calculator create_agent else create_agent).
Proof.
  induction futures as [|[name q] futures IH]; [done|].
  cbn [fmap list_fmap concat length replicate].
  change (agents_run ((_run_agent create_agent agent_run name q remove_tools).1
                      ++ concat (fst <$> ((λ nq, _run_agent create_agent agent_run
                                                   nq.1 nq.2 remove_tools) <$> futures)))
          = (if remove_tools then keep_search_calculator create_agent else create_agent)
            :: replicate (length futures)
                 (if remove_tools then keep_search_calculator create_agent
                  else create_agent)).
  by rewrite agents_run_app, IH, _run_agent_agent.
Qed.

Lemma run_parallel_agents_unfold questions images pool :
  let futures := zip agent_names (py_iter questions) in
  let tasks := (λ nq, _run_agent create_agent agent_run nq.1 nq.2 false) <$> futures in
  run_parallel_agents create_agent agent_run questions images pool
  = (StageUpdate "parallel_research" IN_PROGRESS
       :: ((λ name, AgentUpdate name QUEUED None) <$> agent_names)
       ++ (run_pool pool tasks).1
       ++ (if times_out pool (length tasks) then []
           else [StageUpdate "parallel_research" COMPLETED]),
     if times_out pool (length tasks) then Raise (unfinished pool (length tasks))
     else Ret (collect "Agent failed: " (λ i, default "" (futures.*1 !! i))
                 <$> (run_pool pool tasks).2)).
Proof.
  intros futures tasks. unfold run_parallel_agents. fold futures. fold tasks.
  destruct (run_pool pool tasks) as [evs completed]. simpl.
  destruct (times_out pool (length tasks)); simpl;
    rewrite <- ?app_assoc, ?app_nil_r; done.
Qed.

Lemma run_validation_unfold original_query draft_answer pool :
  let futures := [("validator_1", JStr (validation_prompt_1 original_query draft_answer));
                  ("validator_2", JStr (validation_prompt_2 original_query draft_answer))] in
  let tasks := (λ nq, _run_agent create_agent agent_run nq.1 nq.2 true) <$> futures in
  run_validation create_agent agent_run validation_prompt_1 validation_prompt_2
    original_query draft_answer pool
  = (StageUpdate "validation" IN_PROGRESS
       :: [AgentUpdate "validator_1" QUEUED None; AgentUpdate "validator_2" QUEUED None]
       ++ (run_pool pool tasks).1
       ++ (if times_out pool 2 then [] else [StageUpdate "validation" COMPLETED]),
     if times_out pool 2 then Raise (unfinished pool 2)
     else Ret (collect "Validation failed: " (λ _, "validator") <$> (run_pool pool tasks).2)).
Proof.
  intros futures tasks. unfold run_validation.
  change [_run_agent create_agent agent_run "validator_1" _ true;
          _run_agent create_agent agent_run "validator_2" _ true] with tasks.
  destruct (run_pool pool tasks) as [evs completed]. simpl.
  destruct (times_out pool 2); simpl; rewrite <- ?app_assoc, ?app_nil_r; done.
Qed.

Lemma py_iter_length questions n : py_len questions = Some n → length (py_iter questions) = n.
Proof.
  destruct questions; simpl; intros H; try done; injection H as <-.
  - induction s as [|c s IH]; simpl; [done|]. by rewrite IH.
  - done.
  - by rewrite length_fmap.
Qed.



Lemma agents_of_pool remove_tools pool (futures : list (string * JSON)) :
  agents_run (run_pool pool ((λ nq, _run_agent create_agent agent_run nq.1 nq.2
                                      remove_tools) <$> futures)).1
  = replicate (length futures)
      (if remove_tools then keep_search_calculator create_agent else create_agent).
Proof.
  symmetry. apply replicate_Permutation.
  rewrite <- agents_of_tasks. unfold agents_run.
  by rewrite run_pool_events.
Qed.

(** C2, as amended.  The four research agents are run as [create_agent]
    builds them: [run_parallel_agents] passes [remove_tools=False], so no
    tool is removed and each keeps every discovered tool.  The restriction to
    the search and calculator tools is what [_run_agent] does for the two
    validation agents, which are started with [remove_tools=True]. *)
Theorem research_agents_keep_every_tool
    (questions : JSON) (images : option (list Image)) (research validation : Pool)
    (original_query draft_answer : string) :
  py_len questions = Some 4 →
  agents_run (run_parallel_agents create_agent agent_run questions images research).1
  = replicate 4 create_agent
  ∧ agents_run (run_validation create_agent agent_run validation_prompt_1
                  validation_prompt_2 original_query draft_answer validation).1
    = replicate 2 (keep_search_calculator create_agent)
  ∧ tool_mapping (keep_search_calculator create_agent)
    = filter (λ nf, nf.1 = "search" ∨ nf.1 = "calculator") (tool_mapping create_agent).
Proof.
  intros Hlen. apply py_iter_length in Hlen.
  split; [|split; [|apply keep_search_calculator_mapping]].
  - pose proof (run_parallel_agents_unfold questions images research) as Hu.
    cbv zeta in Hu. rewrite Hu. cbn [fst].
    change (?x :: ?l ++ ?r) with ((x :: l) ++ r).
    rewrite !agents_run_app, agents_of_pool, length_zip, Hlen.
    by destruct (times_out research _).
  - pose proof (run_validation_unfold original_query draft_answer validation) as Hu.
    cbv zeta in Hu. rewrite Hu. cbn [fst].
    change (?x :: ?l ++ ?r) with ((x :: l) ++ r).
    rewrite !agents_run_app, agents_of_pool.
    by destruct (times_out validation _).
Qed.

End FanOut.



(** The theorem of C2 at four questions. *)
Lemma research_agents_keep_every_tool_witness :
  py_len Sample.four_questions = Some 4
  ∧ agents_run (Sample.run_parallel_agents Sample.all_complete Sample.four_questions
                  None Sample.in_time).1
    = replicate 4 Sample.openrouter_agent.
Proof.
  split; [reflexivity|].
  exact (proj1 (research_agents_keep_every_tool
                  Sample.openrouter_agent (Sample.agent_run Sample.all_complete)
                  Sample.validation_prompt_1 Sample.validation_prompt_2
                  Sample.four_questions None Sample.in_time Sample.in_time
                  "What is 2+2?" "4" eq_refl)).
Defined.

(** C2 as stated fails: the research agents are not restricted to search and
    calculator; every agent run of the research stage still maps [read_file]
    and the completion tool. *)
Lemma research_agents_are_not_restricted :
  tool_names <$> agents_run (Sample.run_parallel_agents Sample.all_complete
                               Sample.four_questions None Sample.in_time).1
  = replicate 4 ["search"; "calculator"; "mark_task_complete"; "read_file"].
Proof. vm_compute. reflexivity. Qed.

(** ** Monotonic progress (C8) *)

Lemma cross_spec l1 l2 :
  cross l1 l2 = true ↔ ∀ e e', e ∈ l1 → e' ∈ l2 → forward e e' = true.
Proof.
  unfold cross. rewrite forallb_forall. split.
  - intros H e e' He He'. apply list_elem_of_In in He, He'.
    specialize (H e He). rewrite forallb_forall in H. by apply H.
  - intros H e He. apply forallb_forall. intros e' He'.
    apply H; by apply list_elem_of_In.
Qed.

Lemma monotonic_cons e l :
  monotonic (e :: l) = true ↔ cross [e] l = true ∧ monotonic l = true.
Proof. simpl. rewrite andb_true_r. apply andb_true_iff. Qed.

Lemma cross_cons_l e l1 l2 :
  cross (e :: l1) l2 = true ↔ cross [e] l2 = true ∧ cross l1 l2 = true.
Proof. simpl. rewrite andb_true_r. apply andb_true_iff. Qed.

Lemma cross_app_r l l1 l2 :
  cross l (l1 ++ l2) = true ↔ cross l l1 = true ∧ cross l l2 = true.
Proof.
  rewrite !cross_spec. setoid_rewrite elem_of_app. split.
  - intros H. split; intros e e' He He'; apply H; auto.
  - intros [H1 H2] e e' He [He'|He']; auto.
Qed.

Lemma monotonic_app l1 l2 :
  monotonic (l1 ++ l2) = true
  ↔ monotonic l1 = true ∧ monotonic l2 = true ∧ cross l1 l2 = true.
Proof.
  induction l1 as [|e l1 IH].
  - simpl. tauto.
  - change ((e :: l1) ++ l2) with (e :: (l1 ++ l2)).
    rewrite !monotonic_cons, IH, cross_app_r, (cross_cons_l e l1 l2). tauto.
Qed.

Lemma cross_perm_r l l1 l2 : l1 ≡ₚ l2 → cross l l1 = cross l l2.
Proof.
  intros Hp. apply eq_true_iff_eq. rewrite !cross_spec.
  by setoid_rewrite Hp.
Qed.

Lemma cross_perm_l l l1 l2 : l1 ≡ₚ l2 → cross l1 l = cross l2 l.
Proof.
  intros Hp. apply eq_true_iff_eq. rewrite !cross_spec.
  by setoid_rewrite Hp.
Qed.

Lemma apart_spec threads :
  apart threads = true →
  ∀ i j t t', i ≠ j → threads !! i = Some t → threads !! j = Some t' →
              cross t t' = true.
Proof.
  induction threads as [|t0 threads IH]; intros H i j t t' Hij Hi Hj; [done|].
  simpl in H. apply andb_true_iff in H as [H0 H].
  rewrite forallb_forall in H0.
  destruct i as [|i], j as [|j]; simpl in *; try done.
  - injection Hi as <-. apply list_elem_of_lookup_2, list_elem_of_In in Hj.
    apply H0 in Hj. by apply andb_true_iff in Hj as [? ?].
  - injection Hj as <-. apply list_elem_of_lookup_2, list_elem_of_In in Hi.
    apply H0 in Hi. by apply andb_true_iff in Hi as [? ?].
  - eapply (IH H i j); eauto.
Qed.

Lemma elem_of_concat {A} (ls : list (list A)) x :
  x ∈ concat ls → ∃ l, x ∈ l ∧ l ∈ ls.
Proof.
  rewrite list_elem_of_In, in_concat. intros (l & Hl & Hx).
  exists l. by rewrite !list_elem_of_In.
Qed.

Lemma elem_of_interleave {A} sched (threads : list (list A)) x :
  x ∈ interleave sched threads → ∃ i t, threads !! i = Some t ∧ x ∈ t.
Proof.
  rewrite interleave_perm. intros (t & Hx & Ht)%elem_of_concat.
  apply list_elem_of_lookup in Ht as [i Hi]. eauto.
Qed.

(** Threads that are monotonic and apart stay monotonic however they are
    interleaved. *)
Lemma monotonic_interleave sched : ∀ threads,
  (∀ i t, threads !! i = Some t → monotonic t = true) →
  (∀ i j t t', i ≠ j → threads !! i = Some t → threads !! j = Some t' →
               cross t t' = true) →
  monotonic (interleave sched threads) = true.
Proof.
  induction sched as [|i sched IH]; intros threads Hmono Hcross.
  - simpl. induction threads as [|t threads IHt]; [done|]. simpl.
    apply monotonic_app. split; [apply (Hmono 0 t eq_refl)|]. split.
    + apply IHt.
      * intros i t' Hi. apply (Hmono (S i) t' Hi).
      * intros i j t1 t2 Hij Hi Hj. apply (Hcross (S i) (S j) t1 t2); auto.
    + apply cross_spec. intros e e' He (t' & He' & Ht')%elem_of_concat.
      apply list_elem_of_lookup in Ht' as [j Hj].
      pose proof (Hcross 0 (S j) t t' ltac:(lia) eq_refl Hj) as Hc.
      rewrite cross_spec in Hc. by apply Hc.
  - simpl. destruct (threads !! i) as [[|x rest]|] eqn:Hi; try by apply IH.
    apply monotonic_cons. split.
    + apply cross_spec. intros e e' ->%list_elem_of_singleton He'.
      apply elem_of_interleave in He' as (j & t' & Hj & He').
      destruct (decide (j = i)) as [->|Hne].
      * rewrite list_lookup_insert_eq in Hj by (by eapply lookup_lt_Some).
        injection Hj as <-. specialize (Hmono i _ Hi).
        apply monotonic_cons in Hmono as [Hc _]. rewrite cross_spec in Hc.
        apply Hc; [by apply list_elem_of_singleton | done].
      * rewrite list_lookup_insert_ne in Hj by done.
        pose proof (Hcross i j _ t' ltac:(done) Hi Hj) as Hc.
        rewrite cross_spec in Hc. apply Hc; [by left | done].
    + apply IH.
      * intros j t' Hj. destruct (decide (j = i)) as [->|Hne].
        -- rewrite list_lookup_insert_eq in Hj by (by eapply lookup_lt_Some).
           injection Hj as <-. specialize (Hmono i _ Hi).
           by apply monotonic_cons in Hmono as [_ ?].
        -- rewrite list_lookup_insert_ne in Hj by done. by eapply Hmono.
      * assert (∀ j t', <[i:=rest]> threads !! j = Some t' →
                  ∃ t'', threads !! j = Some t'' ∧ ∀ e, e ∈ t' → e ∈ t'') as Hsub.
        { intros j t' Hj. destruct (decide (j = i)) as [->|Hne].
          - rewrite list_lookup_insert_eq in Hj by (by eapply lookup_lt_Some).
            injection Hj as <-. exists (x :: rest). split; [done|].
            intros e He. by right.
          - rewrite list_lookup_insert_ne in Hj by done. eauto. }
        intros j k t1 t2 Hjk Hj Hk.
        apply Hsub in Hj as (t1' & Hj & H1). apply Hsub in Hk as (t2' & Hk & H2).
        pose proof (Hcross j k t1' t2' Hjk Hj Hk) as Hc.
        rewrite cross_spec in Hc. apply cross_spec. auto.
Qed.

Lemma omap_interleave {A B} (f : A → option B) sched : ∀ threads : list (list A),
  ∃ sched',
    omap f (interleave sched threads)
    = interleave sched' ((λ t : list A, omap f t) <$> threads).
Proof.
  induction sched as [|i sched IH]; intros threads.
  - exists []. apply omap_concat.
  - simpl. destruct (threads !! i) as [[|x rest]|] eqn:Hi; try apply IH.
    destruct (IH (<[i:=rest]> threads)) as [sched' Hs].
    rewrite list_fmap_insert in Hs. cbn [omap list_omap].
    destruct (f x) as [y|] eqn:Hfx.
    + exists (i :: sched'). cbn [interleave].
      rewrite list_lookup_fmap, Hi. cbn [fmap option_fmap option_map omap list_omap].
      rewrite Hfx. by rewrite <- Hs.
    + exists sched'. rewrite Hs. f_equal. apply list_insert_id.
      rewrite list_lookup_fmap, Hi. cbn [fmap option_fmap option_map omap list_omap].
      by rewrite Hfx.
Qed.

Lemma left_steps_of_tasks (tasks : list Task) : ∀ g : nat → nat,
  (λ t : list (event + nat * res AgentResult), omap left_of t)
    <$> imap (λ i, steps (g i)) tasks
  = (fst <$> tasks : list (list event)).
Proof.
  induction tasks as [|t tasks IH]; intros g; [done|].
  cbn [imap fmap list_fmap]. rewrite left_of_steps. f_equal. apply (IH (g ∘ S)).
Qed.

(** The events of a pool are an interleaving of the events of its tasks. *)
Lemma run_pool_interleaves pool (tasks : list Task) :
  ∃ sched, (run_pool pool tasks).1 = interleave sched (fst <$> tasks).
Proof.
  destruct (omap_interleave left_of (interleaving pool) (imap steps tasks))
    as [sched Hs].
  exists sched. unfold run_pool. cbn [fst]. rewrite Hs. f_equal.
  apply (left_steps_of_tasks tasks id).
Qed.

Lemma within_spec keys evs :
  within keys evs = true ↔ ∀ e k, e ∈ evs → key_of e = Some k → k ∈ keys.
Proof.
  unfold within. rewrite forallb_forall. split.
  - intros H e k He Hk. apply list_elem_of_In, H in He. rewrite Hk in He.
    by apply bool_decide_eq_true in He.
  - intros H e He. apply list_elem_of_In in He.
    destruct (key_of e) as [k|] eqn:Hk; [|done].
    apply bool_decide_eq_true. eauto.
Qed.

Lemma within_app keys l1 l2 :
  within keys (l1 ++ l2) = true ↔ within keys l1 = true ∧ within keys l2 = true.
Proof. unfold within. rewrite forallb_app. apply andb_true_iff. Qed.

Lemma within_weaken keys keys' evs :
  within keys evs = true → (∀ k, k ∈ keys → k ∈ keys') → within keys' evs = true.
Proof. rewrite !within_spec. eauto. Qed.

Lemma within_perm keys l1 l2 : l1 ≡ₚ l2 → within keys l1 = within keys l2.
Proof.
  intros Hp. apply eq_true_iff_eq. rewrite !within_spec. by setoid_rewrite Hp.
Qed.

Lemma forward_other_key e e' :
  (∀ k, key_of e = Some k → key_of e' = Some k → False) → forward e e' = true.
Proof.
  unfold forward, key_of.
  destruct (written e) as [[[d k] st]|]; [|done].
  destruct (written e') as [[[d' k'] st']|]; [|done].
  intros H. case_bool_decide as Hk; [|done]. destruct Hk as [-> ->].
  by destruct (H (d', k')).
Qed.

(** Logs that write disjoint sets of keys may follow each other. *)
Lemma within_cross keys1 keys2 l1 l2 :
  within keys1 l1 = true → within keys2 l2 = true →
  disjoint_keys keys1 keys2 = true → cross l1 l2 = true.
Proof.
  rewrite !within_spec, cross_spec. unfold disjoint_keys. rewrite forallb_forall.
  intros H1 H2 Hd e e' He He'. apply forward_other_key. intros k Hk Hk'.
  specialize (H1 e k He Hk). specialize (H2 e' k He' Hk').
  apply list_elem_of_In, Hd, negb_true_iff, bool_decide_eq_false in H1. done.
Qed.

(** A stage is in order when its log is monotonic and writes only the
    given keys. *)
Definition in_order {A} (keys : list (bool * string)) (m : M A) : Prop :=
  monotonic m.1 = true ∧ within keys m.1 = true.

Lemma in_order_bind {A B} keys1 keys2 (m : M A) (k : A → M B) :
  in_order keys1 m → (∀ a, in_order keys2 (k a)) →
  disjoint_keys keys1 keys2 = true →
  in_order (keys1 ++ keys2) (m ≫= k).
Proof.
  intros [Hm1 Hw1] Hk Hd. unfold mbind, M_bind, in_order.
  assert (within (keys1 ++ keys2) m.1 = true) as Hw1'.
  { eapply within_weaken; [done|]. intros ?. rewrite elem_of_app. auto. }
  destruct m.2 as [a|e]; cbn [fst]; [|done].
  destruct (Hk a) as [Hm2 Hw2]. split.
  - apply monotonic_app. split; [done|]. split; [done|].
    exact (within_cross keys1 keys2 _ _ Hw1 Hw2 Hd).
  - apply within_app. split; [done|].
    eapply within_weaken; [done|]. intros ?. rewrite elem_of_app. auto.
Qed.

(** The check of a fan-out stage: what precedes the pool, the threads of the
    pool, and what follows it. *)
Definition fan_out_check (keys : list (bool * string)) (pre : list event)
    (threads : list (list event)) (post : list event) : bool :=
  monotonic pre && forallb monotonic threads && apart threads && monotonic post
  && cross pre (concat threads) && cross pre post && cross (concat threads) post
  && within keys (pre ++ concat threads ++ post).

Lemma fan_out_in_order keys pre threads post sched :
  fan_out_check keys pre threads post = true →
  monotonic (pre ++ interleave sched threads ++ post) = true
  ∧ within keys (pre ++ interleave sched threads ++ post) = true.
Proof.
  unfold fan_out_check. rewrite !andb_true_iff.
  intros [[[[[[[Hpre Hthreads] Hapart] Hpost] Hc1] Hc2] Hc3] Hw]. split.
  - apply monotonic_app. split; [done|]. split.
    + apply monotonic_app. split; [|split; [done|]].
      * apply monotonic_interleave.
        -- intros i t Hi. rewrite forallb_forall in Hthreads.
           by apply Hthreads, list_elem_of_In, list_elem_of_lookup_2 with i.
        -- by apply apart_spec.
      * by rewrite (cross_perm_l _ _ _ (interleave_perm sched threads)).
    + apply cross_app_r. split; [|done].
      by rewrite (cross_perm_r _ _ _ (interleave_perm sched threads)).
  - rewrite <- Hw. apply within_perm. by rewrite interleave_perm.
Qed.

Section Orchestration.

Variable create_agent : Agent.
Variable agent_run : string → Agent → JSON → option (list Image) → res string.
Variable json_loads : string → res JSON.
Variable strip : string → string.
Variable str_list : list string → string.
Variable question_prompt : string → string.
Variable synthesis_prompt : string → string.
Variable validation_prompt_1 validation_prompt_2 : string → string → string.
Variable final_synthesis_prompt : string → string → string → string → string.

Ltac evaluate := split; vm_compute; reflexivity.

Lemma announce_in_order status_callback stage :
  in_order [] (announce status_callback stage).
Proof. destruct status_callback; evaluate. Qed.

Lemma generate_questions_in_order user_input :
  in_order [(false, "question_generation"); (true, "question_gen")]
    (generate_questions create_agent agent_run json_loads strip str_list
       question_prompt user_input).
Proof.
  unfold generate_questions.
  destruct (try_questions _ _ _ _ _) as [[response questions]|e];
    [|destruct (caught e)]; evaluate.
Qed.

Lemma first_synthesis_in_order agent_results :
  in_order [(false, "first_synthesis"); (true, "synthesis")]
    (first_synthesis create_agent agent_run synthesis_prompt agent_results).
Proof.
  unfold first_synthesis, synthesize. destruct (agent_run _ _ _ _); evaluate.
Qed.

Lemma final_synthesis_in_order original_query draft_answer validation_results :
  in_order [(false, "final_synthesis"); (true, "final")]
    (final_synthesis create_agent agent_run final_synthesis_prompt original_query
       draft_answer validation_results).
Proof.
  unfold final_synthesis, synthesize. destruct (agent_run _ _ _ _); evaluate.
Qed.

Ltac fan_out keys :=
  unfold in_order; cbn [fst];
  match goal with
  | |- context [?pre :: ?queued ++ interleave ?sched ?threads ++ ?post] =>
      change (pre :: queued ++ interleave sched threads ++ post)
        with ((pre :: queued) ++ interleave sched threads ++ post);
      apply (fan_out_in_order keys (pre :: queued) threads post sched)
  end;
  vm_compute; reflexivity.

Lemma run_validation_in_order original_query draft_answer pool :
  in_order [(false, "validation"); (true, "validator_1"); (true, "validator_2")]
    (run_validation create_agent agent_run validation_prompt_1 validation_prompt_2
       original_query draft_answer pool).
Proof.
  pose proof (run_validation_unfold create_agent agent_run validation_prompt_1
                validation_prompt_2 original_query draft_answer pool) as Hu.
  cbv zeta in Hu. rewrite Hu. clear Hu.
  match goal with |- context [run_pool pool ?tasks] =>
    destruct (run_pool_interleaves pool tasks) as [sched ->] end.
  cbn [fmap list_fmap fst snd]. unfold _run_agent.
  repeat match goal with |- context [agent_run ?k ?a ?p ?i] =>
    destruct (agent_run k a p i) end;
  destruct (times_out pool 2);
  fan_out [(false, "validation"); (true, "validator_1"); (true, "validator_2")].
Qed.

Lemma run_parallel_agents_in_order questions images pool :
  in_order [(false, "parallel_research"); (true, "research"); (true, "analysis");
            (true, "alternatives"); (true, "verification")]
    (run_parallel_agents create_agent agent_run questions images pool).
Proof.
  pose proof (run_parallel_agents_unfold create_agent agent_run questions images
                pool) as Hu.
  cbv zeta in Hu. rewrite Hu. clear Hu.
  match goal with |- context [run_pool pool ?tasks] =>
    destruct (run_pool_interleaves pool tasks) as [sched ->] end.
  destruct (py_iter questions) as [|q1 [|q2 [|q3 [|q4 more]]]];
    cbn [zip zip_with agent_names fmap list_fmap fst snd length]; unfold _run_agent;
    repeat match goal with |- context [agent_run ?k ?a ?p ?i] =>
      destruct (agent_run k a p i) end;
    match goal with |- context [times_out pool ?n] => destruct (times_out pool n) end;
    fan_out [(false, "parallel_research"); (true, "research"); (true, "analysis");
             (true, "alternatives"); (true, "verification")].
Qed.

(** The log of a whole run is monotonic. *)
Lemma orchestrate_monotonic user_input images status_callback research validation :
  monotonic
    (orchestrate create_agent agent_run json_loads strip str_list question_prompt
       synthesis_prompt validation_prompt_1 validation_prompt_2
       final_synthesis_prompt user_input images status_callback research
       validation).1
  = true.
Proof.
  unfold orchestrate.
  match goal with |- monotonic (fst ?m) = true =>
    assert (∃ keys, in_order keys m) as [keys [H _]]; [eexists | exact H] end.
  eapply in_order_bind.
  { apply announce_in_order. }
  { intros _. eapply in_order_bind.
    { apply generate_questions_in_order. }
    { intros questions. eapply in_order_bind.
      { apply announce_in_order. }
      { intros _. eapply in_order_bind.
        { apply run_parallel_agents_in_order. }
        { intros research_results. eapply in_order_bind.
          { apply announce_in_order. }
          { intros _. eapply in_order_bind.
            { apply first_synthesis_in_order. }
            { intros first_draft. eapply in_order_bind.
              { apply announce_in_order. }
              { intros _. eapply in_order_bind.
                { apply run_validation_in_order. }
                { intros validation_results. eapply in_order_bind.
                  { apply announce_in_order. }
                  { intros _. eapply in_order_bind.
                    { apply final_synthesis_in_order. }
                    { intros final_result.
                      instantiate (1 := []). split; reflexivity. }
                    { reflexivity. } }
                  { reflexivity. } }
                { reflexivity. } }
              { reflexivity. } }
            { reflexivity. } }
          { reflexivity. } }
        { reflexivity. } }
      { reflexivity. } }
    { reflexivity. } }
  { reflexivity. }
Qed.

(** What a later part of the log can do to one entry of the store: leave
    it, or set it by one of its writes. *)
Lemma stage_after (evs : list event) : ∀ (p : Progress) (key : string),
  stage_progress (foldl apply_event p evs) !! key = stage_progress p !! key
  ∨ ∃ st, StageUpdate key st ∈ evs
          ∧ stage_progress (foldl apply_event p evs) !! key = Some st.
Proof.
  induction evs as [|e evs IH]; intros p key; [by left|]. cbn [foldl].
  destruct (IH (apply_event p e) key) as [Heq|(st & Hin & Hst)].
  - destruct e as [stage st| | |]; try (left; by rewrite Heq).
    destruct (decide (stage = key)) as [->|Hne].
    + right. exists st. split; [by left|]. rewrite Heq. simpl.
      apply lookup_insert_eq.
    + left. rewrite Heq. simpl. by apply lookup_insert_ne.
  - right. exists st. split; [by right|done].
Qed.

Lemma agent_after (evs : list event) : ∀ (p : Progress) (key : string),
  agent_progress (foldl apply_event p evs) !! key = agent_progress p !! key
  ∨ ∃ st result, AgentUpdate key st result ∈ evs
                 ∧ agent_progress (foldl apply_event p evs) !! key = Some (st, result).
Proof.
  induction evs as [|e evs IH]; intros p key; [by left|]. cbn [foldl].
  destruct (IH (apply_event p e) key) as [Heq|(st & result & Hin & Hst)].
  - destruct e as [|agent st result| |]; try (left; by rewrite Heq).
    destruct (decide (agent = key)) as [->|Hne].
    + right. exists st, result. split; [by left|]. rewrite Heq. simpl.
      apply lookup_insert_eq.
    + left. rewrite Heq. simpl. by apply lookup_insert_ne.
  - right. exists st, result. split; [by right|done].
Qed.

Lemma forward_stage key st st' :
  forward (StageUpdate key st) (StageUpdate key st') = true → (rank st < rank st')%nat.
Proof.
  unfold forward. simpl. rewrite bool_decide_eq_true_2 by done.
  apply Nat.ltb_lt.
Qed.

Lemma forward_agent key st result st' result' :
  forward (AgentUpdate key st result) (AgentUpdate key st' result') = true →
  (rank st < rank st')%nat.
Proof.
  unfold forward. simpl. rewrite bool_decide_eq_true_2 by done.
  apply Nat.ltb_lt.
Qed.

Lemma rank_le_3 st : (rank st ≤ 3)%nat.
Proof. destruct st; simpl; lia. Qed.

(** On a monotonic log, a later snapshot of the store never shows an entry
    further back than an earlier one, and a completed entry stays as it
    is. *)
Lemma snapshots_of_monotonic (before rest : list event) (key : string) :
  monotonic (before ++ rest) = true →
  (stage_rank (get_progress_status before) key
   ≤ stage_rank (get_progress_status (before ++ rest)) key)%nat
  ∧ (agent_rank (get_progress_status before) key
     ≤ agent_rank (get_progress_status (before ++ rest)) key)%nat
  ∧ match stage_progress (get_progress_status before) !! key with
    | Some COMPLETED =>
        stage_progress (get_progress_status (before ++ rest)) !! key = Some COMPLETED
    | _ => True
    end
  ∧ match agent_progress (get_progress_status before) !! key with
    | Some (COMPLETED, result) =>
        agent_progress (get_progress_status (before ++ rest)) !! key
        = Some (COMPLETED, result)
    | _ => True
    end.
Proof.
  intros Hmono. apply monotonic_app in Hmono as (_ & _ & Hcross).
  rewrite cross_spec in Hcross.
  unfold get_progress_status, stage_rank, agent_rank. rewrite foldl_app.
  set (empty := {| stage_progress := ∅; agent_progress := ∅ |}).
  set (p := foldl apply_event empty before).
  assert (∀ st, stage_progress p !! key = Some st → StageUpdate key st ∈ before) as Hs.
  { intros st Hst. destruct (stage_after before empty key) as [Heq|(st' & Hin & Heq)];
      fold p in Heq; rewrite Hst in Heq; [done|]. by injection Heq as ->. }
  assert (∀ st result, agent_progress p !! key = Some (st, result) →
            AgentUpdate key st result ∈ before) as Ha.
  { intros st result Hst.
    destruct (agent_after before empty key) as [Heq|(st' & r' & Hin & Heq)];
      fold p in Heq; rewrite Hst in Heq; [done|]. by injection Heq as -> ->. }
  destruct (stage_after rest p key) as [Hse|(st' & Hin & Hse)];
  destruct (agent_after rest p key) as [Hae|(st2 & r2 & Hin2 & Hae)];
    rewrite Hse, Hae.
  - repeat split; try lia.
    + by destruct (stage_progress p !! key) as [[]|].
    + by destruct (agent_progress p !! key) as [[[] ?]|].
  - destruct (agent_progress p !! key) as [[st r]|] eqn:Hp.
    + pose proof (forward_agent _ _ _ _ _ (Hcross _ _ (Ha _ _ eq_refl) Hin2)) as Hlt.
      pose proof (rank_le_3 st2). simpl.
      repeat split; try lia.
      * by destruct (stage_progress p !! key) as [[]|].
      * destruct st; simpl in *; try done; lia.
    + simpl. repeat split; try lia.
      by destruct (stage_progress p !! key) as [[]|].
  - destruct (stage_progress p !! key) as [st|] eqn:Hp.
    + pose proof (forward_stage _ _ _ (Hcross _ _ (Hs _ eq_refl) Hin)) as Hlt.
      pose proof (rank_le_3 st'). simpl.
      repeat split; try lia.
      * destruct st; simpl in *; try done; lia.
      * by destruct (agent_progress p !! key) as [[[] ?]|].
    + simpl. repeat split; try lia.
      by destruct (agent_progress p !! key) as [[[] ?]|].
  - destruct (stage_progress p !! key) as [st|] eqn:Hp;
    destruct (agent_progress p !! key) as [[sta r]|] eqn:Hq; simpl;
      try pose proof (forward_stage _ _ _ (Hcross _ _ (Hs _ eq_refl) Hin)) as Hlt;
      try pose proof (forward_agent _ _ _ _ _ (Hcross _ _ (Ha _ _ eq_refl) Hin2)) as Hlt2;
      pose proof (rank_le_3 st'); pose proof (rank_le_3 st2);
      repeat split; try lia;
      try (destruct st; simpl in *; try done; lia);
      try (destruct sta; simpl in *; try done; lia).
Qed.

(** C8.  In the log of one orchestration run, which starts from two empty
    dictionaries, every later snapshot of the progress store shows each
    stage and each agent at the same or a later position of the chain
    not-started, queued, in-progress, completed or failed than every earlier
    snapshot; in particular, an entry recorded as completed is still
    completed, with the same result, in every later snapshot.  This holds for
    every outcome of the agent runs, every interleaving of the workers and
    every timeout. *)
Theorem progress_is_monotonic_per_key
    (user_input : string) (images : option (list Image)) (status_callback : bool)
    (research validation : Pool) (n m : nat) (key : string) :
  let log := (orchestrate create_agent agent_run json_loads strip str_list
                question_prompt synthesis_prompt validation_prompt_1
                validation_prompt_2 final_synthesis_prompt user_input images
                status_callback research validation).1 in
  let earlier := get_progress_status (take n log) in
  let later := get_progress_status (take (n + m) log) in
  (stage_rank earlier key ≤ stage_rank later key)%nat
  ∧ (agent_rank earlier key ≤ agent_rank later key)%nat
  ∧ match stage_progress earlier !! key with
    | Some COMPLETED => stage_progress later !! key = Some COMPLETED
    | _ => True
    end
  ∧ match agent_progress earlier !! key with
    | Some (COMPLETED, result) => agent_progress later !! key = Some (COMPLETED, result)
    | _ => True
    end.
Proof.
  intros log earlier later. subst earlier later.
  rewrite <- (take_take_drop log n m). apply snapshots_of_monotonic.
  rewrite take_take_drop.
  pose proof (orchestrate_monotonic user_input images status_callback research
                validation) as Hmono.
  fold log in Hmono. rewrite <- (take_drop (n + m) log) in Hmono.
  by apply monotonic_app in Hmono as [? _].
Qed.

(** ** The images argument (C10) *)

Lemma runs_without_images_app l1 l2 :
  runs_without_images (l1 ++ l2) = true
  ↔ runs_without_images l1 = true ∧ runs_without_images l2 = true.
Proof. unfold runs_without_images. rewrite forallb_app. apply andb_true_iff. Qed.

Lemma runs_without_images_perm l1 l2 :
  l1 ≡ₚ l2 → runs_without_images l1 = runs_without_images l2.
Proof.
  intros Hp. apply eq_true_iff_eq. unfold runs_without_images.
  rewrite !forallb_forall. by setoid_rewrite Hp.
Qed.

Lemma runs_without_images_bind {A B} (m : M A) (k : A → M B) :
  runs_without_images m.1 = true → (∀ a, runs_without_images (k a).1 = true) →
  runs_without_images (m ≫= k).1 = true.
Proof.
  intros Hm Hk. unfold mbind, M_bind. destruct m.2 as [a|e]; cbn [fst]; [|done].
  apply runs_without_images_app. auto.
Qed.

Lemma tasks_without_images remove_tools (futures : list (string * JSON)) :
  runs_without_images
    (concat (fst <$> ((λ nq, _run_agent create_agent agent_run nq.1 nq.2 remove_tools)
                        <$> futures))) = true.
Proof.
  induction futures as [|[name q] futures IH]; [done|].
  cbn [fmap list_fmap concat]. apply runs_without_images_app. split; [|exact IH].
  unfold _run_agent. cbn [fst snd]. by destruct (agent_run _ _ _ _).
Qed.

Lemma run_parallel_agents_without_images questions images pool :
  runs_without_images
    (run_parallel_agents create_agent agent_run questions images pool).1 = true.
Proof.
  pose proof (run_parallel_agents_unfold create_agent agent_run questions images
                pool) as Hu.
  cbv zeta in Hu. rewrite Hu. clear Hu. cbn [fst].
  change (?x :: ?l ++ ?r) with ((x :: l) ++ r).
  rewrite !runs_without_images_app. split; [done|]. split.
  - rewrite (runs_without_images_perm _ _ (run_pool_events pool _)).
    apply tasks_without_images.
  - by destruct (times_out pool _).
Qed.

Lemma run_validation_without_images original_query draft_answer pool :
  runs_without_images
    (run_validation create_agent agent_run validation_prompt_1 validation_prompt_2
       original_query draft_answer pool).1 = true.
Proof.
  pose proof (run_validation_unfold create_agent agent_run validation_prompt_1
                validation_prompt_2 original_query draft_answer pool) as Hu.
  cbv zeta in Hu. rewrite Hu. clear Hu. cbn [fst].
  change (?x :: ?l ++ ?r) with ((x :: l) ++ r).
  rewrite !runs_without_images_app. split; [done|]. split.
  - rewrite (runs_without_images_perm _ _ (run_pool_events pool _)).
    apply tasks_without_images.
  - by destruct (times_out pool _).
Qed.

Lemma synthesize_without_images stage key prompt :
  runs_without_images (synthesize create_agent agent_run stage key prompt).1 = true.
Proof. unfold synthesize. by destruct (agent_run _ _ _ _). Qed.

Lemma generate_questions_without_images user_input :
  runs_without_images
    (generate_questions create_agent agent_run json_loads strip str_list
       question_prompt user_input).1 = true.
Proof.
  unfold generate_questions.
  destruct (try_questions _ _ _ _ _) as [[response questions]|e];
    [|destruct (caught e)]; done.
Qed.

Lemma announce_without_images status_callback stage :
  runs_without_images (announce status_callback stage).1 = true.
Proof. by destruct status_callback. Qed.

Lemma images_given_none evs :
  runs_without_images evs = true → Forall (λ given, given = None) (images_given evs).
Proof.
  induction evs as [|e evs IH]; intros H; [constructor|].
  simpl in H. apply andb_true_iff in H as [He H].
  destruct e as [| |k a p [imgs|]|]; simpl in *; try done; try by apply IH.
  constructor; [done|by apply IH].
Qed.

(** C10.  The result of [orchestrate] and everything it does (the progress
    updates, the agents it runs and the prompts it gives them, the callback
    calls) are the same for any two values of its images argument, and every
    agent run it starts is given no images. *)
Theorem orchestrate_is_independent_of_images
    (user_input : string) (images images' : option (list Image))
    (status_callback : bool) (research validation : Pool) :
  orchestrate create_agent agent_run json_loads strip str_list question_prompt
    synthesis_prompt validation_prompt_1 validation_prompt_2 final_synthesis_prompt
    user_input images status_callback research validation
  = orchestrate create_agent agent_run json_loads strip str_list question_prompt
      synthesis_prompt validation_prompt_1 validation_prompt_2 final_synthesis_prompt
      user_input images' status_callback research validation
  ∧ Forall (λ given, given = None)
      (images_given
         (orchestrate create_agent agent_run json_loads strip str_list question_prompt
            synthesis_prompt validation_prompt_1 validation_prompt_2
            final_synthesis_prompt user_input images status_callback research
            validation).1).
Proof.
  split; [reflexivity|]. apply images_given_none. unfold orchestrate.
  repeat (apply runs_without_images_bind; [|intros ?]);
    first [ apply announce_without_images
          | apply generate_questions_without_images
          | apply run_parallel_agents_without_images
          | apply run_validation_without_images
          | apply synthesize_without_images
          | reflexivity ].
Qed.

End Orchestration.

(** * Further properties of the agent loops *)

(** The identifiers and names of the tool messages of a conversation, in
    order. *)
Definition answered (msgs : list OpenRouterAgent.Message) : list (string * string) :=
  omap (λ m, match m with
             | OpenRouterAgent.ToolMsg id name _ => Some (id, name)
             | _ => None
             end) msgs.

(** What a run of [OpenRouterAgent] can raise: the wrapped failure of a
    provider call, or the [IndexError] of a response without choices. *)
Definition provider_failure (llm : OpenRouterAgent.LLM) (a : Agent) (e : exn) : Prop :=
  (∃ e0 msgs, llm (tools a) msgs = Raise e0
              ∧ e = mk_exn Exception ("LLM call failed: " +:+ exn_msg e0))
  ∨ (∃ msgs, llm (tools a) msgs = Ret None
             ∧ e = mk_exn IndexError "list index out of range").

Section OpenRouterMore.

Variable json_loads : string → res JSON.
Variable json_dumps : JSON → string.
Variable not_a_mapping : JSON → string.
Variable llm : OpenRouterAgent.LLM.

(** X1.  A batch of tool calls that does not name the completion tool is
    answered call by call: the conversation grows by exactly one tool message
    per call, in the order of the calls, each carrying the identifier and the
    name of its call, whatever the tools do. *)
Theorem openrouter_batch_is_answered_call_by_call
    (a : Agent) (calls : list OpenRouterAgent.ToolCall) (st : OpenRouterAgent.RunState) :
  Forall (λ c, OpenRouterAgent.call_name c ≠ sentinel) calls →
  ∃ new,
    OpenRouterAgent.messages
      (OpenRouterAgent.handle_calls json_loads json_dumps not_a_mapping a calls st).1
    = OpenRouterAgent.messages st ++ new
    ∧ length new = length calls
    ∧ answered new
      = (λ c, (OpenRouterAgent.call_id c, OpenRouterAgent.call_name c)) <$> calls.
Proof.
  revert st. induction calls as [|tc calls IH]; intros st Hcalls.
  - exists []. by rewrite app_nil_r.
  - apply Forall_cons in Hcalls as [Htc Hcalls]. cbn [OpenRouterAgent.handle_calls].
    destruct (handle_tool_call_message json_loads json_dumps not_a_mapping a tc)
      as [payload Hmsg].
    destruct (OpenRouterAgent.handle_tool_call _ _ _ a tc) as [inv msg].
    simpl in Hmsg. subst msg.
    rewrite (proj2 (String.eqb_neq _ _) Htc).
    match goal with |- context [OpenRouterAgent.handle_calls _ _ _ a calls ?s] =>
      destruct (IH s Hcalls) as (new & Hnew & Hlen & Hans) end.
    exists (OpenRouterAgent.tool_message json_dumps tc payload :: new).
    rewrite Hnew. cbn [OpenRouterAgent.messages]. rewrite <- app_assoc.
    split; [done|]. split; [simpl; by rewrite Hlen|].
    cbn. by rewrite <- Hans.
Qed.

Lemma loop_raises a left : ∀ st st' e,
  OpenRouterAgent.loop json_loads json_dumps not_a_mapping llm a left st = (st', Raise e) →
  provider_failure llm a e.
Proof.
  induction left as [|left IH]; intros st st' e H; simpl in H; [done|].
  unfold OpenRouterAgent.call_llm in H.
  destruct (llm (tools a) (OpenRouterAgent.messages st)) as [[[content calls]|]|e0] eqn:Hllm.
  - destruct (OpenRouterAgent.handle_calls _ _ _ a calls _) as [st3 done_].
    destruct done_; [done|]. by eapply IH.
  - injection H as _ <-. right. eauto.
  - injection H as _ <-. left. eauto.
Qed.


(** X3.  With a provider that always answers with a choice, a run of
    [OpenRouterAgent] returns a text, whatever the tools do and whatever
    arguments the provider sends them. *)
Theorem openrouter_run_returns_when_the_provider_answers
    (a : Agent) (user_input : string) (images : option (list Image)) :
  (∀ msgs, ∃ turn, llm (tools a) msgs = Ret (Some turn)) →
  ∃ text,
    OpenRouterAgent.run json_loads json_dumps not_a_mapping llm a user_input images
    = Ret text.
Proof.
  intros Hllm. unfold OpenRouterAgent.run, OpenRouterAgent.run_state.
  destruct (OpenRouterAgent.loop _ _ _ _ _ _ _) as [st [text|e]] eqn:H; simpl; [eauto|].
  apply loop_raises in H as [(e0 & msgs & H & _)|(msgs & H & _)];
    destruct (Hllm msgs) as [turn Hturn]; congruence.
Qed.

Lemma removed_tool_is_never_executed_aux (a : Agent) (id arguments : string) :
  (OpenRouterAgent.handle_tool_call json_loads json_dumps not_a_mapping
     (OpenRouterAgent.remove_tool sentinel a)
     (OpenRouterAgent.mk_call id sentinel arguments)).1 = [].
Proof.
  unfold OpenRouterAgent.handle_tool_call. cbv zeta.
  change (OpenRouterAgent.call_name (OpenRouterAgent.mk_call id sentinel arguments))
    with sentinel.
  destruct (json_loads _); [|done].
  by rewrite (openrouter_removed_from_mapping sentinel a).
Qed.

(** X4.  The question agent has the completion tool removed, but the loop
    still ends at a call of that name: when the first reply requests
    [mark_task_complete] alone, the run returns the text of that reply after
    one provider call, and no tool function is executed. *)
Theorem run_ends_at_the_removed_completion_tool
    (a : Agent) (user_input : string) (images : option (list Image))
    (content : option string) (id arguments : string) :
  let a' := OpenRouterAgent.remove_tool sentinel a in
  let out := OpenRouterAgent.run_state json_loads json_dumps not_a_mapping llm a'
               user_input images in
  (0 < max_iterations a)%Z →
  llm (tools a') (OpenRouterAgent.messages (OpenRouterAgent.initial a' user_input images))
  = Ret (Some (content, [OpenRouterAgent.mk_call id sentinel arguments])) →
  out.2 = Ret (join_blank (if truthy content then [default "" content] else []))
  ∧ OpenRouterAgent.llm_calls out.1 = 1
  ∧ OpenRouterAgent.invoked out.1 = [].
Proof.
  intros a' out Hmax Hllm. subst out. unfold OpenRouterAgent.run_state.
  change (max_iterations a') with (max_iterations a).
  destruct (Z.to_nat (max_iterations a)) as [|n] eqn:Hn; [lia|].
  cbn [OpenRouterAgent.loop]. unfold OpenRouterAgent.call_llm. rewrite Hllm.
  cbn [OpenRouterAgent.handle_calls].
  pose proof (removed_tool_is_never_executed_aux a id arguments) as Hcall.
  fold a' in Hcall.
  destruct (OpenRouterAgent.handle_tool_call _ _ _ a' _) as [inv msg].
  simpl in Hcall. subst inv. cbn. rewrite ?app_nil_r. done.
Qed.

End OpenRouterMore.

(** The names of the function responses among some parts, in order. *)
Definition responded (parts : list GeminiAgent.Part) : list string :=
  omap (λ p, match p with
             | GeminiAgent.FunctionResponsePart name _ => Some name
             | _ => None
             end) parts.

Section GeminiMore.

Variable b64decode : string → res string.
Variable llm : GeminiAgent.LLM.

Lemma gemini_handle_calls_responds a calls : ∀ parts inv flag,
  ∃ new,
    (GeminiAgent.handle_calls a calls parts inv flag).1.1 = parts ++ new
    ∧ length new = length calls
    ∧ responded new = GeminiAgent.call_name <$> calls.
Proof.
  induction calls as [|fc calls IH]; intros parts inv flag.
  - exists []. by rewrite app_nil_r.
  - cbn [GeminiAgent.handle_calls].
    destruct (GeminiAgent.handle_tool_call a fc) as [i result].
    match goal with |- context [GeminiAgent.handle_calls a calls ?p ?i ?f] =>
      destruct (IH p i f) as (new & Hnew & Hlen & Hres) end.
    eexists (_ :: new). rewrite Hnew, <- app_assoc.
    split; [done|]. split; [simpl; by rewrite Hlen|].
    cbn. by rewrite <- Hres.
Qed.

(** X5.  [GeminiAgent] answers every function call of a batch, also the
    calls queued after the completion tool: the response parts it builds are
    exactly one per call, in the order of the calls, each under the name of
    its call. *)
Theorem gemini_batch_is_answered_call_by_call
    (a : Agent) (calls : list GeminiAgent.FunctionCall) :
  let parts := (GeminiAgent.handle_calls a calls [] [] false).1.1 in
  length parts = length calls
  ∧ responded parts = GeminiAgent.call_name <$> calls.
Proof.
  intros parts. subst parts.
  destruct (gemini_handle_calls_responds a calls [] [] false) as (new & -> & ? & ?).
  done.
Qed.



Lemma gemini_handle_tool_call_executes a fc :
  Forall (λ inv : Invocation, is_Some (tool_mapping a !! inv.1))
         (GeminiAgent.handle_tool_call a fc).1.
Proof.
  unfold GeminiAgent.handle_tool_call.
  destruct (tool_mapping a !! _) as [f|] eqn:Hf; simpl; [|constructor].
  constructor; [|constructor]. simpl. eauto.
Qed.

Lemma gemini_handle_calls_executes a calls : ∀ parts inv flag,
  Forall (λ inv : Invocation, is_Some (tool_mapping a !! inv.1)) inv →
  Forall (λ inv : Invocation, is_Some (tool_mapping a !! inv.1))
         (GeminiAgent.handle_calls a calls parts inv flag).1.2.
Proof.
  induction calls as [|fc calls IH]; intros parts inv flag Hinv; [done|].
  cbn [GeminiAgent.handle_calls].
  pose proof (gemini_handle_tool_call_executes a fc) as Hfc.
  destruct (GeminiAgent.handle_tool_call a fc) as [i result]. simpl in Hfc.
  apply IH. apply Forall_app; auto.
Qed.

Lemma gemini_loop_executes a left : ∀ st,
  Forall (λ inv : Invocation, is_Some (tool_mapping a !! inv.1))
         (GeminiAgent.invoked st) →
  Forall (λ inv : Invocation, is_Some (tool_mapping a !! inv.1))
         (GeminiAgent.invoked (GeminiAgent.loop llm a left st).1).
Proof.
  induction left as [|left IH]; intros st Hst; simpl; [done|].
  destruct (GeminiAgent.call_llm _ _ _) as [[[text calls]|]|e]; simpl; try done.
  destruct calls as [|fc calls]; [by apply IH|].
  match goal with |- context [GeminiAgent.handle_calls a ?c ?p ?i ?f] =>
    pose proof (gemini_handle_calls_executes a c p i f Hst) as Hc;
    destruct (GeminiAgent.handle_calls a c p i f) as [[parts inv] flag] end.
  simpl in Hc. destruct flag; simpl; [done|]. by apply IH.
Qed.

End GeminiMore.

(** ** Removing tools *)

Lemma agent_eq (a b : Agent) :
  agent_provider a = agent_provider b → system_prompt a = system_prompt b →
  max_iterations a = max_iterations b → discovered_tools a = discovered_tools b →
  tools a = tools b → tool_mapping a = tool_mapping b → a = b.
Proof. destruct a, b. simpl. intros. by subst. Qed.

Lemma remove_tool_provider t a : agent_provider (remove_tool t a) = agent_provider a.
Proof. unfold remove_tool. by destruct (agent_provider a) eqn:E. Qed.

(** X7.  Removals compose: removing two tools gives the same agent in
    either order, and removing a tool a second time changes nothing.  This
    holds for both providers. *)
Theorem remove_tool_commutes_and_is_idempotent (t1 t2 : string) (a : Agent) :
  remove_tool t1 (remove_tool t2 a) = remove_tool t2 (remove_tool t1 a)
  ∧ remove_tool t1 (remove_tool t1 a) = remove_tool t1 a.
Proof.
  split.
  - unfold remove_tool at 1 3. rewrite !remove_tool_provider.
    unfold remove_tool. destruct (agent_provider a); apply agent_eq; simpl; try done.
    + rewrite !list_filter_filter. apply list_filter_iff. tauto.
    + apply map_filter_comm.
    + apply map_filter_comm.
    + unfold GeminiAgent._build_gemini_tools. f_equal. apply map_filter_comm.
    + apply map_filter_comm.
  - unfold remove_tool at 1. rewrite !remove_tool_provider.
    unfold remove_tool. destruct (agent_provider a); apply agent_eq; simpl; try done.
    + apply list_filter_filter_l. tauto.
    + apply map_filter_filter_l. tauto.
    + apply map_filter_filter_l. tauto.
    + unfold GeminiAgent._build_gemini_tools. f_equal.
      apply map_filter_filter_l. tauto.
    + apply map_filter_filter_l. tauto.
Qed.

(** X8.  Removing a tool leaves every other tool in place: under any other
    name the mapping holds the same function as before, for an OpenRouter
    agent every schema with another name is still offered, and removing a
    name the agent does not know leaves its mapping unchanged. *)
Theorem remove_tool_keeps_the_other_tools (t k : string) (a : Agent) (s : Schema) :
  k ≠ t →
  tool_mapping (remove_tool t a) !! k = tool_mapping a !! k
  ∧ (schema_name s ≠ Some t → s ∈ tools a →
     s ∈ tools (OpenRouterAgent.remove_tool t a))
  ∧ (tool_mapping a !! t = None → tool_mapping (remove_tool t a) = tool_mapping a).
Proof.
  intros Hk. rewrite remove_tool_mapping, lookup_filter_ne.
  rewrite decide_False by done. split; [done|]. split.
  - intros Hs Hin. simpl. by apply list_elem_of_filter.
  - intros Hnone. apply map_filter_id. intros i f Hi Heq. simpl in Heq. congruence.
Qed.

Lemma remove_all_tools_mapping a : tool_mapping (remove_all_tools a) = ∅.
Proof.
  apply map_empty. intros k. unfold remove_all_tools.
  change (foldl (λ agent tool_name, remove_tool tool_name agent) a (tool_names a))
    with (foldl (λ agent n, if bool_decide ((λ _, True) n) then remove_tool n agent
                            else agent) a (tool_names a)).
  rewrite (fold_remove_lookup (λ _, True)).
  case_bool_decide as Hk; [done|].
  destruct (tool_mapping a !! k) as [f|] eqn:E; [|done].
  exfalso. apply Hk. split; [|done]. unfold tool_names.
  apply list_elem_of_fmap. exists (k, f). split; [done|].
  by apply elem_of_map_to_list.
Qed.

Lemma nothing_to_execute (m : gmap string ToolFn) (invoked : list Invocation) :
  m = ∅ → Forall (λ inv : Invocation, is_Some (m !! inv.1)) invoked → invoked = [].
Proof.
  intros -> H. destruct invoked as [|inv rest]; [done|].
  apply Forall_cons in H as [[f Hf] _]. by rewrite lookup_empty in Hf.
Qed.

(** X9.  After the loop that removes every tool, which the two synthesis
    stages run on their agents, the name-to-function mapping is empty, and no
    run of such an agent executes a tool function, on either provider and
    whatever calls the provider requests. *)
Theorem synthesis_agents_execute_no_tool
    (json_loads : string → res JSON) (json_dumps : JSON → string)
    (not_a_mapping : JSON → string) (llm : OpenRouterAgent.LLM)
    (b64decode : string → res string) (g_llm : GeminiAgent.LLM)
    (a : Agent) (user_input : string) (images : option (list Image)) :
  tool_mapping (remove_all_tools a) = ∅
  ∧ OpenRouterAgent.invoked
      (OpenRouterAgent.run_state json_loads json_dumps not_a_mapping llm
         (remove_all_tools a) user_input images).1 = []
  ∧ match (GeminiAgent.run_state b64decode g_llm (remove_all_tools a)
             user_input images).1 with
    | Ret st => GeminiAgent.invoked st = []
    | Raise _ => True
    end.
Proof.
  pose proof (remove_all_tools_mapping a) as Hm. split; [done|]. split.
  - eapply nothing_to_execute; [exact Hm|]. apply loop_executes. constructor.
  - unfold GeminiAgent.run_state.
    destruct (GeminiAgent._build_content_parts _ _ _) as [parts|e]; [|done].
    destruct (GeminiAgent.loop _ _ _ _) as [st r] eqn:H. simpl.
    eapply nothing_to_execute; [exact Hm|].
    change st with (st, r).1. rewrite <- H.
    apply gemini_loop_executes. constructor.
Qed.

(** * Further properties of the orchestration pipeline *)

(** The record [_run_agent] returns for an outcome of the agent's run. *)
Definition outcome_record (id : string) (outcome : res string) : AgentResult :=
  match outcome with
  | Ret response =>
      {| agent_id := id; result_status := "success";
         response := response; execution_time := Measured |}
  | Raise e =>
      {| agent_id := id; result_status := "error";
         response := "Error: " +:+ exn_msg e; execution_time := Zero |}
  end.

(** The writes of a log to one stage key and to one agent key, in order. *)
Definition stage_writes (key : string) (evs : list event) : list status :=
  omap (λ ev, match ev with
              | StageUpdate stage st => if decide (stage = key) then Some st else None
              | _ => None
              end) evs.

Definition agent_writes (key : string) (evs : list event)
    : list (status * option string) :=
  omap (λ ev, match ev with
              | AgentUpdate agent st result =>
                  if decide (agent = key) then Some (st, result) else None
              | _ => None
              end) evs.

Lemma store_last_write (evs : list event) (key : string) :
  stage_progress (get_progress_status evs) !! key = last (stage_writes key evs)
  ∧ agent_progress (get_progress_status evs) !! key = last (agent_writes key evs).
Proof.
  unfold get_progress_status, stage_writes, agent_writes.
  induction evs as [|e evs IH] using rev_ind; [done|].
  rewrite foldl_app, !omap_app. cbn [foldl]. destruct IH as [IHs IHa].
  destruct e as [stage st|agent st result| |]; simpl.
  - destruct (decide (stage = key)) as [->|Hne]; simpl.
    + rewrite lookup_insert_eq, last_snoc. by rewrite app_nil_r.
    + rewrite lookup_insert_ne by done. by rewrite !app_nil_r.
  - destruct (decide (agent = key)) as [->|Hne]; simpl.
    + rewrite lookup_insert_eq, last_snoc. by rewrite app_nil_r.
    + rewrite lookup_insert_ne by done. by rewrite !app_nil_r.
  - by rewrite !app_nil_r.
  - by rewrite !app_nil_r.
Qed.

(** X10.  The progress store shows, for every key, what the last update of
    that key wrote, and nothing for a key that was never updated; updates of
    stages and updates of agents do not touch each other's entries. *)
Theorem progress_store_shows_the_last_update (evs : list event) (key : string) :
  stage_progress (get_progress_status evs) !! key = last (stage_writes key evs)
  ∧ agent_progress (get_progress_status evs) !! key = last (agent_writes key evs).
Proof. apply store_last_write. Qed.

Section BatchContents.

Variable create_agent : Agent.
Variable agent_run : string → Agent → JSON → option (list Image) → res string.

Lemma _run_agent_record id prompt remove_tools :
  (_run_agent create_agent agent_run id prompt remove_tools).2
  = Ret (outcome_record id
           (agent_run id
              (if remove_tools then keep_search_calculator create_agent
               else create_agent) prompt None)).
Proof. unfold _run_agent. by destruct (agent_run _ _ _ _). Qed.

Lemma collected_records failure fallback_id remove_tools (futures : list (string * JSON)) :
  ∀ h : nat → nat,
  collect failure fallback_id
    <$> imap (λ i (t : Task), (h i, t.2))
          ((λ nq, _run_agent create_agent agent_run nq.1 nq.2 remove_tools) <$> futures)
  = (λ nq, outcome_record nq.1
             (agent_run nq.1
                (if remove_tools then keep_search_calculator create_agent
                 else create_agent) nq.2 None)) <$> futures.
Proof.
  induction futures as [|[name q] futures IH]; intros h; [done|].
  cbn [fmap list_fmap imap]. rewrite <- (IH (h ∘ S)). f_equal.
  unfold collect. cbn [fst snd]. by rewrite _run_agent_record.
Qed.

(** X11.  The list a research batch returns, when it is not cut by the
    timeout, holds for each question paired with an agent name the record of
    that agent's outcome and nothing else: its response under status
    "success" when the run returned, the text "Error: " followed by the
    exception's message under status "error" when it raised.  Questions beyond
    the fourth are not run. *)
Theorem research_batch_holds_the_outcome_of_every_task
    (questions : JSON) (images : option (list Image)) (pool : Pool) :
  let futures := zip agent_names (py_iter questions) in
  times_out pool (length futures) = false →
  ∃ results,
    (run_parallel_agents create_agent agent_run questions images pool).2 = Ret results
    ∧ results ≡ₚ (λ nq, outcome_record nq.1 (agent_run nq.1 create_agent nq.2 None))
                   <$> futures
    ∧ (length results ≤ 4)%nat.
Proof.
  intros futures Hin.
  pose proof (run_parallel_agents_unfold create_agent agent_run questions images
                pool) as Hu.
  cbv zeta in Hu. fold futures in Hu. rewrite length_fmap, Hin in Hu.
  rewrite Hu. cbn [snd]. eexists. split; [done|].
  assert (collect "Agent failed: " (λ i, default "" (futures.*1 !! i))
            <$> (run_pool pool ((λ nq, _run_agent create_agent agent_run nq.1 nq.2
                                         false) <$> futures)).2
          ≡ₚ (λ nq, outcome_record nq.1 (agent_run nq.1 create_agent nq.2 None))
               <$> futures) as Hperm.
  { rewrite run_pool_completed by (by rewrite length_fmap).
    rewrite <- (collected_records "Agent failed: "
                  (λ i, default "" (futures.*1 !! i)) false futures id).
    reflexivity. }
  split; [done|].
  rewrite Hperm, length_fmap. unfold futures. rewrite length_zip.
  apply (Nat.le_min_l 4).
Qed.

End BatchContents.

(** ** How a run ends *)

Lemma bind_ret_l {A B} (m : M A) (k : A → M B) a :
  m.2 = Ret a → m ≫= k = (m.1 ++ (k a).1, (k a).2).
Proof. intros H. unfold mbind, M_bind. by rewrite H. Qed.

Lemma bind_raise_l {A B} (m : M A) (k : A → M B) e :
  m.2 = Raise e → m ≫= k = (m.1, Raise e).
Proof. intros H. unfold mbind, M_bind. by rewrite H. Qed.

Lemma bind_returns {A B} (m : M A) (k : A → M B) b :
  (m ≫= k).2 = Ret b →
  ∃ a, m.2 = Ret a ∧ (k a).2 = Ret b ∧ (m ≫= k).1 = m.1 ++ (k a).1.
Proof.
  unfold mbind, M_bind. destruct m.2 as [a|e]; simpl; [|done]. eauto.
Qed.

Lemma announce_returns status_callback stage : (announce status_callback stage).2 = Ret tt.
Proof. done. Qed.

Lemma stage_writes_app key l1 l2 :
  stage_writes key (l1 ++ l2) = stage_writes key l1 ++ stage_writes key l2.
Proof. apply omap_app. Qed.

Lemma agent_writes_app key l1 l2 :
  agent_writes key (l1 ++ l2) = agent_writes key l1 ++ agent_writes key l2.
Proof. apply omap_app. Qed.

(** A log that writes only the given keys writes nothing to another key. *)
Lemma stage_writes_within keys evs key :
  within keys evs = true → (false, key) ∉ keys → stage_writes key evs = [].
Proof.
  rewrite within_spec. intros Hw Hk. unfold stage_writes.
  induction evs as [|e evs IH]; [done|]. cbn [omap list_omap].
  rewrite IH by (intros e' k He'; apply Hw; by right).
  destruct e as [stage st| | |]; try done.
  destruct (decide (stage = key)) as [->|]; [|done].
  destruct Hk. apply (Hw (StageUpdate key st)); [by left|done].
Qed.

Lemma agent_writes_within keys evs key :
  within keys evs = true → (true, key) ∉ keys → agent_writes key evs = [].
Proof.
  rewrite within_spec. intros Hw Hk. unfold agent_writes.
  induction evs as [|e evs IH]; [done|]. cbn [omap list_omap].
  rewrite IH by (intros e' k He'; apply Hw; by right).
  destruct e as [|agent st result| |]; try done.
  destruct (decide (agent = key)) as [->|]; [|done].
  destruct Hk. apply (Hw (AgentUpdate key st result)); [by left|done].
Qed.

Section RunEnds.

Variable create_agent : Agent.
Variable agent_run : string → Agent → JSON → option (list Image) → res string.
Variable json_loads : string → res JSON.
Variable strip : string → string.
Variable str_list : list string → string.
Variable question_prompt : string → string.
Variable synthesis_prompt : string → string.
Variable validation_prompt_1 validation_prompt_2 : string → string → string.
Variable final_synthesis_prompt : string → string → string → string → string.

(** X12.  When the run of the question agent raises an exception that the
    fallback does not catch (a provider failure), [orchestrate] raises that
    exception, no later stage is started, and nothing records the failure:
    the store is left with the stage "question_generation" in progress and
    the agent "question_gen" processing. *)
Theorem failed_question_generation_stays_in_progress
    (user_input : string) (images : option (list Image)) (status_callback : bool)
    (research validation : Pool) (e : exn) :
  let run := orchestrate create_agent agent_run json_loads strip str_list
               question_prompt synthesis_prompt validation_prompt_1
               validation_prompt_2 final_synthesis_prompt user_input images
               status_callback research validation in
  agent_run "question_gen" (remove_tool "mark_task_complete" create_agent)
    (JStr (question_prompt user_input)) None = Raise e →
  caught e = false →
  run.2 = Raise e
  ∧ get_progress_status run.1
    = {| stage_progress := {[ "question_generation" := IN_PROGRESS ]};
         agent_progress := {[ "question_gen" := (PROCESSING, None) ]} |}.
Proof.
  intros run Hrun Hcaught. subst run. unfold orchestrate.
  rewrite (bind_ret_l _ _ tt) by apply announce_returns.
  assert ((generate_questions create_agent agent_run json_loads strip str_list
             question_prompt user_input)
          = ([StageUpdate "question_generation" IN_PROGRESS;
              AgentUpdate "question_gen" PROCESSING None;
              AgentRun "question_gen" (remove_tool "mark_task_complete" create_agent)
                (JStr (question_prompt user_input)) None], Raise e)) as Hgq.
  { unfold generate_questions, try_questions. by rewrite Hrun, Hcaught. }
  rewrite (bind_raise_l _ _ e) by (by rewrite Hgq). rewrite Hgq. cbn [fst snd].
  split; [done|]. by destruct status_callback.
Qed.

Ltac not_among :=
  let H := fresh in
  intros H; repeat (apply elem_of_cons in H as [H|H]; [congruence|]);
  by apply elem_of_nil in H.

Lemma stage_writes_announce key status_callback stage :
  stage_writes key (announce status_callback stage).1 = [].
Proof. by destruct status_callback. Qed.

Lemma agent_writes_announce key status_callback stage :
  agent_writes key (announce status_callback stage).1 = [].
Proof. by destruct status_callback. Qed.

Lemma stage_writes_questions key user_input :
  key ≠ "question_generation" →
  stage_writes key (generate_questions create_agent agent_run json_loads strip
                      str_list question_prompt user_input).1 = [].
Proof.
  intros Hk. eapply stage_writes_within.
  - apply (generate_questions_in_order create_agent agent_run json_loads strip
             str_list question_prompt user_input).
  - not_among.
Qed.

Lemma agent_writes_questions key user_input :
  key ≠ "question_gen" →
  agent_writes key (generate_questions create_agent agent_run json_loads strip
                      str_list question_prompt user_input).1 = [].
Proof.
  intros Hk. eapply agent_writes_within.
  - apply (generate_questions_in_order create_agent agent_run json_loads strip
             str_list question_prompt user_input).
  - not_among.
Qed.

Lemma stage_writes_research key questions images pool :
  key ≠ "parallel_research" →
  stage_writes key (run_parallel_agents create_agent agent_run questions images
                      pool).1 = [].
Proof.
  intros Hk. eapply stage_writes_within.
  - apply (run_parallel_agents_in_order create_agent agent_run questions images pool).
  - not_among.
Qed.

Lemma agent_writes_research key questions images pool :
  key ∉ agent_names →
  agent_writes key (run_parallel_agents create_agent agent_run questions images
                      pool).1 = [].
Proof.
  intros Hk. eapply agent_writes_within.
  - apply (run_parallel_agents_in_order create_agent agent_run questions images pool).
  - intros H. apply Hk. unfold agent_names.
    repeat (apply elem_of_cons in H as [H|H]; [try congruence|]).
    + injection H as ->. by left.
    + injection H as ->. right. by left.
    + injection H as ->. do 2 right. by left.
    + injection H as ->. do 3 right. by left.
    + by apply elem_of_nil in H.
Qed.

Lemma pool_events_Forall (P : event → Prop) remove_tools pool
    (futures : list (string * JSON)) :
  (∀ id q, Forall P (_run_agent create_agent agent_run id q remove_tools).1) →
  Forall P (run_pool pool ((λ nq, _run_agent create_agent agent_run nq.1 nq.2
                                    remove_tools) <$> futures)).1.
Proof.
  intros H. rewrite run_pool_events. apply Forall_concat.
  rewrite <- list_fmap_compose. apply Forall_fmap, Forall_forall.
  intros [id q] _. apply H.
Qed.

Lemma stage_writes_pool key remove_tools pool (futures : list (string * JSON)) :
  stage_writes key (run_pool pool ((λ nq, _run_agent create_agent agent_run nq.1 nq.2
                                            remove_tools) <$> futures)).1 = [].
Proof.
  pose proof (pool_events_Forall
                (λ e, match e with StageUpdate _ _ => False | _ => True end)
                remove_tools pool futures) as H.
  unfold stage_writes.
  match type of H with _ → Forall _ ?l => induction l as [|e evs IH] end; [done|].
  assert (Forall (λ e, match e with StageUpdate _ _ => False | _ => True end)
            (e :: evs)) as He.
  { apply H. intros id q. unfold _run_agent.
    destruct (agent_run _ _ _ _); repeat constructor. }
  apply Forall_cons in He as [He Hevs]. cbn [omap list_omap].
  rewrite IH by done. by destruct e.
Qed.

(** X13.  When the questions are generated and the research batch returns
    but the run of the synthesis agent raises, [orchestrate] raises that
    exception; the failure is recorded (stage "first_synthesis" and agent
    "synthesis" are FAILED), and validation and final synthesis are never
    started: the store has no entry for them. *)
Theorem failed_first_synthesis_ends_the_run
    (user_input : string) (images : option (list Image)) (status_callback : bool)
    (research validation : Pool) (questions : JSON) (results : list AgentResult)
    (e : exn) :
  let run := orchestrate create_agent agent_run json_loads strip str_list
               question_prompt synthesis_prompt validation_prompt_1
               validation_prompt_2 final_synthesis_prompt user_input images
               status_callback research validation in
  let store := get_progress_status run.1 in
  (generate_questions create_agent agent_run json_loads strip str_list
     question_prompt user_input).2 = Ret questions →
  (run_parallel_agents create_agent agent_run questions images research).2
  = Ret results →
  agent_run "synthesis" (remove_all_tools create_agent)
    (JStr (synthesis_prompt (agent_responses_text results))) None = Raise e →
  run.2 = Raise e
  ∧ stage_progress store !! "first_synthesis" = Some FAILED
  ∧ agent_progress store !! "synthesis" = Some (FAILED, None)
  ∧ stage_progress store !! "validation" = None
  ∧ stage_progress store !! "final_synthesis" = None
  ∧ agent_progress store !! "validator_1" = None
  ∧ agent_progress store !! "validator_2" = None
  ∧ agent_progress store !! "final" = None.
Proof.
  intros run store Hgq Hrpa Hsyn. subst store run. unfold orchestrate.
  rewrite (bind_ret_l _ _ tt) by apply announce_returns.
  rewrite (bind_ret_l _ _ questions) by exact Hgq.
  rewrite (bind_ret_l _ _ tt) by apply announce_returns.
  rewrite (bind_ret_l _ _ results) by exact Hrpa.
  rewrite (bind_ret_l _ _ tt) by apply announce_returns.
  assert (first_synthesis create_agent agent_run synthesis_prompt results
          = ([StageUpdate "first_synthesis" IN_PROGRESS;
              AgentUpdate "synthesis" PROCESSING None;
              AgentRun "synthesis" (remove_all_tools create_agent)
                (JStr (synthesis_prompt (agent_responses_text results))) None;
              AgentUpdate "synthesis" FAILED None;
              StageUpdate "first_synthesis" FAILED], Raise e)) as Hfs.
  { unfold first_synthesis, synthesize. by rewrite Hsyn. }
  rewrite (bind_raise_l _ _ e) by (by rewrite Hfs). rewrite Hfs. cbn [fst snd].
  split; [done|].
  rewrite !(proj1 (store_last_write _ _)), !(proj2 (store_last_write _ _)).
  rewrite !stage_writes_app, !agent_writes_app.
  rewrite !stage_writes_announce, !agent_writes_announce.
  rewrite !stage_writes_questions, !agent_writes_questions by done.
  rewrite !stage_writes_research by done.
  rewrite !agent_writes_research by not_among.
  done.
Qed.

(** X14.  When the research batch is cut by the timeout, [orchestrate]
    raises the [TimeoutError] of the batch; the stage "parallel_research" is
    left in progress, and synthesis, validation and final synthesis are never
    started. *)
Theorem research_timeout_ends_the_run
    (user_input : string) (images : option (list Image)) (status_callback : bool)
    (research validation : Pool) (questions : JSON) :
  let run := orchestrate create_agent agent_run json_loads strip str_list
               question_prompt synthesis_prompt validation_prompt_1
               validation_prompt_2 final_synthesis_prompt user_input images
               status_callback research validation in
  let store := get_progress_status run.1 in
  let n := length (zip agent_names (py_iter questions)) in
  (generate_questions create_agent agent_run json_loads strip str_list
     question_prompt user_input).2 = Ret questions →
  times_out research n = true →
  run.2 = Raise (unfinished research n)
  ∧ stage_progress store !! "parallel_research" = Some IN_PROGRESS
  ∧ stage_progress store !! "first_synthesis" = None
  ∧ stage_progress store !! "validation" = None
  ∧ stage_progress store !! "final_synthesis" = None
  ∧ agent_progress store !! "synthesis" = None.
Proof.
  intros run store n Hgq Hout. subst store run. unfold orchestrate.
  rewrite (bind_ret_l _ _ tt) by apply announce_returns.
  rewrite (bind_ret_l _ _ questions) by exact Hgq.
  rewrite (bind_ret_l _ _ tt) by apply announce_returns.
  pose proof (run_parallel_agents_unfold create_agent agent_run questions images
                research) as Hu.
  cbv zeta in Hu. rewrite length_fmap in Hu. fold n in Hu. rewrite Hout in Hu.
  rewrite (bind_raise_l _ _ (unfinished research n)) by (by rewrite Hu).
  cbn [fst snd]. split; [done|].
  rewrite !(proj1 (store_last_write _ _)), !(proj2 (store_last_write _ _)).
  rewrite !stage_writes_app, !agent_writes_app.
  rewrite !stage_writes_announce, !agent_writes_announce.
  rewrite !stage_writes_questions, !agent_writes_questions by done.
  rewrite !agent_writes_research by not_among.
  rewrite !(stage_writes_research "first_synthesis"),
          !(stage_writes_research "validation"),
          !(stage_writes_research "final_synthesis") by done.
  split; [|done].
  rewrite Hu. cbn [fst]. rewrite app_nil_r.
  change (?x :: ?l ++ ?r) with ((x :: l) ++ r).
  by rewrite stage_writes_app, stage_writes_pool.
Qed.

Ltac among :=
  repeat first [rewrite elem_of_cons | rewrite elem_of_app]; eauto 30.

Lemma completed_stage_stays (log : list event) (key : string) :
  monotonic log = true → StageUpdate key COMPLETED ∈ log →
  stage_progress (get_progress_status log) !! key = Some COMPLETED.
Proof.
  intros Hmono (l1 & l2 & ->)%list_elem_of_split.
  rewrite cons_middle, app_assoc in Hmono |- *.
  destruct (snapshots_of_monotonic _ _ key Hmono) as (_ & _ & H & _).
  unfold get_progress_status in H at 1. rewrite foldl_app in H. simpl in H.
  by rewrite lookup_insert_eq in H.
Qed.

Lemma agent_rank_le_3 (p : Progress) (key : string) : (agent_rank p key ≤ 3)%nat.
Proof.
  unfold agent_rank. destruct (agent_progress p !! key) as [[st r]|]; simpl; [|lia].
  apply rank_le_3.
Qed.

Lemma ended_agent_stays (log : list event) (key : string) st result :
  monotonic log = true → AgentUpdate key st result ∈ log → rank st = 3 →
  agent_rank (get_progress_status log) key = 3.
Proof.
  intros Hmono (l1 & l2 & ->)%list_elem_of_split Hst.
  rewrite cons_middle, app_assoc in Hmono |- *.
  destruct (snapshots_of_monotonic _ _ key Hmono) as (_ & H & _).
  unfold get_progress_status in H at 1. rewrite foldl_app in H.
  unfold agent_rank in H at 1. simpl in H. rewrite lookup_insert_eq in H.
  simpl in H. rewrite Hst in H.
  pose proof (agent_rank_le_3 (get_progress_status ((l1 ++ [AgentUpdate key st result]) ++ l2)) key).
  lia.
Qed.

Lemma questions_completed user_input questions :
  (generate_questions create_agent agent_run json_loads strip str_list
     question_prompt user_input).2 = Ret questions →
  let log := (generate_questions create_agent agent_run json_loads strip str_list
                question_prompt user_input).1 in
  StageUpdate "question_generation" COMPLETED ∈ log
  ∧ (∃ result, AgentUpdate "question_gen" COMPLETED result ∈ log)
  ∧ py_len questions = Some 4.
Proof.
  unfold generate_questions.
  destruct (try_questions _ _ _ _ _) as [[response parsed]|e] eqn:Htry.
  - cbn [fst snd]. intros [= <-]. repeat split.
    + rewrite elem_of_app, !elem_of_cons. tauto.
    + eexists. rewrite elem_of_app, !elem_of_cons. right. left. reflexivity.
    + unfold try_questions in Htry.
      destruct (agent_run _ _ _ _); [|done]. destruct (json_loads _); [|done].
      destruct (py_len _) as [n|] eqn:Hn; [|done].
      case_bool_decide as Hne; [done|]. injection Htry as _ <-. rewrite Hn.
      f_equal. by destruct (decide (n = 4)).
  - destruct (caught e); cbn [fst snd]; [|done]. intros [= <-]. repeat split.
    + rewrite elem_of_app, !elem_of_cons. tauto.
    + eexists. rewrite elem_of_app, !elem_of_cons. right. left. reflexivity.
Qed.

Lemma synthesize_completed stage key prompt text :
  (synthesize create_agent agent_run stage key prompt).2 = Ret text →
  StageUpdate stage COMPLETED ∈ (synthesize create_agent agent_run stage key prompt).1
  ∧ AgentUpdate key COMPLETED (Some text)
      ∈ (synthesize create_agent agent_run stage key prompt).1.
Proof.
  unfold synthesize. destruct (agent_run _ _ _ _); cbn [fst snd]; [|done].
  intros [= <-]. rewrite !elem_of_app, !elem_of_cons. tauto.
Qed.

Lemma _run_agent_ends id prompt remove_tools :
  ∃ st result,
    AgentUpdate id st result ∈ (_run_agent create_agent agent_run id prompt remove_tools).1
    ∧ rank st = 3.
Proof.
  unfold _run_agent. destruct (agent_run _ _ _ _); cbn [fst];
    do 2 eexists; (split; [rewrite elem_of_app, !elem_of_cons; right; left; reflexivity|done]).
Qed.

Lemma pool_agents_end remove_tools pool (futures : list (string * JSON)) name :
  name ∈ futures.*1 →
  ∃ st result,
    AgentUpdate name st result
      ∈ (run_pool pool ((λ nq, _run_agent create_agent agent_run nq.1 nq.2
                                 remove_tools) <$> futures)).1
    ∧ rank st = 3.
Proof.
  intros ([name' q] & -> & Hin)%list_elem_of_fmap.
  destruct (_run_agent_ends name' q remove_tools) as (st & result & He & Hst).
  exists st, result. split; [|done]. rewrite run_pool_events.
  apply list_elem_of_In, in_concat.
  exists (_run_agent create_agent agent_run name' q remove_tools).1.
  rewrite <- !list_elem_of_In. split; [|done].
  rewrite <- list_fmap_compose. apply list_elem_of_fmap. by exists (name', q).
Qed.

(** X15.  After a run that returns, the progress store shows all five
    stages COMPLETED, and every agent of the pipeline at the end of its
    chain: the question, synthesis and final agents, the four research agents
    and the two validators are each COMPLETED or FAILED, and none is left
    queued or processing. *)
Theorem returned_run_leaves_every_entry_at_its_end
    (user_input : string) (images : option (list Image)) (status_callback : bool)
    (research validation : Pool) (bundle : PipelineResult) :
  let run := orchestrate create_agent agent_run json_loads strip str_list
               question_prompt synthesis_prompt validation_prompt_1
               validation_prompt_2 final_synthesis_prompt user_input images
               status_callback research validation in
  let store := get_progress_status run.1 in
  run.2 = Ret bundle →
  Forall (λ stage, stage_progress store !! stage = Some COMPLETED)
    ["question_generation"; "parallel_research"; "first_synthesis"; "validation";
     "final_synthesis"]
  ∧ Forall (λ agent, agent_rank store agent = 3)
      ["question_gen"; "research"; "analysis"; "alternatives"; "verification";
       "synthesis"; "validator_1"; "validator_2"; "final"].
Proof.
  intros run store Hret. subst store.
  pose proof (orchestrate_monotonic create_agent agent_run json_loads strip str_list
                question_prompt synthesis_prompt validation_prompt_1
                validation_prompt_2 final_synthesis_prompt user_input images
                status_callback research validation) as Hmono.
  fold run in Hmono. subst run. unfold orchestrate in *.
  rewrite (bind_ret_l _ _ tt) in Hret by apply announce_returns.
  cbn [snd] in Hret. apply bind_returns in Hret as (questions & Hgq & Hret & Hl1).
  rewrite (bind_ret_l _ _ tt) in Hret by apply announce_returns.
  cbn [snd] in Hret. apply bind_returns in Hret as (results & Hrpa & Hret & Hl2).
  rewrite (bind_ret_l _ _ tt) in Hret by apply announce_returns.
  cbn [snd] in Hret. apply bind_returns in Hret as (draft & Hfs & Hret & Hl3).
  rewrite (bind_ret_l _ _ tt) in Hret by apply announce_returns.
  cbn [snd] in Hret. apply bind_returns in Hret as (critiques & Hrv & Hret & Hl4).
  rewrite (bind_ret_l _ _ tt) in Hret by apply announce_returns.
  cbn [snd] in Hret. apply bind_returns in Hret as (final & Hfinal & _ & Hl5).
  rewrite (bind_ret_l _ _ tt) in Hmono |- * by apply announce_returns.
  rewrite (bind_ret_l _ _ questions) in Hmono |- * by exact Hgq.
  rewrite (bind_ret_l _ _ tt) in Hmono |- * by apply announce_returns.
  rewrite (bind_ret_l _ _ results) in Hmono |- * by exact Hrpa.
  rewrite (bind_ret_l _ _ tt) in Hmono |- * by apply announce_returns.
  rewrite (bind_ret_l _ _ draft) in Hmono |- * by exact Hfs.
  rewrite (bind_ret_l _ _ tt) in Hmono |- * by apply announce_returns.
  rewrite (bind_ret_l _ _ critiques) in Hmono |- * by exact Hrv.
  rewrite (bind_ret_l _ _ tt) in Hmono |- * by apply announce_returns.
  rewrite (bind_ret_l _ _ final) in Hmono |- * by exact Hfinal.
  cbn [fst snd] in Hmono |- *.
  destruct (questions_completed _ _ Hgq) as (Hq1 & [rq Hq2] & Hlen).
  destruct (synthesize_completed _ _ _ _ Hfs) as [Hs1 Hs2].
  destruct (synthesize_completed _ _ _ _ Hfinal) as [Hf1 Hf2].
  pose proof (run_parallel_agents_unfold create_agent agent_run questions images
                research) as Hur.
  pose proof (run_validation_unfold create_agent agent_run validation_prompt_1
                validation_prompt_2 user_input draft validation) as Huv.
  cbv zeta in Hur, Huv. rewrite Hur in Hrpa. rewrite Huv in Hrv.
  cbn [snd] in Hrpa, Hrv.
  destruct (times_out research _) eqn:Hr; [done|].
  destruct (times_out validation 2) eqn:Hv; [done|].
  assert (∀ name, name ∈ agent_names →
            ∃ st result,
              AgentUpdate name st result
                ∈ (run_parallel_agents create_agent agent_run questions images
                     research).1 ∧ rank st = 3) as Hagents.
  { intros name Hname. rewrite Hur. cbn [fst].
    assert (name ∈ (zip agent_names (py_iter questions)).*1) as Hin0.
    { rewrite fst_zip; [done|]. rewrite (py_iter_length _ _ Hlen). done. }
    destruct (pool_agents_end false research (zip agent_names (py_iter questions))
                name Hin0) as (st & result & Hin & Hst).
    exists st, result. split; [|done]. among. }
  assert (∀ name, name ∈ ["validator_1"; "validator_2"] →
            ∃ st result,
              AgentUpdate name st result
                ∈ (run_validation create_agent agent_run validation_prompt_1
                     validation_prompt_2 user_input draft validation).1
              ∧ rank st = 3) as Hvalidators.
  { intros name Hname. rewrite Huv. cbn [fst].
    destruct (pool_agents_end true validation
                [("validator_1", JStr (validation_prompt_1 user_input draft));
                 ("validator_2", JStr (validation_prompt_2 user_input draft))]
                name Hname) as (st & result & Hin & Hst).
    exists st, result. split; [|done]. among. }
  assert (StageUpdate "parallel_research" COMPLETED
            ∈ (run_parallel_agents create_agent agent_run questions images research).1)
    as Hr1.
  { rewrite Hur. cbn [fst]. among. }
  assert (StageUpdate "validation" COMPLETED
            ∈ (run_validation create_agent agent_run validation_prompt_1
                 validation_prompt_2 user_input draft validation).1) as Hv1.
  { rewrite Huv. cbn [fst]. among. }
  unfold first_synthesis, final_synthesis in *.
  split.
  - repeat constructor; apply (completed_stage_stays _ _ Hmono); among.
  - destruct (Hagents "research") as (s1 & r1 & ? & ?); [by left|].
    destruct (Hagents "analysis") as (s2 & r2 & ? & ?); [right; by left|].
    destruct (Hagents "alternatives") as (s3 & r3 & ? & ?); [do 2 right; by left|].
    destruct (Hagents "verification") as (s4 & r4 & ? & ?); [do 3 right; by left|].
    destruct (Hvalidators "validator_1") as (s5 & r5 & ? & ?); [by left|].
    destruct (Hvalidators "validator_2") as (s6 & r6 & ? & ?); [right; by left|].
    repeat constructor;
      (eapply (ended_agent_stays _ _ _ _ Hmono); [among|done]).
Qed.

End RunEnds.

(** ** The critiques given to the final synthesis *)




(** ** The properties above at sample inputs *)

(** Two calls, the second of an unknown tool with arguments that are no
    JSON. *)
Definition search_then_unknown : list OpenRouterAgent.ToolCall :=
  [OpenRouterAgent.mk_call "call_1" "search" "{}";
   OpenRouterAgent.mk_call "call_2" "translate" "not json"].

(** X1 at a batch of two calls. *)
Lemma openrouter_batch_is_answered_call_by_call_witness :
  Forall (λ c, OpenRouterAgent.call_name c ≠ sentinel) search_then_unknown
  ∧ ∃ new,
      OpenRouterAgent.messages
        (OpenRouterAgent.handle_calls Sample.json_loads Sample.json_dumps
           Sample.not_a_mapping Sample.openrouter_agent search_then_unknown
           (OpenRouterAgent.initial Sample.openrouter_agent "hi" None)).1
      = OpenRouterAgent.messages
          (OpenRouterAgent.initial Sample.openrouter_agent "hi" None) ++ new
      ∧ length new = 2
      ∧ answered new = [("call_1", "search"); ("call_2", "translate")].
Proof.
  assert (Forall (λ c, OpenRouterAgent.call_name c ≠ sentinel) search_then_unknown)
    as Hcalls by (repeat constructor; discriminate).
  split; [exact Hcalls|].
  exact (openrouter_batch_is_answered_call_by_call Sample.json_loads Sample.json_dumps
           Sample.not_a_mapping Sample.openrouter_agent search_then_unknown
           (OpenRouterAgent.initial Sample.openrouter_agent "hi" None) Hcalls).
Defined.


(** X3 at a provider that never calls a tool. *)
Lemma openrouter_run_returns_when_the_provider_answers_witness :
  (∀ msgs, ∃ turn, Sample.silent (tools Sample.openrouter_agent) msgs = Ret (Some turn))
  ∧ ∃ text,
      OpenRouterAgent.run Sample.json_loads Sample.json_dumps Sample.not_a_mapping
        Sample.silent Sample.openrouter_agent "hi" None
      = Ret text.
Proof.
  assert (∀ msgs, ∃ turn,
            Sample.silent (tools Sample.openrouter_agent) msgs = Ret (Some turn))
    as Hllm by (intros msgs; eexists; reflexivity).
  split; [exact Hllm|].
  exact (openrouter_run_returns_when_the_provider_answers Sample.json_loads
           Sample.json_dumps Sample.not_a_mapping Sample.silent Sample.openrouter_agent
           "hi" None Hllm).
Defined.

(** X4 at the question agent of the samples. *)
Lemma run_ends_at_the_removed_completion_tool_witness :
  (0 < max_iterations Sample.openrouter_agent)%Z
  ∧ (OpenRouterAgent.run_state Sample.json_loads Sample.json_dumps
       Sample.not_a_mapping (Sample.completes "done")
       (OpenRouterAgent.remove_tool sentinel Sample.openrouter_agent) "hi" None).2
    = Ret "done"
  ∧ OpenRouterAgent.llm_calls
      (OpenRouterAgent.run_state Sample.json_loads Sample.json_dumps
         Sample.not_a_mapping (Sample.completes "done")
         (OpenRouterAgent.remove_tool sentinel Sample.openrouter_agent) "hi" None).1
    = 1
  ∧ OpenRouterAgent.invoked
      (OpenRouterAgent.run_state Sample.json_loads Sample.json_dumps
         Sample.not_a_mapping (Sample.completes "done")
         (OpenRouterAgent.remove_tool sentinel Sample.openrouter_agent) "hi" None).1
    = [].
Proof.
  split; [reflexivity|].
  exact (run_ends_at_the_removed_completion_tool Sample.json_loads Sample.json_dumps
           Sample.not_a_mapping (Sample.completes "done") Sample.openrouter_agent
           "hi" None (Some "done") "call_1" "{}" eq_refl eq_refl).
Defined.



(** X8 at the removal of [read_file], seen from [search]. *)
Lemma remove_tool_keeps_the_other_tools_witness :
  "search" ≠ "read_file"
  ∧ tool_mapping (remove_tool "read_file" Sample.openrouter_agent) !! "search"
    = tool_mapping Sample.openrouter_agent !! "search".
Proof.
  assert ("search" ≠ "read_file") as Hne by discriminate.
  split; [exact Hne|].
  exact (proj1 (remove_tool_keeps_the_other_tools "read_file" "search"
                  Sample.openrouter_agent (Sample.schema "search") Hne)).
Defined.

(** X11 at four questions and a pool without a timeout. *)
Lemma research_batch_holds_the_outcome_of_every_task_witness :
  times_out Sample.in_time
    (length (zip agent_names (py_iter Sample.four_questions))) = false
  ∧ ∃ results,
      (Sample.run_parallel_agents Sample.all_complete Sample.four_questions None
         Sample.in_time).2 = Ret results
      ∧ results
        ≡ₚ (λ nq, outcome_record nq.1
                    (Sample.agent_run Sample.all_complete nq.1 Sample.openrouter_agent
                       nq.2 None))
             <$> zip agent_names (py_iter Sample.four_questions)
      ∧ (length results ≤ 4)%nat.
Proof.
  split; [reflexivity|].
  exact (research_batch_holds_the_outcome_of_every_task Sample.openrouter_agent
           (Sample.agent_run Sample.all_complete) Sample.four_questions None
           Sample.in_time eq_refl).
Defined.

(** X12 at a provider that is down for the question agent. *)
Lemma failed_question_generation_stays_in_progress_witness :
  Sample.agent_run Sample.question_gen_down "question_gen"
    (remove_tool "mark_task_complete" Sample.openrouter_agent)
    (JStr (Sample.question_prompt "What is 2+2?")) None
  = Raise (mk_exn Exception "LLM call failed: Connection error.")
  ∧ caught (mk_exn Exception "LLM call failed: Connection error.") = false
  ∧ (Sample.orchestrate Sample.question_gen_down "What is 2+2?" None true
       Sample.in_time Sample.in_time).2
    = Raise (mk_exn Exception "LLM call failed: Connection error.")
  ∧ get_progress_status
      (Sample.orchestrate Sample.question_gen_down "What is 2+2?" None true
         Sample.in_time Sample.in_time).1
    = {| stage_progress := {[ "question_generation" := IN_PROGRESS ]};
         agent_progress := {[ "question_gen" := (PROCESSING, None) ]} |}.
Proof.
  assert (Sample.agent_run Sample.question_gen_down "question_gen"
            (remove_tool "mark_task_complete" Sample.openrouter_agent)
            (JStr (Sample.question_prompt "What is 2+2?")) None
          = Raise (mk_exn Exception "LLM call failed: Connection error.")) as Hrun
    by (vm_compute; reflexivity).
  split; [exact Hrun|]. split; [reflexivity|].
  exact (failed_question_generation_stays_in_progress Sample.openrouter_agent
           (Sample.agent_run Sample.question_gen_down) Sample.json_loads Sample.strip
           Sample.str_list Sample.question_prompt Sample.synthesis_prompt
           Sample.validation_prompt_1 Sample.validation_prompt_2
           Sample.final_synthesis_prompt "What is 2+2?" None true Sample.in_time
           Sample.in_time _ Hrun eq_refl).
Defined.

(** The provider is down for the synthesis agent. *)
Definition synthesis_down (key : string) : OpenRouterAgent.LLM :=
  if String.eqb key "synthesis" then Sample.down else Sample.all_complete key.

(** The research results of the sample run, in completion order. *)
Definition sample_research : list AgentResult :=
  [mk_result "research" "success" "answer of research" Measured;
   mk_result "analysis" "success" "answer of analysis" Measured;
   mk_result "alternatives" "success" "answer of alternatives" Measured;
   mk_result "verification" "success" "answer of verification" Measured].

(** X13 at that provider. *)
Lemma failed_first_synthesis_ends_the_run_witness :
  (Sample.generate_questions synthesis_down "What is 2+2?").2 = Ret Sample.four_questions
  ∧ (Sample.run_parallel_agents synthesis_down Sample.four_questions None
       Sample.in_time).2 = Ret sample_research
  ∧ Sample.agent_run synthesis_down "synthesis"
      (remove_all_tools Sample.openrouter_agent)
      (JStr (Sample.synthesis_prompt (agent_responses_text sample_research))) None
    = Raise (mk_exn Exception "LLM call failed: Connection error.")
  ∧ (Sample.orchestrate synthesis_down "What is 2+2?" None true Sample.in_time
       Sample.in_time).2
    = Raise (mk_exn Exception "LLM call failed: Connection error.")
  ∧ stage_progress
      (get_progress_status
         (Sample.orchestrate synthesis_down "What is 2+2?" None true Sample.in_time
            Sample.in_time).1) !! "first_synthesis" = Some FAILED.
Proof.
  assert ((Sample.generate_questions synthesis_down "What is 2+2?").2
          = Ret Sample.four_questions) as Hgq by (vm_compute; reflexivity).
  assert ((Sample.run_parallel_agents synthesis_down Sample.four_questions None
             Sample.in_time).2 = Ret sample_research) as Hrpa
    by (vm_compute; reflexivity).
  assert (Sample.agent_run synthesis_down "synthesis"
            (remove_all_tools Sample.openrouter_agent)
            (JStr (Sample.synthesis_prompt (agent_responses_text sample_research)))
            None
          = Raise (mk_exn Exception "LLM call failed: Connection error.")) as Hsyn
    by (vm_compute; reflexivity).
  split; [exact Hgq|]. split; [exact Hrpa|]. split; [exact Hsyn|].
  pose proof (failed_first_synthesis_ends_the_run Sample.openrouter_agent
                (Sample.agent_run synthesis_down) Sample.json_loads Sample.strip
                Sample.str_list Sample.question_prompt Sample.synthesis_prompt
                Sample.validation_prompt_1 Sample.validation_prompt_2
                Sample.final_synthesis_prompt "What is 2+2?" None true Sample.in_time
                Sample.in_time _ _ _ Hgq Hrpa Hsyn) as H.
  exact (conj (proj1 H) (proj1 (proj2 H))).
Defined.

(** X14 at a research pool whose timeout expires after three futures. *)
Lemma research_timeout_ends_the_run_witness :
  (Sample.generate_questions Sample.all_complete "What is 2+2?").2
  = Ret Sample.four_questions
  ∧ times_out Sample.late
      (length (zip agent_names (py_iter Sample.four_questions))) = true
  ∧ (Sample.orchestrate Sample.all_complete "What is 2+2?" None true Sample.late
       Sample.in_time).2
    = Raise (unfinished Sample.late 4)
  ∧ stage_progress
      (get_progress_status
         (Sample.orchestrate Sample.all_complete "What is 2+2?" None true Sample.late
            Sample.in_time).1) !! "parallel_research" = Some IN_PROGRESS.
Proof.
  assert ((Sample.generate_questions Sample.all_complete "What is 2+2?").2
          = Ret Sample.four_questions) as Hgq by (vm_compute; reflexivity).
  split; [exact Hgq|]. split; [reflexivity|].
  pose proof (research_timeout_ends_the_run Sample.openrouter_agent
                (Sample.agent_run Sample.all_complete) Sample.json_loads Sample.strip
                Sample.str_list Sample.question_prompt Sample.synthesis_prompt
                Sample.validation_prompt_1 Sample.validation_prompt_2
                Sample.final_synthesis_prompt "What is 2+2?" None true Sample.late
                Sample.in_time _ Hgq eq_refl) as H.
  exact (conj (proj1 H) (proj1 (proj2 H))).
Defined.

(** The critiques and the bundle of the sample run. *)
Definition sample_critiques : list AgentResult :=
  [mk_result "validator_1" "success" "answer of validator_1" Measured;
   mk_result "validator_2" "success" "answer of validator_2" Measured].

Definition sample_bundle : PipelineResult :=
  {| questions := Sample.four_questions;
     research_results := sample_research;
     first_draft := "answer of synthesis";
     validation_results := sample_critiques;
     final_result := "answer of final" |}.

(** X15 at a run in which every agent completes. *)
Lemma returned_run_leaves_every_entry_at_its_end_witness :
  (Sample.orchestrate Sample.all_complete "What is 2+2?" None true Sample.in_time
     Sample.in_time).2 = Ret sample_bundle
  ∧ Forall (λ stage,
       stage_progress
         (get_progress_status
            (Sample.orchestrate Sample.all_complete "What is 2+2?" None true
               Sample.in_time Sample.in_time).1) !! stage = Some COMPLETED)
      ["question_generation"; "parallel_research"; "first_synthesis"; "validation";
       "final_synthesis"].
Proof.
  assert ((Sample.orchestrate Sample.all_complete "What is 2+2?" None true
             Sample.in_time Sample.in_time).2 = Ret sample_bundle) as Hret
    by (vm_compute; reflexivity).
  split; [exact Hret|].
  exact (proj1 (returned_run_leaves_every_entry_at_its_end Sample.openrouter_agent
                  (Sample.agent_run Sample.all_complete) Sample.json_loads
                  Sample.strip Sample.str_list Sample.question_prompt
                  Sample.synthesis_prompt Sample.validation_prompt_1
                  Sample.validation_prompt_2 Sample.final_synthesis_prompt
                  "What is 2+2?" None true Sample.in_time Sample.in_time
                  sample_bundle Hret)).
Defined.


(** * The web server (web_server.py)

    The server answers a run request by creating a queue for the session and
    starting a worker thread that puts messages on it; a second request
    streams the queue to the client as server-sent events.  The messages are
    dictionaries tagged by their ['type']; they are modelled as a variant
    type.  [strip_special_chars] is a chain of regular-expression
    substitutions and stands as a variable. *)

Module WebServer.

(** ['content'] of a ['megamind_thinking'] message. *)
Record Thinking := mk_thinking {
  thinking_questions : JSON;
  thinking_research_results : list (string * string);   (* agent_id, response *)
  thinking_first_draft : string;
  thinking_validation_results : list (string * string)
}.

Inductive Message :=
| StatusMsg (message : string)                   (* 'type': 'status' *)
| ProgressMsg (agent_id : Z) (st : status)       (* 'type': 'progress' *)
| MegamindConfig                                 (* 'type': 'megamind_config' *)
| MegamindStage (stage : string) (st : status)   (* 'type': 'megamind_stage' *)
| MegamindAgent (agent_id : string) (st : status)   (* 'type': 'megamind_agent' *)
| MegamindThinking (content : Thinking)          (* 'type': 'megamind_thinking' *)
| ResultMsg (content : string)                   (* 'type': 'result' *)
| ErrorMsg (message : string)                    (* 'type': 'error' *)
| Heartbeat (elapsed : Z)                        (* 'type': 'heartbeat' *)
| Done.                                          (* 'type': 'done' *)

(** [data.get('type') == 'done'] *)
Definition is_done (data : Message) : bool :=
  match data with Done => true | _ => false end.

(** ** [stream_progress] *)

(** One turn of the [while True] loop of [generate]: what
    [q.get(timeout=0.5)] gave (an item of the queue, or [queue.Empty], after
    which [elapsed] whole seconds had passed since the start), and whether the
    consumer closed the generator at the [yield] of that turn
    ([GeneratorExit]). *)
Inductive turn :=
| Got (data : Message) (closed : bool)
| Empty (elapsed : Z) (closed : bool).

(** The loop of [generate] over the turns that have taken place: the data of
    the events it yielded, and whether it left the loop.  When the turns are
    used up and the loop has not ended, the generator is waiting in
    [q.get]. *)
Fixpoint relay (turns : list turn) : list Message * bool :=
  match turns with
  | [] => ([], false)
  | Got data closed :: rest =>
      if closed then ([data], true)                       (* except GeneratorExit *)
      else if is_done data then ([data], true)
      else let '(sent, ended) := relay rest in (data :: sent, ended)
  | Empty elapsed closed :: rest =>
      if closed then ([Heartbeat elapsed], true)
      else let '(sent, ended) := relay rest in (Heartbeat elapsed :: sent, ended)
  end.

(** [progress_queues] is modelled by the set of session identifiers that
    have a queue; the queues themselves are shared with the workers, and what
    they hold reaches [generate] as its turns. *)
Definition generate (session_id : string) (progress_queues : gset string)
    (turns : list turn) : list Message * gset string :=
  if decide (session_id ∈ progress_queues) then
    let '(sent, ended) := relay turns in
    (sent, if ended then progress_queues ∖ {[session_id]} else progress_queues)
  else ([ErrorMsg "Session not found"], progress_queues).

Section Stream.

(** [json.dumps] of a message. *)
Variable json_dumps : Message → string.

Definition stream_progress (session_id : string) (progress_queues : gset string)
    (turns : list turn) : list string * gset string :=
  let '(sent, queues) := generate session_id progress_queues turns in
  ((λ data, "data: " +:+ json_dumps data +:+ nl +:+ nl) <$> sent, queues).

End Stream.

(** ** The workers *)

(** The body of a run request: [data.get('query', '')],
    [data.get('session_id', 'default')], [data.get('images', [])]. *)
Record RunRequest := mk_request {
  request_query : option string;
  request_session_id : option string;
  request_images : option (list Image)
}.

Inductive Reply :=
| Success (session_id : string)          (* {'success': True, 'session_id': ...} *)
| BadRequest (error : string).           (* {'error': ...}, 400 *)

Section Workers.

Variable strip_special_chars : string → string.

(** [run_agent], the worker of [run_single_agent].  [create_agent] is the
    outcome of [create_agent(silent=True)], [agent_run] is [agent.run]. *)
Definition run_agent (create_agent : res Agent)
    (agent_run : Agent → string → option (list Image) → res string)
    (query : string) (images : list Image) : list Message :=
  [StatusMsg "Initializing agent..."; ProgressMsg 0 PROCESSING]
  ++ match create_agent with
     | Ret agent =>
         StatusMsg "Processing query..."
         :: match agent_run agent query (Some images) with
            | Ret response =>
                let formatted_response := strip_special_chars response in
                [ProgressMsg 0 COMPLETED; ResultMsg formatted_response; Done]
            | Raise e => [ProgressMsg 0 FAILED; ErrorMsg (exn_msg e); Done]
            end
     | Raise e => [ProgressMsg 0 FAILED; ErrorMsg (exn_msg e); Done]
     end.

(** The handler: the reply, the sessions with a queue, and the messages the
    worker it started puts on the new queue. *)
Definition run_single_agent (create_agent : res Agent)
    (agent_run : Agent → string → option (list Image) → res string)
    (data : RunRequest) (progress_queues : gset string)
    : Reply * gset string * option (list Message) :=
  let query := default "" (request_query data) in
  let session_id := default "default" (request_session_id data) in
  let images := default [] (request_images data) in
  if String.eqb query "" then (BadRequest "Query is required", progress_queues, None)
  else (Success session_id, {[session_id]} ∪ progress_queues,
        Some (run_agent create_agent agent_run query images)).

(** [thinking_data] *)
Definition thinking_data (result_data : PipelineResult) : Thinking :=
  {| thinking_questions := questions result_data;
     thinking_research_results :=
       (λ r, (agent_id r, strip_special_chars (response r)))
         <$> research_results result_data;
     thinking_first_draft := strip_special_chars (first_draft result_data);
     thinking_validation_results :=
       (λ r, (agent_id r, strip_special_chars (response r)))
         <$> validation_results result_data |}.

(** What [status_callback] puts on the queue during a run with the given
    log. *)
Definition status_callback (log : list event) : list Message :=
  omap (λ ev, match ev with Callback msg => Some (StatusMsg msg) | _ => None end) log.

(** [run_megamind_orchestrator], the worker of [run_megamind].
    [new_orchestrator] is the outcome of [MegamindOrchestrator(silent=True)],
    [run] the outcome of [orchestrator.orchestrate(query, images=images,
    status_callback=status_callback)]. *)
Definition run_megamind_orchestrator (new_orchestrator : res unit)
    (run : M PipelineResult) : list Message :=
  [StatusMsg "Initializing Megamind orchestrator..."; MegamindConfig]
  ++ match new_orchestrator with
     | Ret _ =>
         status_callback run.1
         ++ match run.2 with
            | Ret result_data =>
                let formatted_result := strip_special_chars (final_result result_data) in
                [MegamindThinking (thinking_data result_data);
                 ResultMsg formatted_result; Done]
            | Raise e => [ErrorMsg (exn_msg e); Done]
            end
     | Raise e => [ErrorMsg (exn_msg e); Done]
     end.

(** The handler [run_megamind]; [orchestrate] is the method of the
    orchestrator the worker creates, taking the query, the images and whether
    a status callback is given. *)
Definition run_megamind (new_orchestrator : res unit)
    (orchestrate : string → option (list Image) → bool → M PipelineResult)
    (data : RunRequest) (progress_queues : gset string)
    : Reply * gset string * option (list Message) :=
  let query := default "" (request_query data) in
  let session_id := default "default" (request_session_id data) in
  let images := default [] (request_images data) in
  if String.eqb query "" then (BadRequest "Query is required", progress_queues, None)
  else (Success session_id, {[session_id]} ∪ progress_queues,
        Some (run_megamind_orchestrator new_orchestrator
                (orchestrate query (Some images) true))).

End Workers.

(** ** [progress_monitor] *)

(** The keys of [last_status]. *)
Definition stage_key (stage : string) : string := "stage_" +:+ stage.
Definition agent_key (agent_id : string) : string := "agent_" +:+ agent_id.

(** The bodies of the two [for] loops over a snapshot; the accumulator holds
    the messages put so far and [last_status]. *)
Definition report_stage (acc : list Message * gmap string status)
    (item : string * status) : list Message * gmap string status :=
  let '(stage, st) := item in
  if decide (acc.2 !! stage_key stage = Some st) then acc
  else (acc.1 ++ [MegamindStage stage st], <[stage_key stage := st]> acc.2).

Definition report_agent (acc : list Message * gmap string status)
    (item : string * (status * option string)) : list Message * gmap string status :=
  let '(agent_id, info) := item in
  let agent_status := info.1 in
  if decide (acc.2 !! agent_key agent_id = Some agent_status) then acc
  else (acc.1 ++ [MegamindAgent agent_id agent_status],
        <[agent_key agent_id := agent_status]> acc.2).

(** One turn of the monitor's loop on the snapshot [current].  The source
    walks each dictionary in insertion order; the maps of the store list
    their entries in an order of their own, so the messages of one turn may
    come in another order here.  The properties below follow one key at a
    time and do not depend on it. *)
Definition poll (acc : list Message * gmap string status) (current : Progress)
    : list Message * gmap string status :=
  foldl report_agent
    (foldl report_stage acc (map_to_list (stage_progress current)))
    (map_to_list (agent_progress current)).

(** The messages the monitor puts over the given snapshots, starting from an
    empty [last_status]. *)
Definition progress_monitor (snapshots : list Progress) : list Message :=
  (foldl poll ([], ∅) snapshots).1.

(** The snapshots the monitor takes of a run, when it calls
    [get_progress_status] after the given numbers of steps of the log. *)
Definition snapshots (log : list event) (positions : list nat) : list Progress :=
  (λ n, get_progress_status (take n log)) <$> positions.

(** The queue of a Megamind session: the messages of the worker and of the
    monitor it starts, in the order the schedule has the two threads put
    them. *)
Definition megamind_queue (worker monitor : list Message) (sched : list nat)
    : list Message :=
  interleave sched [worker; monitor].

(** ** Observations *)

Definition is_heartbeat (data : Message) : bool :=
  match data with Heartbeat _ => true | _ => false end.

(** The events of a stream without its heartbeats. *)
Definition payload (sent : list Message) : list Message :=
  filter (λ data, is_heartbeat data = false) sent.

Definition shown (t : turn) : Message :=
  match t with Got data _ => data | Empty elapsed _ => Heartbeat elapsed end.

Definition closed (t : turn) : bool :=
  match t with Got _ c | Empty _ c => c end.

(** The turn is the last one of the loop. *)
Definition ends (t : turn) : bool :=
  closed t || match t with Got data _ => is_done data | Empty _ _ => false end.

(** The items taken from the queue. *)
Definition got (turns : list turn) : list Message :=
  omap (λ t, match t with Got data _ => Some data | Empty _ _ => None end) turns.

Definition stage_sent (key : string) (msgs : list Message) : list status :=
  omap (λ m, match m with
             | MegamindStage stage st => if decide (stage = key) then Some st else None
             | _ => None
             end) msgs.

Definition agent_sent (key : string) (msgs : list Message) : list status :=
  omap (λ m, match m with
             | MegamindAgent agent_id st =>
                 if decide (agent_id = key) then Some st else None
             | _ => None
             end) msgs.

End WebServer.

(** * Properties of the web server *)

Import WebServer.

(** ** The event stream *)

(** X17.  The stream relays the turns of its loop in order, an item of the
    queue as it is and a heartbeat for every wait that timed out, and it
    leaves the loop at the first turn that takes a ['done'] message or at
    which the consumer closes the stream, and at no other: nothing is taken
    from the queue after that turn, and while no such turn has come, every
    turn has been relayed and the generator is still waiting. *)
Theorem stream_relays_in_order_up_to_the_first_done (turns : list turn) :
  ∃ relayed rest,
    turns = relayed ++ rest
    ∧ (relay turns).1 = shown <$> relayed
    ∧ Forall (λ t, ends t = false) (removelast relayed)
    ∧ (if (relay turns).2
       then ∃ t, last relayed = Some t ∧ ends t = true
       else rest = [] ∧ Forall (λ t, ends t = false) relayed).
Proof.
  induction turns as [|t turns IH].
  - exists [], []. by repeat split.
  - destruct IH as (relayed & rest & Hturns & Hsent & Hbefore & Hend).
    assert (ends t = true
            → ∃ relayed' rest',
                t :: turns = relayed' ++ rest'
                ∧ (relay (t :: turns)).1 = shown <$> relayed'
                ∧ Forall (λ t, ends t = false) (removelast relayed')
                ∧ (relay (t :: turns)).2 = true
                ∧ ∃ t', last relayed' = Some t' ∧ ends t' = true) as Hstop.
    { intros Ht. exists [t], turns.
      assert ((relay (t :: turns)) = ([shown t], true)) as ->.
      { destruct t as [data [|]|elapsed [|]]; try done.
        unfold ends in Ht. simpl in Ht. simpl. by rewrite Ht. }
      repeat split; [constructor|]. by exists t. }
    destruct (ends t) eqn:Ht.
    { destruct (Hstop eq_refl) as (r' & rest' & ? & ? & ? & Hr & ?).
      exists r', rest'. by rewrite Hr. }
    assert ((relay (t :: turns)).1 = shown t :: (relay turns).1
            ∧ (relay (t :: turns)).2 = (relay turns).2) as [Hs He].
    { destruct t as [data [|]|elapsed [|]]; try done.
      - unfold ends in Ht. simpl in Ht. simpl. rewrite Ht.
        by destruct (relay turns).
      - simpl. by destruct (relay turns). }
    exists (t :: relayed), rest. rewrite Hs, He, Hsent.
    split; [by rewrite Hturns|]. split; [done|]. split.
    + destruct relayed as [|t' relayed]; [apply Forall_nil_2|].
      change (removelast (t :: t' :: relayed)) with (t :: removelast (t' :: relayed)).
      by constructor.
    + destruct (relay turns).2.
      * destruct Hend as (t' & Hlast & Ht'). exists t'. split; [|done].
        destruct relayed; [done|]. done.
      * destruct Hend as [-> Hall]. split; [done|]. by constructor.
Qed.

(** ** The progress monitor *)

(** What following one key over a sequence of snapshots puts on the queue:
    [last] is the entry of [last_status], [obs] the status of the key in each
    snapshot. *)
Fixpoint track (last : option status) (obs : list (option status)) : list status :=
  match obs with
  | [] => []
  | Some st :: obs' =>
      if decide (last = Some st) then track (Some st) obs' else st :: track (Some st) obs'
  | None :: obs' => track last obs'
  end.

(** From one observation to the next the entry is unchanged or has moved
    strictly forward in the chain. *)
Definition advances (o o' : option status) : Prop :=
  o' = o ∨ ∃ st', o' = Some st' ∧ (from_option rank 0 o < rank st')%nat.

Fixpoint chain (obs : list (option status)) : Prop :=
  match obs with
  | o :: ((o' :: _) as rest) => advances o o' ∧ chain rest
  | _ => True
  end.

Lemma stage_key_inj a b : stage_key a = stage_key b → a = b.
Proof. unfold stage_key. intros H. vm_compute in H. by injection H. Qed.

Lemma agent_key_inj a b : agent_key a = agent_key b → a = b.
Proof. unfold agent_key. intros H. vm_compute in H. by injection H. Qed.

Lemma stage_key_agent_key a b : stage_key a ≠ agent_key b.
Proof. unfold stage_key, agent_key. intros H. vm_compute in H. discriminate. Qed.

Lemma stage_sent_app key l1 l2 :
  stage_sent key (l1 ++ l2) = stage_sent key l1 ++ stage_sent key l2.
Proof. apply omap_app. Qed.

Lemma agent_sent_app key l1 l2 :
  agent_sent key (l1 ++ l2) = agent_sent key l1 ++ agent_sent key l2.
Proof. apply omap_app. Qed.

Lemma report_stage_fold (key : string) (l : list (string * status)) : ∀ acc,
  NoDup l.*1 →
  stage_sent key (foldl report_stage acc l).1
  = stage_sent key acc.1
    ++ track (acc.2 !! stage_key key) [(list_to_map l : gmap string status) !! key]
  ∧ (foldl report_stage acc l).2 !! stage_key key
    = match (list_to_map l : gmap string status) !! key with
      | Some st => Some st
      | None => acc.2 !! stage_key key
      end
  ∧ agent_sent key (foldl report_stage acc l).1 = agent_sent key acc.1
  ∧ (foldl report_stage acc l).2 !! agent_key key = acc.2 !! agent_key key.
Proof.
  induction l as [|[k st] l IH]; intros acc Hnd.
  - simpl. rewrite lookup_empty. simpl. by rewrite app_nil_r.
  - cbn [fmap list_fmap fst] in Hnd. apply NoDup_cons in Hnd as [Hk Hnd].
    cbn [foldl list_to_map foldr]. cbn [fst snd uncurry].
    destruct (IH (report_stage acc (k, st)) Hnd) as (IH1 & IH2 & IH3 & IH4).
    rewrite IH1, IH2, IH3, IH4. clear IH IH1 IH2 IH3 IH4.
    assert (agent_sent key (report_stage acc (k, st)).1 = agent_sent key acc.1
            ∧ (report_stage acc (k, st)).2 !! agent_key key = acc.2 !! agent_key key)
      as [-> ->].
    { unfold report_stage. destruct (decide (acc.2 !! stage_key k = Some st)); [done|].
      simpl. rewrite agent_sent_app. simpl. rewrite app_nil_r.
      rewrite lookup_insert_ne by apply stage_key_agent_key. done. }
    destruct (decide (k = key)) as [->|Hne].
    + rewrite lookup_insert_eq.
      rewrite (not_elem_of_list_to_map_1 l key Hk). cbn [track].
      unfold report_stage.
      destruct (decide (acc.2 !! stage_key key = Some st)) as [Heq|Hneq].
      * rewrite app_nil_r. by rewrite Heq.
      * cbn [fst snd]. rewrite stage_sent_app, lookup_insert_eq. simpl.
        rewrite decide_True by done. rewrite app_nil_r. done.
    + rewrite lookup_insert_ne by done.
      assert (stage_sent key (report_stage acc (k, st)).1 = stage_sent key acc.1
              ∧ (report_stage acc (k, st)).2 !! stage_key key = acc.2 !! stage_key key)
        as [-> ->]; [|done].
      unfold report_stage. destruct (decide (acc.2 !! stage_key k = Some st)); [done|].
      cbn [fst snd]. rewrite stage_sent_app. simpl.
      rewrite decide_False by done. rewrite app_nil_r.
      rewrite lookup_insert_ne; [done|]. intros H. by apply stage_key_inj in H.
Qed.

Lemma report_agent_fold (key : string) (l : list (string * (status * option string))) :
  ∀ acc,
  NoDup l.*1 →
  agent_sent key (foldl report_agent acc l).1
  = agent_sent key acc.1
    ++ track (acc.2 !! agent_key key)
         [fst <$> (list_to_map l : gmap string (status * option string)) !! key]
  ∧ (foldl report_agent acc l).2 !! agent_key key
    = match (list_to_map l : gmap string (status * option string)) !! key with
      | Some info => Some info.1
      | None => acc.2 !! agent_key key
      end
  ∧ stage_sent key (foldl report_agent acc l).1 = stage_sent key acc.1
  ∧ (foldl report_agent acc l).2 !! stage_key key = acc.2 !! stage_key key.
Proof.
  induction l as [|[k [st result]] l IH]; intros acc Hnd.
  - simpl. rewrite lookup_empty. simpl. by rewrite app_nil_r.
  - cbn [fmap list_fmap fst] in Hnd. apply NoDup_cons in Hnd as [Hk Hnd].
    cbn [foldl list_to_map foldr]. cbn [fst snd uncurry].
    destruct (IH (report_agent acc (k, (st, result))) Hnd) as (IH1 & IH2 & IH3 & IH4).
    rewrite IH1, IH2, IH3, IH4. clear IH IH1 IH2 IH3 IH4.
    assert (stage_sent key (report_agent acc (k, (st, result))).1 = stage_sent key acc.1
            ∧ (report_agent acc (k, (st, result))).2 !! stage_key key
              = acc.2 !! stage_key key) as [-> ->].
    { unfold report_agent. cbn [fst snd].
      destruct (decide (acc.2 !! agent_key k = Some st)); [done|].
      simpl. rewrite stage_sent_app. simpl. rewrite app_nil_r.
      rewrite lookup_insert_ne; [done|]. intros H. symmetry in H.
      by apply stage_key_agent_key in H. }
    destruct (decide (k = key)) as [->|Hne].
    + rewrite lookup_insert_eq.
      rewrite (not_elem_of_list_to_map_1 l key Hk). cbn [track fmap option_fmap option_map fst].
      unfold report_agent. cbn [fst snd].
      destruct (decide (acc.2 !! agent_key key = Some st)) as [Heq|Hneq].
      * rewrite app_nil_r. by rewrite Heq.
      * cbn [fst snd]. rewrite agent_sent_app, lookup_insert_eq. simpl.
        rewrite decide_True by done. rewrite app_nil_r. done.
    + rewrite lookup_insert_ne by done.
      assert (agent_sent key (report_agent acc (k, (st, result))).1 = agent_sent key acc.1
              ∧ (report_agent acc (k, (st, result))).2 !! agent_key key
                = acc.2 !! agent_key key) as [-> ->]; [|done].
      unfold report_agent. cbn [fst snd].
      destruct (decide (acc.2 !! agent_key k = Some st)); [done|].
      cbn [fst snd]. rewrite agent_sent_app. simpl.
      rewrite decide_False by done. rewrite app_nil_r.
      rewrite lookup_insert_ne; [done|]. intros H. by apply agent_key_inj in H.
Qed.

Lemma track_app last obs1 obs2 :
  track last (obs1 ++ obs2)
  = track last obs1
    ++ track (foldl (λ l o, match o with Some st => Some st | None => l end) last obs1)
         obs2.
Proof.
  revert last. induction obs1 as [|[st|] obs1 IH]; intros last; simpl; [done| |done].
  destruct (decide (last = Some st)); by rewrite IH.
Qed.

Lemma poll_key (key : string) (acc : list Message * gmap string status)
    (current : Progress) :
  stage_sent key (poll acc current).1
  = stage_sent key acc.1
    ++ track (acc.2 !! stage_key key) [stage_progress current !! key]
  ∧ (poll acc current).2 !! stage_key key
    = match stage_progress current !! key with
      | Some st => Some st
      | None => acc.2 !! stage_key key
      end
  ∧ agent_sent key (poll acc current).1
    = agent_sent key acc.1
      ++ track (acc.2 !! agent_key key) [fst <$> agent_progress current !! key]
  ∧ (poll acc current).2 !! agent_key key
    = match agent_progress current !! key with
      | Some info => Some info.1
      | None => acc.2 !! agent_key key
      end.
Proof.
  unfold poll.
  destruct (report_stage_fold key (map_to_list (stage_progress current)) acc
              (NoDup_fst_map_to_list _)) as (S1 & S2 & S3 & S4).
  destruct (report_agent_fold key (map_to_list (agent_progress current))
              (foldl report_stage acc (map_to_list (stage_progress current)))
              (NoDup_fst_map_to_list _)) as (A1 & A2 & A3 & A4).
  rewrite list_to_map_to_list in S1. rewrite list_to_map_to_list in S2.
  rewrite list_to_map_to_list in A1. rewrite list_to_map_to_list in A2.
  rewrite A1, A2, A3, A4, S1, S2, S3, S4. done.
Qed.

Lemma monitor_tracks (key : string) (polls : list Progress) : ∀ acc,
  stage_sent key (foldl poll acc polls).1
  = stage_sent key acc.1
    ++ track (acc.2 !! stage_key key) ((λ p, stage_progress p !! key) <$> polls)
  ∧ agent_sent key (foldl poll acc polls).1
    = agent_sent key acc.1
      ++ track (acc.2 !! agent_key key)
           ((λ p, fst <$> agent_progress p !! key) <$> polls).
Proof.
  induction polls as [|p polls IH]; intros acc.
  - simpl. by rewrite !app_nil_r.
  - cbn [foldl fmap list_fmap].
    destruct (IH (poll acc p)) as [IHs IHa]. rewrite IHs, IHa.
    destruct (poll_key key acc p) as (S1 & S2 & A1 & A2).
    rewrite S1, S2, A1, A2, <- !app_assoc.
    change (?o :: ?l) with ([o] ++ l) at 2 4. rewrite !track_app. cbn [foldl].
    split; f_equal; f_equal; try done.
    by destruct (agent_progress p !! key) as [[]|].
Qed.

Lemma rank_pos st : (0 < rank st)%nat.
Proof. destruct st; simpl; lia. Qed.

Lemma track_sorted (obs : list (option status)) : ∀ l0,
  chain (l0 :: obs) →
  StronglySorted lt (rank <$> track l0 obs)
  ∧ Forall (λ r, (from_option rank 0 l0 < r)%nat) (rank <$> track l0 obs).
Proof.
  induction obs as [|o obs IH]; intros l0 Hchain.
  - split; constructor.
  - destruct Hchain as [Hadv Hchain]. destruct o as [st|].
    + destruct (IH (Some st) Hchain) as [Hsorted Hall]. cbn [track].
      destruct (decide (l0 = Some st)) as [->|Hne]; [done|].
      destruct Hadv as [<-|(st' & [= <-] & Hlt)]; [done|].
      cbn [fmap list_fmap]. split.
      * by constructor.
      * constructor; [done|]. eapply Forall_impl; [exact Hall|].
        simpl. intros r Hr. lia.
    + destruct Hadv as [<-|(st' & ? & _)]; [|done]. cbn [track]. by apply IH.
Qed.

Lemma track_last (obs : list (option status)) : ∀ l0 prefix,
  chain (l0 :: obs) → last prefix = l0 →
  last (prefix ++ track l0 obs) = default l0 (last obs).
Proof.
  induction obs as [|o obs IH]; intros l0 prefix Hchain Hlast.
  - simpl. by rewrite app_nil_r.
  - destruct Hchain as [Hadv Hchain]. rewrite last_cons. destruct o as [st|].
    + cbn [track]. destruct (decide (l0 = Some st)) as [->|Hne].
      * rewrite (IH (Some st) prefix Hchain Hlast). by destruct (last obs).
      * rewrite (cons_middle st prefix), app_assoc.
        rewrite (IH (Some st) (prefix ++ [st]) Hchain) by apply last_snoc.
        by destruct (last obs).
    + destruct Hadv as [<-|(st' & ? & _)]; [|done]. cbn [track].
      rewrite (IH None prefix Hchain Hlast). by destruct (last obs).
Qed.

(** On a monotonic log, an entry of a later snapshot is the entry of the
    earlier one or stands strictly further along the chain. *)
Lemma entry_advances (before rest : list event) (key : string) :
  monotonic (before ++ rest) = true →
  advances (stage_progress (get_progress_status before) !! key)
           (stage_progress (get_progress_status (before ++ rest)) !! key)
  ∧ advances (fst <$> agent_progress (get_progress_status before) !! key)
             (fst <$> agent_progress (get_progress_status (before ++ rest)) !! key).
Proof.
  intros Hmono. apply monotonic_app in Hmono as (_ & _ & Hcross).
  rewrite cross_spec in Hcross.
  unfold get_progress_status. rewrite foldl_app.
  set (empty := {| stage_progress := ∅; agent_progress := ∅ |}).
  set (p := foldl apply_event empty before).
  assert (∀ st, stage_progress p !! key = Some st → StageUpdate key st ∈ before) as Hs.
  { intros st Hst. destruct (stage_after before empty key) as [Heq|(st' & Hin & Heq)];
      fold p in Heq; rewrite Hst in Heq; [done|]. by injection Heq as ->. }
  assert (∀ st result, agent_progress p !! key = Some (st, result) →
            AgentUpdate key st result ∈ before) as Ha.
  { intros st result Hst.
    destruct (agent_after before empty key) as [Heq|(st' & r' & Hin & Heq)];
      fold p in Heq; rewrite Hst in Heq; [done|]. by injection Heq as -> ->. }
  split.
  - destruct (stage_after rest p key) as [->|(st' & Hin & ->)]; [by left|].
    right. exists st'. split; [done|].
    destruct (stage_progress p !! key) as [st|] eqn:Hp; simpl; [|apply rank_pos].
    exact (forward_stage _ _ _ (Hcross _ _ (Hs _ eq_refl) Hin)).
  - destruct (agent_after rest p key) as [->|(st' & r' & Hin & ->)]; [by left|].
    right. exists st'. split; [done|].
    destruct (agent_progress p !! key) as [[st r]|] eqn:Hp; simpl; [|apply rank_pos].
    exact (forward_agent _ _ _ _ _ (Hcross _ _ (Ha _ _ eq_refl) Hin)).
Qed.

Lemma snapshot_advances (log : list event) (n n' : nat) (key : string) :
  monotonic log = true → (n ≤ n')%nat →
  advances (stage_progress (get_progress_status (take n log)) !! key)
           (stage_progress (get_progress_status (take n' log)) !! key)
  ∧ advances (fst <$> agent_progress (get_progress_status (take n log)) !! key)
             (fst <$> agent_progress (get_progress_status (take n' log)) !! key).
Proof.
  intros Hmono Hle.
  assert (take n log ++ drop n (take n' log) = take n' log) as Hsplit.
  { assert (take n log = take n (take n' log)) as ->; [|apply take_drop].
    rewrite take_take. f_equal. lia. }
  rewrite <- Hsplit. apply entry_advances. rewrite Hsplit.
  rewrite <- (take_drop n' log) in Hmono. by apply monotonic_app in Hmono as [? _].
Qed.

Lemma snapshots_chain (log : list event) (key : string) (positions : list nat) :
  monotonic log = true → ∀ n, StronglySorted le (n :: positions) →
  chain ((λ p, stage_progress p !! key) <$> snapshots log (n :: positions))
  ∧ chain ((λ p, fst <$> agent_progress p !! key) <$> snapshots log (n :: positions)).
Proof.
  intros Hmono. induction positions as [|n' positions IH]; intros n Hsorted; [done|].
  apply StronglySorted_inv in Hsorted as [Hrest Hall].
  apply Forall_cons in Hall as [Hle _].
  destruct (IH n' Hrest) as [IHs IHa].
  destruct (snapshot_advances log n n' key Hmono Hle) as [Hs Ha].
  split; (split; [done|]); done.
Qed.

Lemma sorted_bounded (l : list nat) (lo hi : nat) :
  StronglySorted lt l → Forall (λ r, (lo < r ≤ hi)%nat) l → (length l ≤ hi - lo)%nat.
Proof.
  revert lo. induction l as [|x l IH]; intros lo Hsorted Hall; simpl; [lia|].
  apply StronglySorted_inv in Hsorted as [Hsorted Hx].
  apply Forall_cons in Hall as [Hlo Hall].
  assert (length l ≤ hi - x)%nat; [|lia].
  apply IH; [done|]. rewrite Forall_forall in *. intros r Hr.
  specialize (Hx r Hr). specialize (Hall r Hr). lia.
Qed.

Lemma monitor_on_monotonic_log (log : list event) (positions : list nat) (key : string) :
  monotonic log = true → StronglySorted le positions →
  let sent := progress_monitor (snapshots log positions) in
  let final := get_progress_status (take (default 0 (last positions)) log) in
  StronglySorted lt (rank <$> stage_sent key sent)
  ∧ StronglySorted lt (rank <$> agent_sent key sent)
  ∧ (length (stage_sent key sent) ≤ 3)%nat
  ∧ (length (agent_sent key sent) ≤ 3)%nat
  ∧ last (stage_sent key sent) = stage_progress final !! key
  ∧ last (agent_sent key sent) = fst <$> agent_progress final !! key.
Proof.
  intros Hmono Hsorted sent final. subst sent final. unfold progress_monitor.
  destruct (monitor_tracks key (snapshots log positions) ([], ∅)) as [-> ->].
  cbn [fst snd stage_sent agent_sent omap list_omap app]. rewrite !lookup_empty.
  destruct (snapshots_chain log key positions Hmono 0) as [Hs Ha].
  { constructor; [done|]. apply Forall_forall. intros; lia. }
  unfold snapshots in Hs, Ha. cbn [fmap list_fmap take] in Hs, Ha.
  change (stage_progress (get_progress_status []) !! key) with (None : option status)
    in Hs.
  change (fst <$> agent_progress (get_progress_status []) !! key)
    with (None : option status) in Ha.
  fold (snapshots log positions) in Hs, Ha.
  destruct (track_sorted _ _ Hs) as [Hs1 Hs2].
  destruct (track_sorted _ _ Ha) as [Ha1 Ha2].
  pose proof (track_last _ None [] Hs eq_refl) as Hs3.
  pose proof (track_last _ None [] Ha eq_refl) as Ha3.
  cbn [app] in Hs3, Ha3.
  split; [done|]. split; [done|]. split; [|split; [|split]].
  - rewrite <- (length_fmap rank). apply (sorted_bounded _ 0 3); [done|].
    rewrite Forall_forall in *. intros r Hr. split; [by apply Hs2|].
    apply list_elem_of_fmap in Hr as (st & -> & _). apply rank_le_3.
  - rewrite <- (length_fmap rank). apply (sorted_bounded _ 0 3); [done|].
    rewrite Forall_forall in *. intros r Hr. split; [by apply Ha2|].
    apply list_elem_of_fmap in Hr as (st & -> & _). apply rank_le_3.
  - rewrite Hs3. unfold snapshots. rewrite <- list_fmap_compose, fmap_last.
    by destruct (last positions).
  - rewrite Ha3. unfold snapshots. rewrite <- list_fmap_compose, fmap_last.
    by destruct (last positions).
Qed.

Section Monitor.

Variable create_agent : Agent.
Variable agent_run : string → Agent → JSON → option (list Image) → res string.
Variable json_loads : string → res JSON.
Variable strip : string → string.
Variable str_list : list string → string.
Variable question_prompt : string → string.
Variable synthesis_prompt : string → string.
Variable validation_prompt_1 validation_prompt_2 : string → string → string.
Variable final_synthesis_prompt : string → string → string → string → string.

(** X18.  The progress monitor of a Megamind session polls the store of
    the run and puts a message for every entry that differs from what it
    last reported.  Whatever the moments of its polls, the statuses it
    reports for one stage or one agent move strictly forward in the chain
    queued, in progress, completed or failed: no status is reported twice, a
    key gets at most three messages, and the last status reported for a key
    is the one the store held at the last poll. *)
Theorem monitor_reports_each_entry_moving_forward
    (user_input : string) (images : option (list Image)) (status_callback : bool)
    (research validation : Pool) (positions : list nat) (key : string) :
  let log := (orchestrate create_agent agent_run json_loads strip str_list
                question_prompt synthesis_prompt validation_prompt_1
                validation_prompt_2 final_synthesis_prompt user_input images
                status_callback research validation).1 in
  let sent := progress_monitor (snapshots log positions) in
  let final := get_progress_status (take (default 0 (last positions)) log) in
  StronglySorted le positions →
  StronglySorted lt (rank <$> stage_sent key sent)
  ∧ StronglySorted lt (rank <$> agent_sent key sent)
  ∧ (length (stage_sent key sent) ≤ 3)%nat
  ∧ (length (agent_sent key sent) ≤ 3)%nat
  ∧ last (stage_sent key sent) = stage_progress final !! key
  ∧ last (agent_sent key sent) = fst <$> agent_progress final !! key.
Proof.
  intros log sent final Hsorted. apply monitor_on_monotonic_log; [|done].
  apply orchestrate_monotonic.
Qed.

End Monitor.

(** ** Workers and their streams *)

(** The messages of a queue up to its first ['done']. *)
Fixpoint up_to_done (msgs : list Message) : list Message :=
  match msgs with
  | [] => []
  | data :: rest => if is_done data then [data] else data :: up_to_done rest
  end.

Lemma relay_payload (turns : list turn) :
  Forall (λ t, closed t = false) turns →
  payload (relay turns).1 = payload (up_to_done (got turns))
  ∧ (relay turns).2 = existsb is_done (got turns).
Proof.
  induction turns as [|t turns IH]; intros Hopen; [done|].
  apply Forall_cons in Hopen as [Ht Hopen]. destruct (IH Hopen) as [IH1 IH2].
  destruct t as [data c|elapsed c]; simpl in Ht; subst c; cbn [relay got omap list_omap].
  - cbn [up_to_done existsb]. destruct (is_done data) eqn:Hd; [done|].
    destruct (relay turns) as [sent ended]. simpl in *.
    unfold payload in *. rewrite !filter_cons. rewrite IH1, IH2.
    by destruct (decide (is_heartbeat data = false)).
  - destruct (relay turns) as [sent ended]. simpl in *.
    unfold payload in *. by rewrite filter_cons.
Qed.

Lemma up_to_done_app (pre post : list Message) :
  Forall (λ m, is_done m = false) pre →
  up_to_done (pre ++ Done :: post) = pre ++ [Done]
  ∧ existsb is_done (pre ++ Done :: post) = true.
Proof.
  induction pre as [|m pre IH]; intros Hpre; [done|].
  apply Forall_cons in Hpre as [Hm Hpre]. destruct (IH Hpre) as [IH1 IH2].
  simpl. by rewrite Hm, IH1, IH2.
Qed.

Lemma payload_id (msgs : list Message) :
  Forall (λ m, is_heartbeat m = false) msgs → payload msgs = msgs.
Proof.
  intros H. unfold payload. induction H as [|m msgs Hm H IH]; [done|].
  rewrite filter_cons, decide_True by done. by rewrite IH.
Qed.

(** A queue that is streamed to a consumer who does not close the stream,
    and that holds a ['done']. *)
Lemma stream_of_queue (session_id : string) (progress_queues : gset string)
    (turns : list turn) (pre post : list Message) :
  Forall (λ t, closed t = false) turns →
  got turns = pre ++ Done :: post →
  Forall (λ m, is_done m = false) pre →
  Forall (λ m, is_heartbeat m = false) pre →
  let out := generate session_id ({[session_id]} ∪ progress_queues) turns in
  payload out.1 = pre ++ [Done]
  ∧ out.2 = progress_queues ∖ {[session_id]}.
Proof.
  intros Hopen Hgot Hpre Hhb out. subst out. unfold generate.
  rewrite decide_True by set_solver.
  destruct (relay_payload turns Hopen) as [Hp He].
  destruct (up_to_done_app pre post Hpre) as [Hu Hex].
  rewrite Hgot, Hu in Hp. rewrite Hgot, Hex in He.
  destruct (relay turns) as [sent ended]. simpl in *. subst ended.
  split.
  2: { apply set_eq. intros x.
       rewrite !elem_of_difference, elem_of_union, elem_of_singleton. tauto. }
  rewrite Hp. apply payload_id. apply Forall_app. split; [done|]. by repeat constructor.
Qed.

Section SingleAgent.

Variable strip_special_chars : string → string.
Variable create_agent : res Agent.
Variable agent_run : Agent → string → option (list Image) → res string.

Lemma run_agent_ends_with_done query images :
  ∃ pre, run_agent strip_special_chars create_agent agent_run query images
         = pre ++ [Done]
         ∧ Forall (λ m, is_done m = false) pre
         ∧ Forall (λ m, is_heartbeat m = false) pre.
Proof.
  unfold run_agent. destruct create_agent as [agent|e].
  - destruct (agent_run agent query (Some images)) as [response|e].
    + exists [StatusMsg "Initializing agent..."; ProgressMsg 0 PROCESSING;
              StatusMsg "Processing query..."; ProgressMsg 0 COMPLETED;
              ResultMsg (strip_special_chars response)].
      split; [done|]. split; by repeat constructor.
    + exists [StatusMsg "Initializing agent..."; ProgressMsg 0 PROCESSING;
              StatusMsg "Processing query..."; ProgressMsg 0 FAILED;
              ErrorMsg (exn_msg e)].
      split; [done|]. split; by repeat constructor.
  - exists [StatusMsg "Initializing agent..."; ProgressMsg 0 PROCESSING;
            ProgressMsg 0 FAILED; ErrorMsg (exn_msg e)].
    split; [done|]. split; by repeat constructor.
Qed.

(** X19.  A single-agent session from request to the end of its stream:
    for a request with a query, the handler opens the session and starts the
    worker; whatever becomes of the agent (it cannot be created, its run
    raises, its run returns), the worker's messages end with ['done'] and
    hold no other; a consumer that reads the stream without closing it
    receives, heartbeats apart, exactly the worker's messages in order, the
    stream ends, and the session is removed from the table. *)
Theorem single_agent_session_is_streamed_to_its_end
    (data : RunRequest) (progress_queues : gset string) (turns : list turn)
    (later : list Message) :
  let query := default "" (request_query data) in
  let session_id := default "default" (request_session_id data) in
  let put := run_agent strip_special_chars create_agent agent_run query
               (default [] (request_images data)) in
  query ≠ "" →
  Forall (λ t, closed t = false) turns →
  got turns = put ++ later →
  run_single_agent strip_special_chars create_agent agent_run data progress_queues
  = (Success session_id, {[session_id]} ∪ progress_queues, Some put)
  ∧ last put = Some Done
  ∧ payload (generate session_id ({[session_id]} ∪ progress_queues) turns).1 = put
  ∧ (generate session_id ({[session_id]} ∪ progress_queues) turns).2
    = progress_queues ∖ {[session_id]}.
Proof.
  intros query session_id put Hquery Hopen Hgot. split.
  { unfold run_single_agent. fold query session_id.
    by rewrite (proj2 (String.eqb_neq _ _) Hquery). }
  destruct (run_agent_ends_with_done query (default [] (request_images data)))
    as (pre & Hput & Hpre & Hhb).
  fold put in Hput. rewrite Hput in Hgot |- *. rewrite <- app_assoc in Hgot.
  split; [apply last_snoc|].
  by apply (stream_of_queue session_id progress_queues turns pre later).
Qed.

End SingleAgent.

(** The monitor puts stage and agent messages only. *)
Definition from_monitor (data : Message) : bool :=
  match data with MegamindStage _ _ | MegamindAgent _ _ => true | _ => false end.

Lemma poll_from_monitor (current : Progress) : ∀ acc,
  Forall (λ m, from_monitor m = true) acc.1 →
  Forall (λ m, from_monitor m = true) (poll acc current).1.
Proof.
  unfold poll. intros acc Hacc.
  assert (∀ l acc, Forall (λ m, from_monitor m = true) acc.1 →
            Forall (λ m, from_monitor m = true) (foldl report_stage acc l).1) as Hs.
  { induction l as [|[k st] l IH]; intros acc' Hacc'; [done|]. cbn [foldl]. apply IH.
    unfold report_stage. destruct (decide _); [done|]. simpl.
    apply Forall_app. split; [done|]. by repeat constructor. }
  assert (∀ l acc, Forall (λ m, from_monitor m = true) acc.1 →
            Forall (λ m, from_monitor m = true) (foldl report_agent acc l).1) as Ha.
  { induction l as [|[k info] l IH]; intros acc' Hacc'; [done|]. cbn [foldl]. apply IH.
    unfold report_agent. destruct (decide _); [done|]. simpl.
    apply Forall_app. split; [done|]. by repeat constructor. }
  by apply Ha, Hs.
Qed.

Lemma monitor_from_monitor (polls : list Progress) :
  Forall (λ m, from_monitor m = true) (progress_monitor polls).
Proof.
  unfold progress_monitor.
  assert (∀ acc, Forall (λ m, from_monitor m = true) acc.1 →
            Forall (λ m, from_monitor m = true) (foldl poll acc polls).1) as H.
  { induction polls as [|p polls IH]; intros acc Hacc; [done|]. cbn [foldl].
    by apply IH, poll_from_monitor. }
  by apply H.
Qed.

(** Two threads of which the first ends with ['done'] and neither puts
    another: the queue up to its ['done'] holds all of the first thread. *)
Lemma queue_up_to_done (sched : list nat) : ∀ pre monitor : list Message,
  Forall (λ m, is_done m = false) pre →
  Forall (λ m, is_done m = false) monitor →
  ∃ before after,
    interleave sched [pre ++ [Done]; monitor] = before ++ Done :: after
    ∧ Forall (λ m, is_done m = false) before
    ∧ pre `sublist_of` before.
Proof.
  induction sched as [|i sched IH]; intros pre monitor Hpre Hmon.
  - exists pre, monitor. simpl. rewrite app_nil_r, <- app_assoc. done.
  - cbn [interleave]. destruct i as [|[|i]]; cbn [lookup list_lookup].
    + destruct pre as [|m pre]; cbn [app].
      * exists [], (interleave sched (<[0 := []]> [[Done]; monitor])).
        split; [done|]. split; [constructor|done].
      * apply Forall_cons in Hpre as [Hm Hpre].
        destruct (IH pre monitor Hpre Hmon) as (before & after & Hq & Hb & Hsub).
        exists (m :: before), after. cbn [app].
        match goal with |- context [interleave sched ?threads] =>
          change threads with [pre ++ [Done]; monitor] end.
        rewrite Hq.
        split; [done|]. split; [by constructor|by constructor].
    + destruct monitor as [|m monitor].
      * by apply IH.
      * apply Forall_cons in Hmon as [Hm Hmon].
        destruct (IH pre monitor Hpre Hmon) as (before & after & Hq & Hb & Hsub).
        exists (m :: before), after. cbn [app].
        match goal with |- context [interleave sched ?threads] =>
          change threads with [pre ++ [Done]; monitor] end.
        rewrite Hq.
        split; [done|]. split; [by constructor|by constructor].
    + by apply IH.
Qed.

Section Megamind.

Variable strip_special_chars : string → string.
Variable new_orchestrator : res unit.
Variable orchestrate : string → option (list Image) → bool → M PipelineResult.

Lemma worker_ends_with_done (run : M PipelineResult) :
  ∃ pre, run_megamind_orchestrator strip_special_chars new_orchestrator run
         = pre ++ [Done]
         ∧ Forall (λ m, is_done m = false) pre
         ∧ Forall (λ m, is_heartbeat m = false) pre.
Proof.
  unfold run_megamind_orchestrator.
  assert (Forall (λ m, is_done m = false ∧ is_heartbeat m = false)
            (status_callback run.1)) as Hcb.
  { unfold status_callback. induction run.1 as [|ev log IH]; [constructor|].
    cbn [omap list_omap]. destruct ev; try done. by constructor. }
  destruct new_orchestrator as [[]|e].
  - destruct run.2 as [result_data|e].
    + eexists ([_; _] ++ status_callback run.1 ++ [_; _]).
      split; [by rewrite <- !app_assoc|].
      split; repeat (apply Forall_app; split); repeat constructor;
        eapply Forall_impl; try exact Hcb; simpl; tauto.
    + eexists ([_; _] ++ status_callback run.1 ++ [_]).
      split; [by rewrite <- !app_assoc|].
      split; repeat (apply Forall_app; split); repeat constructor;
        eapply Forall_impl; try exact Hcb; simpl; tauto.
  - eexists [_; _; _]. split; [done|]. split; by repeat constructor.
Qed.

(** X20.  A Megamind session from request to the end of its stream.  The
    queue is fed by two threads, the worker and the progress monitor it
    starts once the orchestrator exists.  Whatever the run does and however
    the two threads are scheduled, a consumer that reads the stream without
    closing it receives, heartbeats apart, a prefix of the queue that ends
    with the worker's ['done'] and holds every message of the worker in
    order; then the stream ends and the session is removed.  What the monitor
    puts after that ['done'] is not sent. *)
Theorem megamind_session_is_streamed_to_its_end
    (data : RunRequest) (progress_queues : gset string) (polls : list Progress)
    (sched : list nat) (turns : list turn) (later : list Message) :
  let query := default "" (request_query data) in
  let session_id := default "default" (request_session_id data) in
  let worker := run_megamind_orchestrator strip_special_chars new_orchestrator
                  (orchestrate query (Some (default [] (request_images data))) true) in
  let monitor := match new_orchestrator with
                 | Ret _ => progress_monitor polls
                 | Raise _ => []
                 end in
  let queue := megamind_queue worker monitor sched in
  let out := generate session_id ({[session_id]} ∪ progress_queues) turns in
  query ≠ "" →
  Forall (λ t, closed t = false) turns →
  got turns = queue ++ later →
  run_megamind strip_special_chars new_orchestrator orchestrate data progress_queues
  = (Success session_id, {[session_id]} ∪ progress_queues, Some worker)
  ∧ worker `sublist_of` payload out.1
  ∧ payload out.1 `prefix_of` queue
  ∧ last (payload out.1) = Some Done
  ∧ out.2 = progress_queues ∖ {[session_id]}.
Proof.
  intros query session_id worker monitor queue out Hquery Hopen Hgot. split.
  { unfold run_megamind. fold query session_id.
    by rewrite (proj2 (String.eqb_neq _ _) Hquery). }
  destruct (worker_ends_with_done
              (orchestrate query (Some (default [] (request_images data))) true))
    as (pre & Hworker & Hpre & Hhb).
  fold worker in Hworker.
  assert (Forall (λ m, from_monitor m = true) monitor) as Hmon.
  { subst monitor. destruct new_orchestrator; [apply monitor_from_monitor|constructor]. }
  destruct (queue_up_to_done sched pre monitor Hpre) as (before & after & Hq & Hb & Hsub).
  { eapply Forall_impl; [exact Hmon|]. by intros []. }
  assert (Forall (λ m, is_heartbeat m = false) before) as Hbh.
  { assert (Forall (λ m, is_heartbeat m = false) queue) as Hall.
    { unfold queue, megamind_queue. apply interleave_Forall.
      constructor; [|constructor; [|constructor]].
      - rewrite Hworker. apply Forall_app. split; [done|]. by repeat constructor.
      - eapply Forall_impl; [exact Hmon|]. by intros []. }
    unfold queue, megamind_queue in Hall. rewrite Hworker, Hq in Hall.
    by apply Forall_app in Hall as [? _]. }
  assert (queue = before ++ Done :: after) as Hqueue.
  { unfold queue, megamind_queue. by rewrite Hworker. }
  rewrite Hqueue, <- app_assoc in Hgot. cbn [app] in Hgot.
  destruct (stream_of_queue session_id progress_queues turns before (after ++ later)
              Hopen Hgot Hb Hbh) as [Hpayload Htable].
  fold out in Hpayload, Htable. rewrite Hpayload, Hworker, Hqueue.
  split; [by apply sublist_app|]. split.
  - exists after. by rewrite <- app_assoc.
  - split; [apply last_snoc|done].
Qed.

End Megamind.

(** * The command-line loop (main.py) *)

Module Main.

(** What the program writes: a [print], or the prompt of [input]. *)
Inductive Output :=
| Print (line : string)
| Prompt (text : string).

(** The outcome of a call that the user can interrupt: [KeyboardInterrupt]
    is no [Exception], so [except Exception] does not catch it. *)
Inductive outcome (A : Type) :=
| Returned (a : A)
| Failed (e : exn)
| Interrupted.
Arguments Returned {A} a.
Arguments Failed {A} e.
Arguments Interrupted {A}.

(** One turn of the [while True] loop, as the environment decides it: what
    [input] gives, and what [agent.run] gives if the turn gets to it. *)
Record Turn := mk_turn {
  typed : outcome string;
  answer : outcome string
}.

Definition dashes : string := "--------------------------------------------------".

Definition get_provider_name (agent : Agent) : string :=
  match agent_provider agent with OpenRouter => "OpenRouter" | Gemini => "Gemini" end.

Section Loop.

(** [str.strip] and [str.lower]. *)
Variable strip : string → string.
Variable lower : string → string.
(** [config[provider]['model']] *)
Variable get_model_name : Agent → string.

Definition quits (user_input : string) : bool :=
  bool_decide (lower user_input ∈ ["quit"; "exit"; "bye"]).

Definition exiting : list Output := [Print (nl +:+ nl +:+ "Exiting...")].

Definition complaint (e : exn) : list Output :=
  [Print ("Error: " +:+ exn_msg e); Print "Please try again or type 'quit' to exit."].

(** The loop over the turns that have taken place: what was written, the
    inputs [agent.run] was called with, and whether the loop was left.  When
    the turns are used up and the loop has not ended, the program waits in
    [input]. *)
Fixpoint loop (turns : list Turn) : list Output * list string * bool :=
  match turns with
  | [] => ([Prompt (nl +:+ "User: ")], [], false)
  | t :: rest =>
      let continue (written : list Output) (ran : list string) :=
        let '(out, runs, ended) := loop rest in
        (Prompt (nl +:+ "User: ") :: written ++ out, ran ++ runs, ended) in
      let break (written : list Output) (ran : list string) :=
        (Prompt (nl +:+ "User: ") :: written, ran, true) in
      match typed t with
      | Returned text =>
          let user_input := strip text in
          if quits user_input then break [Print "Goodbye!"] []
          else if String.eqb user_input ""
          then continue [Print "Please enter a question or command."] []
          else
            match answer t with
            | Returned response =>
                continue [Print "Agent: Thinking..."; Print ("Agent: " +:+ response)]
                         [user_input]
            | Failed e => continue (Print "Agent: Thinking..." :: complaint e) [user_input]
            | Interrupted => break (Print "Agent: Thinking..." :: exiting) [user_input]
            end
      | Failed e => continue (complaint e) []
      | Interrupted => break exiting []
      end
  end.

Definition main (create_agent : res Agent) (turns : list Turn)
    : list Output * list string * bool :=
  let banner := [Print "AI Agent with DuckDuckGo Search";
                 Print "Type 'quit', 'exit', or 'bye' to exit";
                 Print dashes] in
  match create_agent with
  | Ret agent =>
      let '(out, runs, ended) := loop turns in
      (banner
       ++ [Print "Agent initialized successfully!";
           Print ("Provider: " +:+ get_provider_name agent);
           Print ("Model: " +:+ get_model_name agent);
           Print "Note: Make sure to set your API key in config.yaml";
           Print dashes]
       ++ out, runs, ended)
  | Raise e =>
      (banner
       ++ [Print ("Error initializing agent: " +:+ exn_msg e);
           Print "Make sure you have:";
           Print "1. Set the 'provider' field in config.yaml (openrouter or gemini)";
           Print "2. Set your API key for the selected provider in config.yaml";
           Print "3. Installed all dependencies with: pip install -r requirements.txt"],
       [], true)
  end.

(** ** Observations *)

(** The turn leaves the loop: a quit word, or an interrupt at the prompt or
    during the run. *)
Definition leaves (t : Turn) : bool :=
  match typed t with
  | Returned text =>
      quits (strip text)
      || (negb (String.eqb (strip text) "")
          && match answer t with Interrupted => true | _ => false end)
  | Failed _ => false
  | Interrupted => true
  end.

(** The input the turn gives to [agent.run], if it gets to it. *)
Definition asked (t : Turn) : option string :=
  match typed t with
  | Returned text =>
      if quits (strip text) || String.eqb (strip text) "" then None
      else Some (strip text)
  | _ => None
  end.

(** The number of times [input] was called. *)
Definition prompts (out : list Output) : nat :=
  length (omap (λ o, match o with Prompt text => Some text | Print _ => None end) out).

End Loop.

End Main.

(** * Properties of the command-line loop *)

Section CommandLine.

Import Main.

Variable strip : string → string.
Variable lower : string → string.

Abbreviation cli_loop := (loop strip lower).
Abbreviation cli_leaves := (leaves strip lower).
Abbreviation cli_asked := (asked strip lower).

Lemma prompts_app (l1 l2 : list Output) : prompts (l1 ++ l2) = (prompts l1 + prompts l2)%nat.
Proof. unfold prompts. by rewrite omap_app, length_app. Qed.

(** What a turn prints after the prompt. *)
Definition says (t : Turn) : list Output :=
  match typed t with
  | Returned text =>
      if quits lower (strip text) then [Print "Goodbye!"]
      else if String.eqb (strip text) ""
      then [Print "Please enter a question or command."]
      else Print "Agent: Thinking..."
           :: match answer t with
              | Returned response => [Print ("Agent: " +:+ response)]
              | Failed e => complaint e
              | Interrupted => exiting
              end
  | Failed e => complaint e
  | Interrupted => exiting
  end.

Lemma says_no_prompt (t : Turn) : prompts (says t) = 0%nat.
Proof.
  unfold says. destruct (typed t) as [text|e|]; try done.
  destruct (quits lower (strip text)); [done|].
  destruct (String.eqb (strip text) ""); [done|].
  by destruct (answer t).
Qed.

Lemma loop_step (t : Turn) (rest : list Turn) :
  cli_loop (t :: rest)
  = if cli_leaves t
    then (Prompt (nl +:+ "User: ") :: says t, option_list (cli_asked t), true)
    else (Prompt (nl +:+ "User: ") :: says t ++ (cli_loop rest).1.1,
          option_list (cli_asked t) ++ (cli_loop rest).1.2,
          (cli_loop rest).2).
Proof.
  unfold leaves, asked, says. cbn [loop].
  destruct (cli_loop rest) as [[out runs] ended]. cbn [fst snd].
  destruct (typed t) as [text|e|]; [|done|done].
  destruct (quits lower (strip text)); [done|]. cbn [orb].
  destruct (String.eqb (strip text) ""); [done|]. cbn [negb andb].
  by destruct (answer t).
Qed.

(** X21.  The command-line loop is left only at a quit word or at a
    keyboard interrupt.  Over turns that bring neither, whatever else they
    bring (empty lines, failures of [input] such as the end of the input,
    failures of the agent), the loop is still running and asks for the next
    input; [agent.run] was called exactly for the lines that are not empty
    after stripping, with the stripped text, in order. *)
Theorem command_loop_survives_every_failure (turns : list Turn) :
  Forall (λ t, cli_leaves t = false) turns →
  (cli_loop turns).2 = false
  ∧ (cli_loop turns).1.2 = omap cli_asked turns
  ∧ prompts (cli_loop turns).1.1 = S (length turns).
Proof.
  induction turns as [|t turns IH]; intros Hturns; [done|].
  apply Forall_cons in Hturns as [Ht Hturns]. destruct (IH Hturns) as (IH1 & IH2 & IH3).
  rewrite loop_step, Ht. cbn [fst snd].
  split; [done|]. split.
  - rewrite IH2. cbn [omap list_omap]. by destruct (cli_asked t).
  - change (Prompt ?p :: ?l) with ([Prompt p] ++ l).
    rewrite !prompts_app, says_no_prompt, IH3. done.
Qed.

(** X22.  The loop ends at the first turn that brings a quit word or a
    keyboard interrupt: the program has then asked for input once per turn up
    to that one, has called [agent.run] for the lines before it that were not
    empty (and for the line of that turn when the interrupt came during its
    run), and nothing that would have been typed afterwards is read. *)
Theorem command_loop_ends_at_the_first_quit_or_interrupt
    (before after : list Turn) (t : Turn) :
  Forall (λ t, cli_leaves t = false) before →
  cli_leaves t = true →
  cli_loop (before ++ t :: after) = cli_loop (before ++ [t])
  ∧ (cli_loop (before ++ t :: after)).2 = true
  ∧ (cli_loop (before ++ t :: after)).1.2 = omap cli_asked (before ++ [t])
  ∧ prompts (cli_loop (before ++ t :: after)).1.1 = S (length before).
Proof.
  intros Hbefore Ht.
  induction before as [|t0 before IH].
  - cbn [app]. rewrite !loop_step, Ht. cbn [fst snd].
    split; [done|]. split; [done|]. split.
    + cbn [omap list_omap]. by destruct (cli_asked t).
    + change (Prompt ?p :: ?l) with ([Prompt p] ++ l).
      by rewrite prompts_app, says_no_prompt.
  - apply Forall_cons in Hbefore as [Ht0 Hbefore].
    destruct (IH Hbefore) as (IH1 & IH2 & IH3 & IH4).
    cbn [app]. rewrite !loop_step, Ht0, IH1. cbn [fst snd].
    split; [done|]. rewrite <- IH1. split; [done|]. split.
    + rewrite IH3. cbn [omap list_omap]. by destruct (cli_asked t0).
    + change (Prompt ?p :: ?l) with ([Prompt p] ++ l).
      rewrite !prompts_app, says_no_prompt, IH4. done.
Qed.

End CommandLine.

(** ** The properties of the web server and of the command line at sample
    inputs *)

(** X18 at the sample run, polled before it starts, twice after five steps
    and once after nine. *)
Lemma monitor_reports_each_entry_moving_forward_witness :
  StronglySorted le [0; 5; 5; 9]%nat
  ∧ StronglySorted lt
      (rank <$> stage_sent "question_generation"
                  (progress_monitor
                     (snapshots
                        (Sample.orchestrate Sample.all_complete "What is 2+2?" None true
                           Sample.in_time Sample.in_time).1
                        [0; 5; 5; 9]%nat))).
Proof.
  assert (StronglySorted le [0; 5; 5; 9]%nat) as Hsorted by (repeat constructor; lia).
  split; [exact Hsorted|].
  exact (proj1 (monitor_reports_each_entry_moving_forward Sample.openrouter_agent
                  (Sample.agent_run Sample.all_complete) Sample.json_loads
                  Sample.strip Sample.str_list Sample.question_prompt
                  Sample.synthesis_prompt Sample.validation_prompt_1
                  Sample.validation_prompt_2 Sample.final_synthesis_prompt
                  "What is 2+2?" None true Sample.in_time Sample.in_time
                  [0; 5; 5; 9]%nat "question_generation" Hsorted)).
Defined.

(** A consumer that waits once and then takes every message of a queue. *)
Definition read_all (queue : list Message) : list turn :=
  Empty 0 false :: ((λ data, Got data false) <$> queue).

Lemma read_all_open (queue : list Message) :
  Forall (λ t, closed t = false) (read_all queue).
Proof.
  unfold read_all. constructor; [done|]. apply Forall_fmap, Forall_true. done.
Defined.

Lemma read_all_got (queue : list Message) : got (read_all queue) = queue ++ [].
Proof.
  unfold read_all, got. cbn [omap list_omap]. rewrite app_nil_r.
  induction queue as [|data queue IH]; [done|]. cbn [fmap list_fmap omap list_omap].
  by rewrite IH.
Defined.

(** A request of session "s1" with the query "hi". *)
Definition sample_request : RunRequest :=
  {| request_query := Some "hi"; request_session_id := Some "s1";
     request_images := None |}.

(** An agent that completes on its first turn. *)
Definition sample_agent_run (a : Agent) (query : string) (images : option (list Image))
    : res string :=
  OpenRouterAgent.run Sample.json_loads Sample.json_dumps Sample.not_a_mapping
    (Sample.completes "done") a query images.

(** [strip_special_chars] on texts that hold none of the characters it
    removes. *)
Definition plain (text : string) : string := text.

(** X19 at that request. *)
Lemma single_agent_session_is_streamed_to_its_end_witness :
  "hi" ≠ ""
  ∧ payload
      (generate "s1" ({["s1"]} ∪ ∅)
         (read_all (run_agent plain (Ret Sample.openrouter_agent) sample_agent_run
                      "hi" []))).1
    = run_agent plain (Ret Sample.openrouter_agent) sample_agent_run "hi" []
  ∧ (generate "s1" ({["s1"]} ∪ ∅)
       (read_all (run_agent plain (Ret Sample.openrouter_agent) sample_agent_run
                    "hi" []))).2
    = ∅ ∖ {["s1"]}.
Proof.
  assert ("hi" ≠ "") as Hquery by discriminate.
  split; [exact Hquery|].
  exact (proj2 (proj2 (single_agent_session_is_streamed_to_its_end plain
                         (Ret Sample.openrouter_agent) sample_agent_run sample_request
                         ∅ _ [] Hquery (read_all_open _) (read_all_got _)))).
Defined.

(** The Megamind run of the samples, and two polls of its store. *)
Definition sample_orchestrate (query : string) (images : option (list Image))
    (status_callback : bool) : M PipelineResult :=
  Sample.orchestrate Sample.all_complete query images status_callback Sample.in_time
    Sample.in_time.

Definition sample_polls : list Progress :=
  snapshots (sample_orchestrate "hi" (Some []) true).1 [3; 10]%nat.

(** X20 at that run, the worker taking the first two steps. *)
Lemma megamind_session_is_streamed_to_its_end_witness :
  "hi" ≠ ""
  ∧ run_megamind_orchestrator plain (Ret tt) (sample_orchestrate "hi" (Some []) true)
    `sublist_of`
    payload
      (generate "s1" ({["s1"]} ∪ ∅)
         (read_all
            (megamind_queue
               (run_megamind_orchestrator plain (Ret tt)
                  (sample_orchestrate "hi" (Some []) true))
               (progress_monitor sample_polls) [0; 0; 1; 0; 1]%nat))).1.
Proof.
  assert ("hi" ≠ "") as Hquery by discriminate.
  split; [exact Hquery|].
  exact (proj1 (proj2 (megamind_session_is_streamed_to_its_end plain (Ret tt)
                         sample_orchestrate sample_request ∅ sample_polls
                         [0; 0; 1; 0; 1]%nat _ [] Hquery (read_all_open _)
                         (read_all_got _)))).
Defined.

(** [str.lower] on texts without upper-case letters. *)
Definition lowercase (text : string) : string := text.

(** An empty line, a question the agent fails on, and a question it
    answers. *)
Definition three_turns : list Main.Turn :=
  [Main.mk_turn (Main.Returned "") (Main.Returned "unused");
   Main.mk_turn (Main.Returned "hello")
     (Main.Failed (mk_exn Exception "LLM call failed: Connection error."));
   Main.mk_turn (Main.Returned "what is 2+2?") (Main.Returned "4")].

(** X21 at these turns. *)
Lemma command_loop_survives_every_failure_witness :
  Forall (λ t, Main.leaves Sample.strip lowercase t = false) three_turns
  ∧ (Main.loop Sample.strip lowercase three_turns).2 = false
  ∧ (Main.loop Sample.strip lowercase three_turns).1.2 = ["hello"; "what is 2+2?"]
  ∧ Main.prompts (Main.loop Sample.strip lowercase three_turns).1.1 = 4%nat.
Proof.
  assert (Forall (λ t, Main.leaves Sample.strip lowercase t = false) three_turns)
    as Hturns by (repeat constructor).
  split; [exact Hturns|].
  exact (command_loop_survives_every_failure Sample.strip lowercase three_turns Hturns).
Defined.

(** X22 at the same turns, followed by "quit" and a line that is not
    read. *)
Lemma command_loop_ends_at_the_first_quit_or_interrupt_witness :
  Forall (λ t, Main.leaves Sample.strip lowercase t = false) three_turns
  ∧ Main.leaves Sample.strip lowercase
      (Main.mk_turn (Main.Returned "quit") (Main.Returned "unused")) = true
  ∧ Main.loop Sample.strip lowercase
      (three_turns
       ++ Main.mk_turn (Main.Returned "quit") (Main.Returned "unused")
          :: [Main.mk_turn (Main.Returned "one more") (Main.Returned "unused")])
    = Main.loop Sample.strip lowercase
        (three_turns ++ [Main.mk_turn (Main.Returned "quit") (Main.Returned "unused")]).
Proof.
  assert (Forall (λ t, Main.leaves Sample.strip lowercase t = false) three_turns)
    as Hturns by (repeat constructor).
  split; [exact Hturns|]. split; [reflexivity|].
  exact (proj1 (command_loop_ends_at_the_first_quit_or_interrupt Sample.strip lowercase
                  three_turns
                  [Main.mk_turn (Main.Returned "one more") (Main.Returned "unused")]
                  (Main.mk_turn (Main.Returned "quit") (Main.Returned "unused"))
                  Hturns eq_refl)).
Defined.
